(** * Bahamut: the push upstreamer, the push session engine and their
    neighbours

    A shallow embedding of

    - [gateway/upstreamer/push/upstreamer.go]: [Upstream], [Collect],
      [measure] and [listenService];
    - the [PushSession] of [config.go]: [DirectPush], the read, write and
      control loops of a session and its API operation handlers;
    - the health check and the models of the tests of [config.go];
    - [context.go]: the context of an operation and the HTTP responses;
    - [pubsub/kafka.go]: [Publish], [Subscribe], [Connect] and
      [Disconnect].

    Go's [float64] is Rocq's primitive binary64 [float]; Go's [int] and
    [time.Duration] are [Z] restricted to 64 bits; maps are [gmap];
    goroutines are the moves of a labelled transition function over the
    state of the session. *)

From Stdlib Require Import ZArith QArith Qround Floats Uint63 Ascii String List Lia Bool.
From Stdlib Require Import DecimalString.
From stdpp Require Import base option list gmap strings.

Local Open Scope string_scope.
Local Open Scope Z_scope.
Local Open Scope list_scope.

(** ** Go values *)

(** What running a piece of Go can end in: a normal return, a run-time
    panic, or a value the language leaves to the implementation. *)
Inductive outcome (A : Type) : Type :=
| Returns (a : A)
| Panics (msg : string)
| ImplementationDefined.
Arguments Returns {A} a.
Arguments Panics {A} msg.
Arguments ImplementationDefined {A}.

Module Float64.

(** The mathematical value of a finite binary64 number. *)
Definition value (x : float) : option Q :=
  match Prim2SF x with
  | S754_zero _ => Some (0 # 1)%Q
  | S754_finite s m e =>
      let a := match e with
               | Zneg k => (Zpos m # 2 ^ k)%Q
               | _ => inject_Z (Z.shiftl (Zpos m) e)
               end in
      Some (if s then Qopp a else a)
  | _ => None
  end.

(** Truncation toward zero of a finite binary64 number. *)
Definition trunc (x : float) : option Z :=
  match Prim2SF x with
  | S754_zero _ => Some 0
  | S754_finite s m e =>
      let a := match e with
               | Zneg k => Z.shiftr (Zpos m) (Zpos k)
               | _ => Z.shiftl (Zpos m) e
               end in
      Some (if s then - a else a)
  | _ => None
  end.

Definition min_int : Z := - 2 ^ 63.
Definition max_int : Z := 2 ^ 63 - 1.

(** 64-bit two's complement wrap-around of Go's [int]. *)
Definition wrap (z : Z) : Z := (z + 2 ^ 63) mod 2 ^ 64 - 2 ^ 63.

(** Go's conversion [int(x)]: the fraction is discarded; when the
    result does not fit an [int] (also for NaN and the infinities) the
    value is implementation-dependent, which is [None] here. *)
Definition to_int (x : float) : option Z :=
  match trunc x with
  | Some z => if (min_int <=? z) && (z <=? max_int) then Some z else None
  | None => None
  end.

(** Go's conversion [float64(n)] of an [int], rounding to nearest even.
    The primitive conversion takes the 63-bit magnitudes; the magnitude
    of [min_int] is the double of [2 ^ 62]. *)
Definition of_int (n : Z) : float :=
  if n =? min_int then (- (of_uint63 (Uint63.of_Z (2 ^ 62)) * 2))%float
  else if n <? 0 then (- of_uint63 (Uint63.of_Z (- n)))%float
  else of_uint63 (Uint63.of_Z n).

Definition is_nan (x : float) : bool := negb (x =? x)%float.

End Float64.


(** ** The feedback loop's moving average *)

Module MovingAverage.

(** Modelled from the spec: the [MovingAverage] type, whose Go source is
    not among the sources. "Ring buffer of up to N samples. Attributes:
    samples[0..k-1] (k <= N), next (write index). Add(x) overwrites
    oldest; Average() returns arithmetic mean of stored samples, 0 if
    empty." The capacity is at least one. *)
Record t : Type := mk {
  capacity : nat;
  samples : list float;
  next : nat;
}.

Definition NewMovingAverage (n : nat) : t :=
  {| capacity := n; samples := []; next := 0 |}.

Definition Add (x : float) (m : t) : t :=
  if (length (samples m) <? capacity m)%nat
  then {| capacity := capacity m;
          samples := samples m ++ [x];
          next := (S (next m)) mod capacity m |}
  else {| capacity := capacity m;
          samples := <[next m := x]> (samples m);
          next := (S (next m)) mod capacity m |}.

Definition sum (l : list float) : float := fold_left PrimFloat.add l 0%float.

Definition Average (m : t) : float :=
  match samples m with
  | [] => 0%float
  | l => (sum l / Float64.of_int (Z.of_nat (length l)))%float
  end.

End MovingAverage.

(** ** The push upstreamer ([gateway/upstreamer/push/upstreamer.go]) *)

Module Push.

Import MovingAverage.

(** [endpointInfo]: the two fields [Upstream] reads under the endpoint's
    read lock. *)
Record endpointInfo : Type := {
  address : string;
  lastLoad : float;
}.

(** The [Randomizer] of the configuration: [Intn r n] is the draw and
    the generator's next state. Go's [Intn] panics when [n <= 0]; the
    callers below test that before they draw. *)
Class Randomizer (R : Type) : Type := {
  Intn : R -> Z -> Z * R;
}.

(** [Intn] answers in [[0, n)]. *)
Class RandomizerSpec (R : Type) `{Randomizer R} : Prop := {
  Intn_range : forall (r : R) (n : Z), 0 < n -> 0 <= fst (Intn r n) < n;
}.

(** The wire record of the status topic and its status. The sources
    use [ping], its fields [Name], [Endpoint] and [Status] and the two
    constants; the other fields are the spec's. A status that is neither
    constant is [serviceStatusOther]. *)
Inductive serviceStatus : Type :=
| serviceStatusHello
| serviceStatusGoodbye
| serviceStatusOther (raw : string).

Record ping : Type := {
  Name : string;
  Endpoint : string;
  Status : serviceStatus;
  Routes : list string;
  PrivateRoutes : list string;
  EventRoutes : list string;
  Load : float;
}.

Definition set_Endpoint (e : string) (sp : ping) : ping :=
  {| Name := Name sp; Endpoint := e; Status := Status sp; Routes := Routes sp;
     PrivateRoutes := PrivateRoutes sp; EventRoutes := EventRoutes sp;
     Load := Load sp |}.

(** Functions of the package that [upstreamer.go] calls and that are
    declared in files that are not among the sources; they are taken as
    parameters. [Sv] is [servicesConfig]; [outdatedEndpoints] lists, in
    the order of the two nested loops of the tick branch, the service
    name and the address of every endpoint not seen since the cutoff. *)
Class PathHelpers : Type := {
  getTargetIdentity : string -> string;
}.

Class Picker (R : Type) : Type := {
  pick : R -> nat -> (nat * nat) * R;
}.

Class Registry (Sv : Type) : Type := {
  handleAddServicePing : Sv -> ping -> bool * Sv;
  handleRemoveServicePing : Sv -> ping -> bool * Sv;
  outdatedEndpoints : Sv -> Z -> list (string * string);
  resyncRoutes : Sv -> bool -> list string -> gmap string (list endpointInfo);
}.

Record upstreamConfig (R : Type) : Type := {
  randomizer : R;
  requiredServices : list string;
  feedbackLoopSamples : nat;
  overrideEndpointAddress : string;
  exposePrivateAPIs : bool;
  eventsAPIs : list string;
  serviceTimeout : Z;
}.
Arguments randomizer {R} _.
Arguments requiredServices {R} _.
Arguments feedbackLoopSamples {R} _.
Arguments overrideEndpointAddress {R} _.
Arguments exposePrivateAPIs {R} _.
Arguments eventsAPIs {R} _.
Arguments serviceTimeout {R} _.

Record Upstreamer (R : Type) : Type := {
  apis : gmap string (list endpointInfo);
  config : upstreamConfig R;
  feedbackLoop : gmap string MovingAverage.t;
}.
Arguments apis {R} _.
Arguments config {R} _.
Arguments feedbackLoop {R} _.

Definition set_apis {R} (a : gmap string (list endpointInfo)) (c : Upstreamer R)
  : Upstreamer R :=
  {| apis := a; config := config c; feedbackLoop := feedbackLoop c |}.

Definition set_feedbackLoop {R} (f : gmap string MovingAverage.t) (c : Upstreamer R)
  : Upstreamer R :=
  {| apis := apis c; config := config c; feedbackLoop := f |}.

(** [measure], lines 263-271. *)
Definition measure {R} (c : Upstreamer R) (address : string) : float :=
  match feedbackLoop c !! address with
  | Some ma => Average ma
  | None => 0%float
  end.

(** [time.Duration.Microseconds]: a duration is a count of nanoseconds,
    and Go's integer division truncates toward zero. *)
Definition Microseconds (d : Z) : Z := Z.quot d 1000.

(** [Collect], lines 246-259. *)
Definition Collect {R} (c : Upstreamer R) (address : string) (responseTime : Z)
  : Upstreamer R :=
  let v := Float64.of_int (Microseconds responseTime) in
  if (v =? 0)%float then c
  else
    match feedbackLoop c !! address with
    | Some values => set_feedbackLoop (<[address := Add v values]> (feedbackLoop c)) c
    | None =>
        set_feedbackLoop
          (<[address := NewMovingAverage (feedbackLoopSamples (config c))]> (feedbackLoop c)) c
    end.

Definition swap {A} (p : A * A) : A * A := (snd p, fst p).

(** [Upstream], lines 74-117: the choice between the two endpoints
    picked. The arrays [addresses], [loads] and [w] are pairs. *)
Definition choose {R} `{Randomizer R} (c : Upstreamer R) (rnd : R)
    (epi1 epi2 : endpointInfo) : outcome (string * float) * R :=
  let addresses := (address epi1, address epi2) in
  let loads := (lastLoad epi1, lastLoad epi2) in
  let w := (measure c (fst addresses), measure c (snd addresses)) in
  let w := if (fst w =? 0)%float || (snd w =? 0)%float then loads else w in
  let '(addresses, loads, w) :=
    if (snd w <? fst w)%float then (swap addresses, swap loads, swap w)
    else (addresses, loads, w) in
  let w := (fst w, (fst w + snd w)%float) in
  match Float64.to_int (snd w) with
  | None => (ImplementationDefined, rnd)
  | Some i =>
      let n := Float64.wrap (i + 1) in
      if n <=? 0 then (Panics "invalid argument to Intn", rnd)
      else
        let '(d, rnd') := Intn rnd n in
        let draw := Float64.of_int d in
        if (draw <=? fst w)%float then (Returns (snd addresses, snd loads), rnd')
        else (Returns (fst addresses, fst loads), rnd')
  end.

(** [Upstream], lines 42-119. The result comes with the randomizer as
    the call leaves it. *)
Definition Upstream {R} `{Randomizer R} `{Picker R} `{PathHelpers} (c : Upstreamer R)
    (path : string) : outcome (string * float) * R :=
  let identity := getTargetIdentity path in
  let eps := default [] (apis c !! identity) in
  let rnd := randomizer (config c) in
  match length eps with
  | O => (Returns ("", 0%float), rnd)
  | 1%nat =>
      match eps !! 0%nat with
      | Some ep => (Returns (address ep, lastLoad ep), rnd)
      | None => (Panics "index out of range", rnd)
      end
  | l =>
      let '((n1, n2), rnd) :=
        if (l =? 2)%nat then ((0%nat, 1%nat), rnd) else pick rnd l in
      match eps !! n1, eps !! n2 with
      | Some epi1, Some epi2 => choose c rnd epi1 epi2
      | _, _ => (Panics "index out of range", rnd)
      end
  end.

(** *** [net.SplitHostPort] (Go's standard library) *)

Fixpoint indexByte (c : ascii) (s : string) : option nat :=
  match s with
  | EmptyString => None
  | String a rest =>
      if Ascii.eqb a c then Some 0%nat else S <$> indexByte c rest
  end.

Fixpoint lastIndexByte (c : ascii) (s : string) : option nat :=
  match s with
  | EmptyString => None
  | String a rest =>
      match lastIndexByte c rest with
      | Some i => Some (S i)
      | None => if Ascii.eqb a c then Some 0%nat else None
      end
  end.

(** [s[i:]] and [s[i:j]]. *)
Definition from (i : nat) (s : string) : string :=
  substring i (String.length s - i) s.
Definition slice (i j : nat) (s : string) : string := substring i (j - i) s.

Definition SplitHostPort (hostport : string) : string + (string * string) :=
  let missingPort := "missing port in address" in
  let tooManyColons := "too many colons in address" in
  match lastIndexByte ":" hostport with
  | None => inl missingPort
  | Some i =>
      let bracketed :=
        match String.get 0 hostport with
        | Some a => Ascii.eqb a "["
        | None => false
        end in
      let parsed : string + (string * nat * nat) :=
        if bracketed then
          match indexByte "]" hostport with
          | None => inl "missing ']' in address"
          | Some e =>
              if (e + 1 =? String.length hostport)%nat then inl missingPort
              else if (e + 1 =? i)%nat then inr (slice 1 e hostport, 1%nat, (e + 1)%nat)
              else
                match String.get (e + 1) hostport with
                | Some a => if Ascii.eqb a ":" then inl tooManyColons else inl missingPort
                | None => inl missingPort
                end
          end
        else
          let host := slice 0 i hostport in
          match indexByte ":" host with
          | Some _ => inl tooManyColons
          | None => inr (host, 0%nat, 0%nat)
          end in
      match parsed with
      | inl why => inl why
      | inr (host, j, k) =>
          match indexByte "[" (from j hostport) with
          | Some _ => inl "unexpected '[' in address"
          | None =>
              match indexByte "]" (from k hostport) with
              | Some _ => inl "unexpected ']' in address"
              | None => inr (host, from (i + 1) hostport)
              end
          end
      end
  end.

(** *** [listenService], lines 131-242 *)

(** What one turn of the [select] receives. A publication comes with
    the result of [pub.Decode]: [None] is a decoding error. *)
Inductive selected : Type :=
| Tick (now : Z)
| Publication (decoded : option ping)
| SubscriptionError (msg : string)
| ContextDone.

Inductive phase : Type :=
| Listening
| Returned
| Exited
| Panicked.

(** The upstreamer with the local variables of [listenService];
    [readyCloses] counts the executions of [close(ready)]. *)
Record listener (R Sv : Type) : Type := {
  upstreamer : Upstreamer R;
  services : Sv;
  requiredReady : Z;
  requiredNotifSent : bool;
  requiredCount : Z;
  requiredSeen : gmap string bool;
  readyCloses : nat;
  status : phase;
}.
Arguments upstreamer {R Sv} _.
Arguments services {R Sv} _.
Arguments requiredReady {R Sv} _.
Arguments requiredNotifSent {R Sv} _.
Arguments requiredCount {R Sv} _.
Arguments requiredSeen {R Sv} _.
Arguments readyCloses {R Sv} _.
Arguments status {R Sv} _.

(** [close(ready)]: closing a closed channel panics. *)
Definition closeReady {R Sv} (st : listener R Sv) : listener R Sv :=
  {| upstreamer := upstreamer st; services := services st;
     requiredReady := requiredReady st; requiredNotifSent := true;
     requiredCount := requiredCount st; requiredSeen := requiredSeen st;
     readyCloses := S (readyCloses st);
     status := if (0 <? readyCloses st)%nat then Panicked else status st |}.

(** Lines 141-155: the state in which the loop is entered. *)
Definition listenService_init {R Sv} (c : Upstreamer R) (empty : Sv) : listener R Sv :=
  let requiredCount := Z.of_nat (length (requiredServices (config c))) in
  let requiredServices :=
    fold_left (fun m srv => <[srv := false]> m) (requiredServices (config c)) ∅ in
  let st := {| upstreamer := c; services := empty;
               requiredReady := 0; requiredNotifSent := false;
               requiredCount := requiredCount; requiredSeen := requiredServices;
               readyCloses := 0; status := Listening |} in
  if requiredCount =? 0 then closeReady st else st.

Definition with_registry {R Sv} (c : Upstreamer R) (sv : Sv) (st : listener R Sv)
  : listener R Sv :=
  {| upstreamer := c; services := sv;
     requiredReady := requiredReady st; requiredNotifSent := requiredNotifSent st;
     requiredCount := requiredCount st; requiredSeen := requiredSeen st;
     readyCloses := readyCloses st; status := status st |}.

Definition with_status {R Sv} (p : phase) (st : listener R Sv) : listener R Sv :=
  {| upstreamer := upstreamer st; services := services st;
     requiredReady := requiredReady st; requiredNotifSent := requiredNotifSent st;
     requiredCount := requiredCount st; requiredSeen := requiredSeen st;
     readyCloses := readyCloses st; status := p |}.

Definition resync {R Sv} `{Registry Sv} (c : Upstreamer R) (sv : Sv) : Upstreamer R :=
  set_apis (resyncRoutes sv (exposePrivateAPIs (config c)) (eventsAPIs (config c))) c.

(** Lines 191-196: the endpoint of a decoded ping under
    [overrideEndpointAddress]. *)
Definition overrideEndpoint {R} (cfg : upstreamConfig R) (sp : ping) : ping :=
  if String.eqb (overrideEndpointAddress cfg) "" then sp
  else
    match SplitHostPort (Endpoint sp) with
    | inr (_, p) => set_Endpoint (overrideEndpointAddress cfg ++ ":" ++ p)%string sp
    | inl _ => sp
    end.

(** Lines 208-219: the required services, after a hello. *)
Definition trackRequired {R Sv} (sp : ping) (st : listener R Sv) : listener R Sv :=
  if (0 <? requiredCount st) && negb (requiredNotifSent st) then
    let st :=
      match requiredSeen st !! Name sp with
      | Some false =>
          {| upstreamer := upstreamer st; services := services st;
             requiredReady := requiredReady st + 1;
             requiredNotifSent := requiredNotifSent st;
             requiredCount := requiredCount st;
             requiredSeen := <[Name sp := true]> (requiredSeen st);
             readyCloses := readyCloses st; status := status st |}
      | _ => st
      end in
    if requiredReady st =? requiredCount st then closeReady st else st
  else st.

(** Lines 198-230: the dispatch of a ping by its status. *)
Definition handlePing {R Sv} `{Registry Sv} (sp : ping) (st : listener R Sv)
  : listener R Sv :=
  match Status sp with
  | serviceStatusHello =>
      let '(changed, sv) := handleAddServicePing (services st) sp in
      let c := if changed then resync (upstreamer st) sv else upstreamer st in
      trackRequired sp (with_registry c sv st)
  | serviceStatusGoodbye =>
      let '(changed, sv) := handleRemoveServicePing (services st) sp in
      let c :=
        if changed
        then
          let c := resync (upstreamer st) sv in
          set_feedbackLoop (delete (Endpoint sp) (feedbackLoop c)) c
        else upstreamer st in
      with_registry c sv st
  | serviceStatusOther _ => st
  end.

(** Lines 163-180: the tick. [foundOutdated || ...] does not call
    [handleRemoveServicePing] once [foundOutdated] is set. *)
Definition removeOutdated {R Sv} `{Registry Sv} (since : Z) (st : listener R Sv)
  : listener R Sv :=
  let '(found, sv, fl) :=
    fold_left
      (fun '(found, sv, fl) '(name, ep) =>
         let '(found, sv) :=
           if found : bool then (true, sv)
           else handleRemoveServicePing sv
                  {| Name := name; Endpoint := ep; Status := serviceStatusOther "";
                     Routes := []; PrivateRoutes := []; EventRoutes := [];
                     Load := 0%float |} in
         (found, sv, delete ep fl))
      (outdatedEndpoints (services st) since)
      (false, services st, feedbackLoop (upstreamer st)) in
  let c := set_feedbackLoop fl (upstreamer st) in
  with_registry (if found then resync c sv else c) sv st.

(** One turn of the loop, lines 160-241. *)
Definition listenService_step {R Sv} `{Registry Sv} (ev : selected) (st : listener R Sv)
  : listener R Sv :=
  match status st with
  | Listening =>
      match ev with
      | Tick now => removeOutdated (now - serviceTimeout (config (upstreamer st))) st
      | Publication None => st
      | Publication (Some sp) =>
          handlePing (overrideEndpoint (config (upstreamer st)) sp) st
      | SubscriptionError msg =>
          if String.eqb msg "nats: invalid connection" then with_status Exited st else st
      | ContextDone => with_status Returned st
      end
  | _ => st
  end.

(** [Start] followed by the given turns of the loop. *)
Definition listenService {R Sv} `{Registry Sv} (c : Upstreamer R) (empty : Sv)
    (turns : list selected) : listener R Sv :=
  fold_left (fun st ev => listenService_step ev st) turns (listenService_init c empty).

End Push.

(** ** The push session ([PushSession] in [config.go]) *)

Module Session.

(** *** The records of [elemental] that the session handles *)

Record Event : Type := {
  Identity : string;
  EventType : string;
  Timestamp : Z;
  Entity : string;
}.

Definition OperationRetrieveMany : string := "retrieve-many".
Definition OperationRetrieve : string := "retrieve".
Definition OperationCreate : string := "create".
Definition OperationUpdate : string := "update".
Definition OperationDelete : string := "delete".
Definition OperationInfo : string := "info".
Definition OperationPatch : string := "patch".

Record Request : Type := {
  RequestID : string;
  Operation : string;
  Username : string;
  Password : string;
  Data : string;
}.

(** [elemental.NewResponse()] with [response.Request = request]. *)
Record Response : Type := {
  ResponseRequest : Request;
}.

(** [elemental.NewError(title, description, subject, code)]. *)
Record Error : Type := NewError {
  Title : string;
  Description : string;
  Subject : string;
  Code : Z;
}.

Definition StatusInternalServerError : Z := 500.

(** The [*Context] a dispatcher returns. *)
Record Context : Type := {
  StatusCode : Z;
  OutputData : string;
}.

(** The interface of [elemental.PushFilter] that the session uses. *)
Class PushFilter (F : Type) : Type := {
  IsFilteredOut : F -> string -> string -> bool;
  Duplicate : F -> F;
}.

(** A duplicate filters as its original does. *)
Class PushFilterSpec (F : Type) `{PushFilter F} : Prop := {
  Duplicate_IsFilteredOut :
    forall (f : F) (identity eventType : string),
      IsFilteredOut (Duplicate f) identity eventType = IsFilteredOut f identity eventType;
}.

(** [time.Time.Before] on instants counted in nanoseconds. *)
Definition Before (t u : Z) : bool := t <? u.

(** *** What a session does that can be observed *)

Inductive pushSessionType : Type :=
| pushSessionTypeEvent
| pushSessionTypeAPI.

Inductive channel : Type := ChanStopAll | ChanStopRead | ChanStopWrite.

Inductive frame : Type :=
| EventFrame (e : Event)
| ResponseFrame (r : Response) (ctx : Context)
| ErrorFrame (r : Response) (err : Error).

(** [ASend f delivered]: [f] was handed to the socket, which took it or
    failed. [ASignal c]: [true] was sent on the stop channel [c]. *)
Inductive action : Type :=
| ASend (f : frame) (delivered : bool)
| ASignal (c : channel)
| AUnregister
| ASocketClose
| AClearCallbacks.

(** *** The operation handlers, lines 375-561 *)

(** A Go function body over the log of the session: it returns, or it
    panics with a value. The value of a panic is the text [%v] prints
    for it, or [None] for the nil of [panic(nil)]. *)
Definition go (A : Type) : Type := list action -> (A + option string) * list action.

Definition ret {A} (a : A) : go A := fun l => (inl a, l).
Definition bind {A B} (m : go A) (k : A -> go B) : go B :=
  fun l => match m l with
           | (inl a, l') => k a l'
           | (inr v, l') => (inr v, l')
           end.
Definition panic {A} (v : option string) : go A := fun l => (inr v, l).
Definition emit (a : action) : go unit := fun l => (inl tt, (l ++ [a])%list).

(** [defer deferred(); body]: [deferred] runs when [body] is over, with
    what a call of [recover()] at its start returns. The call stops the
    panic that ended [body], if any, and returns its value: so it
    returns nil when [body] returned, and also when [body] ended in
    [panic(nil)] (the Go of this code has no [PanicNilError]). *)
Definition defer (deferred : option string -> go unit) (body : go unit) : go unit :=
  fun l => match body l with
           | (inl tt, l') => deferred None l'
           | (inr v, l') => deferred v l'
           end.

Declare Scope go_scope.
Delimit Scope go_scope with go.
Notation "x <- m ; k" := (bind m (fun x => k))
  (at level 20, m at level 100, k at level 200, only parsing) : go_scope.

(** What a call of a dispatcher ends in: a panic with its value, [None]
    being the value of [panic(nil)], or a return. *)
Inductive dispatched : Type :=
| DispatchPanics (v : option string)
| DispatchReturns (ctx : Context) (err : option Error).

(** The dispatchers of the package, declared in a file that is not
    among the sources, are parameters. Each takes the request, then
    whether [s.processorFinder] and (for the operations that publish)
    [s.pushEventsFunc] are still set; the entries of [s.config] they
    also take are fixed. *)
Class Dispatchers : Type := {
  dispatchRetrieveManyOperation : Request -> bool -> dispatched;
  dispatchRetrieveOperation : Request -> bool -> dispatched;
  dispatchCreateOperation : Request -> bool -> bool -> dispatched;
  dispatchUpdateOperation : Request -> bool -> bool -> dispatched;
  dispatchDeleteOperation : Request -> bool -> bool -> dispatched;
  dispatchInfoOperation : Request -> bool -> dispatched;
  dispatchPatchOperation : Request -> bool -> bool -> dispatched;
}.

Definition call (d : dispatched) : go (Context * option Error) :=
  match d with
  | DispatchPanics v => panic v
  | DispatchReturns ctx err => ret (ctx, err)
  end.

(** Modelled from the spec: [writeWebSocketError] and
    [writeWebsocketResponse], whose Go source is not among the sources.
    "Write either the error response or the success response to the
    socket": one frame each, bound to the response. [up] tells whether
    the socket takes the frame. *)
Definition writeWebSocketError (up : bool) (response : Response) (err : Error) : go unit :=
  emit (ASend (ErrorFrame response err) up).

Definition writeWebsocketResponse (up : bool) (response : Response) (ctx : Context)
  : go unit :=
  emit (ASend (ResponseFrame response ctx) up).

(** [handleEventualPanic], lines 375-389; [r] is what [recover()]
    returns. *)
Definition handleEventualPanic (up : bool) (response : Response) (r : option string)
  : go unit :=
  match r with
  | Some v =>
      writeWebSocketError up response
        (NewError "Internal Server Error" v "bahamut" StatusInternalServerError)
  | None => ret tt
  end.

(** The body that the seven handlers share after their call of the
    dispatcher. *)
Definition respond (up : bool) (response : Response) (r : Context * option Error)
  : go unit :=
  match r with
  | (_, Some err) => writeWebSocketError up response err
  | (ctx, None) => writeWebsocketResponse up response ctx
  end.

Section Handlers.

Context `{Dispatchers}.
(** Whether the socket takes a frame; [s.processorFinder] and
    [s.pushEventsFunc]. *)
Variables (up finder push : bool).

Local Open Scope go_scope.

Definition handleRetrieveMany (request : Request) : go unit :=
  let response := {| ResponseRequest := request |} in
  defer (handleEventualPanic up response)
    (r <- call (dispatchRetrieveManyOperation request finder) ; respond up response r).

Definition handleRetrieve (request : Request) : go unit :=
  let response := {| ResponseRequest := request |} in
  defer (handleEventualPanic up response)
    (r <- call (dispatchRetrieveOperation request finder) ; respond up response r).

Definition handleCreate (request : Request) : go unit :=
  let response := {| ResponseRequest := request |} in
  defer (handleEventualPanic up response)
    (r <- call (dispatchCreateOperation request finder push) ; respond up response r).

Definition handleUpdate (request : Request) : go unit :=
  let response := {| ResponseRequest := request |} in
  defer (handleEventualPanic up response)
    (r <- call (dispatchUpdateOperation request finder push) ; respond up response r).

Definition handleDelete (request : Request) : go unit :=
  let response := {| ResponseRequest := request |} in
  defer (handleEventualPanic up response)
    (r <- call (dispatchDeleteOperation request finder push) ; respond up response r).

Definition handleInfo (request : Request) : go unit :=
  let response := {| ResponseRequest := request |} in
  defer (handleEventualPanic up response)
    (r <- call (dispatchInfoOperation request finder) ; respond up response r).

Definition handlePatch (request : Request) : go unit :=
  let response := {| ResponseRequest := request |} in
  defer (handleEventualPanic up response)
    (r <- call (dispatchPatchOperation request finder push) ; respond up response r).

End Handlers.

(** The handler that the control loop starts for an operation. *)
Inductive apiOperation : Type :=
| RetrieveMany | Retrieve | Create | Update | Delete | Info | Patch.

Definition handler `{Dispatchers} (op : apiOperation) (up finder push : bool)
  : Request -> go unit :=
  match op with
  | RetrieveMany => handleRetrieveMany up finder
  | Retrieve => handleRetrieve up finder
  | Create => handleCreate up finder push
  | Update => handleUpdate up finder push
  | Delete => handleDelete up finder push
  | Info => handleInfo up finder
  | Patch => handlePatch up finder push
  end.

(** The [switch request.Operation] of lines 345-367, which has no
    default case. *)
Definition handlerFor (operation : string) : option apiOperation :=
  if String.eqb operation OperationRetrieveMany then Some RetrieveMany
  else if String.eqb operation OperationRetrieve then Some Retrieve
  else if String.eqb operation OperationCreate then Some Create
  else if String.eqb operation OperationUpdate then Some Update
  else if String.eqb operation OperationDelete then Some Delete
  else if String.eqb operation OperationInfo then Some Info
  else if String.eqb operation OperationPatch then Some Patch
  else None.

(** *** The session and its goroutines *)

Inductive control_state : Type :=
| ControlNotStarted
| ControlRunning
| ControlReturned
| ControlPanicked.

(** The read loop waits in [Receive], holds a decoded value in front of
    its [select], waits to send on [stopAll], or has returned. *)
Inductive reader_state (F : Type) : Type :=
| ReaderNotStarted
| ReaderReceiving
| ReaderHoldsFilter (f : option F)
| ReaderHoldsRequest (r : Request)
| ReaderFailed
| ReaderReturned.
Arguments ReaderNotStarted {F}.
Arguments ReaderReceiving {F}.
Arguments ReaderHoldsFilter {F} f.
Arguments ReaderHoldsRequest {F} r.
Arguments ReaderFailed {F}.
Arguments ReaderReturned {F}.

Inductive writer_state : Type :=
| WriterNotStarted
| WriterSelecting
| WriterHolds (e : Event)
| WriterFailed
| WriterReturned.

(** The fields of [PushSession] that the loops use ([events] has no
    buffer: a send on it is a move of the writer), a nil callback being
    [false], then the state of the goroutines of the session and the
    log of its actions. *)
Record PushSession (F : Type) : Type := mkSession {
  Parameters : gmap string (list string);
  processorFinder : bool;
  pushEventsFunc : bool;
  requests : list Request;
  filters : list (option F);
  socketOpen : bool;
  startTime : Z;
  stopAll : nat;
  stopRead : nat;
  stopWrite : nat;
  sType : pushSessionType;
  unregisterFunc : bool;
  filter : option F;
  control : control_state;
  reader : reader_state F;
  writer : writer_state;
  operations : list (apiOperation * Request);
  log : list action;
}.
Arguments mkSession {F}.
Arguments Parameters {F} _.
Arguments processorFinder {F} _.
Arguments pushEventsFunc {F} _.
Arguments requests {F} _.
Arguments filters {F} _.
Arguments socketOpen {F} _.
Arguments startTime {F} _.
Arguments stopAll {F} _.
Arguments stopRead {F} _.
Arguments stopWrite {F} _.
Arguments sType {F} _.
Arguments unregisterFunc {F} _.
Arguments filter {F} _.
Arguments control {F} _.
Arguments reader {F} _.
Arguments writer {F} _.
Arguments operations {F} _.
Arguments log {F} _.

Definition set_requests {F} (v : list Request) (s : PushSession F) : PushSession F :=
  mkSession (Parameters s) (processorFinder s) (pushEventsFunc s) v (filters s) (socketOpen s) (startTime s) (stopAll s) (stopRead s) (stopWrite s) (sType s) (unregisterFunc s) (filter s) (control s) (reader s) (writer s) (operations s) (log s).
Definition set_filters {F} (v : list (option F)) (s : PushSession F) : PushSession F :=
  mkSession (Parameters s) (processorFinder s) (pushEventsFunc s) (requests s) v (socketOpen s) (startTime s) (stopAll s) (stopRead s) (stopWrite s) (sType s) (unregisterFunc s) (filter s) (control s) (reader s) (writer s) (operations s) (log s).
Definition set_stopAll {F} (v : nat) (s : PushSession F) : PushSession F :=
  mkSession (Parameters s) (processorFinder s) (pushEventsFunc s) (requests s) (filters s) (socketOpen s) (startTime s) v (stopRead s) (stopWrite s) (sType s) (unregisterFunc s) (filter s) (control s) (reader s) (writer s) (operations s) (log s).
Definition set_stopRead {F} (v : nat) (s : PushSession F) : PushSession F :=
  mkSession (Parameters s) (processorFinder s) (pushEventsFunc s) (requests s) (filters s) (socketOpen s) (startTime s) (stopAll s) v (stopWrite s) (sType s) (unregisterFunc s) (filter s) (control s) (reader s) (writer s) (operations s) (log s).
Definition set_stopWrite {F} (v : nat) (s : PushSession F) : PushSession F :=
  mkSession (Parameters s) (processorFinder s) (pushEventsFunc s) (requests s) (filters s) (socketOpen s) (startTime s) (stopAll s) (stopRead s) v (sType s) (unregisterFunc s) (filter s) (control s) (reader s) (writer s) (operations s) (log s).
Definition set_filter {F} (v : option F) (s : PushSession F) : PushSession F :=
  mkSession (Parameters s) (processorFinder s) (pushEventsFunc s) (requests s) (filters s) (socketOpen s) (startTime s) (stopAll s) (stopRead s) (stopWrite s) (sType s) (unregisterFunc s) v (control s) (reader s) (writer s) (operations s) (log s).
Definition set_control {F} (v : control_state) (s : PushSession F) : PushSession F :=
  mkSession (Parameters s) (processorFinder s) (pushEventsFunc s) (requests s) (filters s) (socketOpen s) (startTime s) (stopAll s) (stopRead s) (stopWrite s) (sType s) (unregisterFunc s) (filter s) v (reader s) (writer s) (operations s) (log s).
Definition set_reader {F} (v : reader_state F) (s : PushSession F) : PushSession F :=
  mkSession (Parameters s) (processorFinder s) (pushEventsFunc s) (requests s) (filters s) (socketOpen s) (startTime s) (stopAll s) (stopRead s) (stopWrite s) (sType s) (unregisterFunc s) (filter s) (control s) v (writer s) (operations s) (log s).
Definition set_writer {F} (v : writer_state) (s : PushSession F) : PushSession F :=
  mkSession (Parameters s) (processorFinder s) (pushEventsFunc s) (requests s) (filters s) (socketOpen s) (startTime s) (stopAll s) (stopRead s) (stopWrite s) (sType s) (unregisterFunc s) (filter s) (control s) (reader s) v (operations s) (log s).
Definition set_operations {F} (v : list (apiOperation * Request)) (s : PushSession F) : PushSession F :=
  mkSession (Parameters s) (processorFinder s) (pushEventsFunc s) (requests s) (filters s) (socketOpen s) (startTime s) (stopAll s) (stopRead s) (stopWrite s) (sType s) (unregisterFunc s) (filter s) (control s) (reader s) (writer s) v (log s).
Definition set_log {F} (v : list action) (s : PushSession F) : PushSession F :=
  mkSession (Parameters s) (processorFinder s) (pushEventsFunc s) (requests s) (filters s) (socketOpen s) (startTime s) (stopAll s) (stopRead s) (stopWrite s) (sType s) (unregisterFunc s) (filter s) (control s) (reader s) (writer s) (operations s) v.

(** [newSession], lines 134-167, of a socket that is open. The
    callbacks are given as set or nil. *)
Definition newSession {F} (sType : pushSessionType)
    (parameters : gmap string (list string)) (now : Z)
    (unregisterFunc processorFinder pushEventsFunc : bool) : PushSession F :=
  {| Parameters := parameters; processorFinder := processorFinder;
     pushEventsFunc := pushEventsFunc; requests := []; filters := [];
     socketOpen := true; startTime := now;
     stopAll := 0; stopRead := 0; stopWrite := 0;
     sType := sType; unregisterFunc := unregisterFunc; filter := None;
     control := ControlNotStarted; reader := ReaderNotStarted;
     writer := WriterNotStarted; operations := []; log := [] |}.

Definition newPushSession {F} (parameters : gmap string (list string)) (now : Z)
    (unregisterFunc : bool) : PushSession F :=
  newSession pushSessionTypeEvent parameters now unregisterFunc false false.

Definition newAPISession {F} (parameters : gmap string (list string)) (now : Z)
    (unregisterFunc processorFinder pushEventsFunc : bool) : PushSession F :=
  newSession pushSessionTypeAPI parameters now unregisterFunc processorFinder
    pushEventsFunc.

(** [listen], lines 261-271, up to the loop of the control goroutine:
    the read and write loops are started. *)
Definition listen {F} (s : PushSession F) : PushSession F :=
  set_control ControlRunning (set_reader ReaderReceiving (set_writer WriterSelecting s)).

(** The capacity of [requests] and [filters], and of the stop channels. *)
Definition inboxCapacity : nat := 8.
Definition stopCapacity : nat := 2.

(** [DirectPush], lines 185-196: the events that a call has sent on
    [s.events] when it returns, in the order of the sends. Each send
    waits for the write loop; the call at work is [DirectPush_step]
    below. *)
Fixpoint DirectPush {F} (s : PushSession F) (events : list Event) : list Event :=
  match events with
  | [] => []
  | event :: events =>
      if Before (Timestamp event) (startTime s) then DirectPush s events
      else event :: DirectPush s events
  end.

(** [currentFilter], lines 273-283. *)
Definition currentFilter {F} `{PushFilter F} (s : PushSession F) : option F :=
  match filter s with
  | None => None
  | Some f => Some (Duplicate f)
  end.

(** [setCurrentFilter], lines 285-290. *)
Definition setCurrentFilter {F} (f : option F) (s : PushSession F) : PushSession F :=
  set_filter f s.

Definition record {F} (a : list action) (s : PushSession F) : PushSession F :=
  set_log (log s ++ a)%list s.

(** [url.Values.Get]. *)
Definition Get (values : gmap string (list string)) (key : string) : string :=
  match values !! key with
  | Some (v :: _) => v
  | _ => ""
  end.

(** The body of the write loop for the event it received, lines
    240-248; [ok] is whether the network takes the frame. *)
Definition writeEvent {F} `{PushFilter F} (ok : bool) (event : Event) (s : PushSession F)
  : PushSession F :=
  let f := currentFilter s in
  if match f with
     | Some f => IsFilteredOut f (Identity event) (EventType event)
     | None => false
     end
  then set_writer WriterSelecting s
  else
    let delivered := ok && socketOpen s in
    let s := record [ASend (EventFrame event) delivered] s in
    if delivered then set_writer WriterSelecting s else set_writer WriterFailed s.

(** The deferred function of the control loops, lines 297-306 and
    324-333. A nil [unregisterFunc] panics when it is called. *)
Definition shutdown {F} (s : PushSession F) : PushSession F :=
  let s := set_stopRead (S (stopRead s)) (record [ASignal ChanStopRead] s) in
  let s := set_stopWrite (S (stopWrite s)) (record [ASignal ChanStopWrite] s) in
  if unregisterFunc s then
    let s := record [AUnregister; ASocketClose; AClearCallbacks] s in
    mkSession (Parameters s) false false (requests s) (filters s) false (startTime s)
      (stopAll s) (stopRead s) (stopWrite s) (sType s) false (filter s)
      ControlReturned (reader s) (writer s) (operations s) (log s)
  else set_control ControlPanicked s.

(** The body of the API control loop for a request, lines 337-367. *)
Definition serveRequest {F} (request : Request) (s : PushSession F) : PushSession F :=
  let t := Get (Parameters s) "token" in
  let request :=
    if String.eqb t "" then request
    else {| RequestID := RequestID request; Operation := Operation request;
            Username := "Bearer"; Password := t; Data := Data request |} in
  match handlerFor (Operation request) with
  | Some op => set_operations (operations s ++ [(op, request)])%list s
  | None => s
  end.

(** What the socket hands to the read loop. *)
Inductive received (F : Type) : Type :=
| ReceiveError
| ReceivedFilter (f : option F)
| ReceivedRequest (r : Request).
Arguments ReceiveError {F}.
Arguments ReceivedFilter {F} f.
Arguments ReceivedRequest {F} r.

Inductive goroutine : Type := TheReader | TheWriter.

(** The moves of a session: each is one goroutine getting through a
    receive, a send or a [select], or a caller of [DirectPush] or
    [close]. *)
Inductive move (F : Type) : Type :=
| SocketReceive (m : received F)
| ReaderEnqueue
| ReaderStop
| EventsSend (e : Event)
| WriterSend (ok : bool)
| WriterStop
| SignalStopAll (g : goroutine)
| ControlFilter
| ControlRequest
| ControlStopAll
| RunOperation (i : nat) (ok : bool)
| Close.
Arguments SocketReceive {F} m.
Arguments ReaderEnqueue {F}.
Arguments ReaderStop {F}.
Arguments EventsSend {F} e.
Arguments WriterSend {F} ok.
Arguments WriterStop {F}.
Arguments SignalStopAll {F} g.
Arguments ControlFilter {F}.
Arguments ControlRequest {F}.
Arguments ControlStopAll {F}.
Arguments RunOperation {F} i ok.
Arguments Close {F}.

Definition is_running (c : control_state) : bool :=
  match c with ControlRunning => true | _ => false end.

(** One move; [None] when the move is not possible in the state (the
    goroutine is elsewhere, or it would block). *)
Definition step {F} `{PushFilter F} `{Dispatchers} (m : move F) (s : PushSession F)
  : option (PushSession F) :=
  match m with
  | SocketReceive got =>
      (* readFilters, lines 219-224; readRequests, lines 201-206 *)
      match reader s, got, sType s with
      | ReaderReceiving, ReceiveError, _ => Some (set_reader ReaderFailed s)
      | ReaderReceiving, ReceivedFilter f, pushSessionTypeEvent =>
          if socketOpen s then Some (set_reader (ReaderHoldsFilter f) s) else None
      | ReaderReceiving, ReceivedRequest r, pushSessionTypeAPI =>
          if socketOpen s then Some (set_reader (ReaderHoldsRequest r) s) else None
      | _, _, _ => None
      end
  | ReaderEnqueue =>
      (* case s.filters <- filter, line 227; case s.requests <- request, line 209 *)
      match reader s with
      | ReaderHoldsFilter f =>
          if (length (filters s) <? inboxCapacity)%nat
          then Some (set_reader ReaderReceiving (set_filters (filters s ++ [f])%list s))
          else None
      | ReaderHoldsRequest r =>
          if (length (requests s) <? inboxCapacity)%nat
          then Some (set_reader ReaderReceiving (set_requests (requests s ++ [r])%list s))
          else None
      | _ => None
      end
  | ReaderStop =>
      (* case <-s.stopRead, lines 210 and 228 *)
      match reader s, stopRead s with
      | (ReaderHoldsFilter _ | ReaderHoldsRequest _), S n =>
          Some (set_reader ReaderReturned (set_stopRead n s))
      | _, _ => None
      end
  | EventsSend e =>
      (* case event := <-s.events, line 238 *)
      match writer s with
      | WriterSelecting => Some (set_writer (WriterHolds e) s)
      | _ => None
      end
  | WriterSend ok =>
      match writer s with
      | WriterHolds e => Some (writeEvent ok e s)
      | _ => None
      end
  | WriterStop =>
      (* case <-s.stopWrite, line 250 *)
      match writer s, stopWrite s with
      | WriterSelecting, S n => Some (set_writer WriterReturned (set_stopWrite n s))
      | _, _ => None
      end
  | SignalStopAll g =>
      (* s.stopAll <- true, lines 204, 222 and 246 *)
      if (stopAll s <? stopCapacity)%nat then
        let s' := set_stopAll (S (stopAll s)) (record [ASignal ChanStopAll] s) in
        match g, reader s, writer s with
        | TheReader, ReaderFailed, _ => Some (set_reader ReaderReturned s')
        | TheWriter, _, WriterFailed => Some (set_writer WriterReturned s')
        | _, _, _ => None
        end
      else None
  | ControlFilter =>
      (* case filter := <-s.filters, lines 310-311 *)
      match is_running (control s), sType s, filters s with
      | true, pushSessionTypeEvent, f :: rest =>
          Some (setCurrentFilter f (set_filters rest s))
      | _, _, _ => None
      end
  | ControlRequest =>
      (* case request := <-s.requests, lines 337-367 *)
      match is_running (control s), sType s, requests s with
      | true, pushSessionTypeAPI, r :: rest =>
          Some (serveRequest r (set_requests rest s))
      | _, _, _ => None
      end
  | ControlStopAll =>
      (* case <-s.stopAll, lines 313-314 and 369-370, then the deferred function *)
      match is_running (control s), stopAll s with
      | true, S n => Some (shutdown (set_stopAll n s))
      | _, _ => None
      end
  | RunOperation i ok =>
      (* go s.handleCreate(request) and the like, lines 348-366 *)
      match operations s !! i with
      | Some (op, request) =>
          let run :=
            handler op (ok && socketOpen s) (processorFinder s) (pushEventsFunc s) request in
          Some (set_log (snd (run (log s))) (set_operations (delete i (operations s)) s))
      | None => None
      end
  | Close =>
      (* close, lines 256-259 *)
      if (stopAll s <? stopCapacity)%nat
      then Some (set_stopAll (S (stopAll s)) (record [ASignal ChanStopAll] s))
      else None
  end.

(** A run: the moves in turn, while they are possible. *)
Fixpoint run {F} `{PushFilter F} `{Dispatchers} (ms : list (move F)) (s : PushSession F)
  : option (PushSession F) :=
  match ms with
  | [] => Some s
  | m :: ms =>
      match step m s with
      | Some s' => run ms s'
      | None => None
      end
  end.

(** *** A call of [DirectPush] at work, lines 185-196 *)

(** The call in its loop: the events that the [range] has not reached,
    and the events sent on [s.events] so far, in the order of the
    sends. *)
Record pushCall : Type := {
  remaining : list Event;
  sent : list Event;
}.

Definition startCall (events : list Event) : pushCall :=
  {| remaining := events; sent := [] |}.

(** One iteration of the loop, lines 187-194. An event that predates
    the session is skipped. The send of another one on [s.events], a
    channel without buffer, is the move [EventsSend] of the session: it
    goes through when the write loop receives. [None] when the call has
    returned, and when the send blocks. *)
Definition DirectPush_step {F} `{PushFilter F} `{Dispatchers} (s : PushSession F)
    (c : pushCall) : option (PushSession F * pushCall) :=
  match remaining c with
  | [] => None
  | event :: events =>
      if Before (Timestamp event) (startTime s)
      then Some (s, {| remaining := events; sent := sent c |})
      else
        match step (EventsSend event) s with
        | Some s' => Some (s', {| remaining := events; sent := (sent c ++ [event])%list |})
        | None => None
        end
  end.

(** The session and the call, interleaved: a turn is an iteration of
    the call or a move of the session, a send of another caller on
    [s.events] included. *)
Inductive turn (F : Type) : Type :=
| CallerTurn
| SessionTurn (m : move F).
Arguments CallerTurn {F}.
Arguments SessionTurn {F} m.

Definition turn_step {F} `{PushFilter F} `{Dispatchers} (t : turn F)
    (st : PushSession F * pushCall) : option (PushSession F * pushCall) :=
  match t with
  | CallerTurn => DirectPush_step (fst st) (snd st)
  | SessionTurn m =>
      match step m (fst st) with
      | Some s' => Some (s', snd st)
      | None => None
      end
  end.

Fixpoint run_turns {F} `{PushFilter F} `{Dispatchers} (ts : list (turn F))
    (st : PushSession F * pushCall) : option (PushSession F * pushCall) :=
  match ts with
  | [] => Some st
  | t :: ts =>
      match turn_step t st with
      | Some st' => run_turns ts st'
      | None => None
      end
  end.

(** The frames handed to the socket, in order. *)
Definition frames (l : list action) : list frame :=
  omap (fun a => match a with ASend f _ => Some f | _ => None end) l.

Definition unregistrations (l : list action) : nat :=
  length (List.filter (fun a => match a with AUnregister => true | _ => false end) l).

End Session.

(** ** The vocabulary of the properties *)

Module Vocabulary.

Import Push Session.

(** The names of the hello pings that the loop handles before it ends. *)
Fixpoint processedHellos (turns : list selected) : list string :=
  match turns with
  | [] => []
  | Publication (Some sp) :: rest =>
      match Status sp with
      | serviceStatusHello => Name sp :: processedHellos rest
      | _ => processedHellos rest
      end
  | SubscriptionError msg :: rest =>
      if String.eqb msg "nats: invalid connection" then [] else processedHellos rest
  | ContextDone :: _ => []
  | _ :: rest => processedHellos rest
  end.

(** Every required service is among the names [seen]. *)
Definition allSeen (required seen : list string) : bool :=
  forallb (fun n => bool_decide (n ∈ seen)) required.

Definition countSeen (required seen : list string) : nat :=
  length (List.filter (fun n => bool_decide (n ∈ seen)) required).

(** What the local variables of [listenService] hold once the hellos of
    the names [seen] were handled: [total] is the length of the list of
    required services, [names] are its distinct names. *)
Record tracks {R Sv : Type} (total : nat) (names seen : list string)
    (st : listener R Sv) : Prop := {
  tracks_status : status st = Listening;
  tracks_count : requiredCount st = Z.of_nat total;
  tracks_map : forall n,
    requiredSeen st !! n =
      if bool_decide (n ∈ names) then Some (bool_decide (n ∈ seen)) else None;
  tracks_ready : requiredReady st = Z.of_nat (countSeen names seen);
  tracks_sent : requiredNotifSent st = (countSeen names seen =? total)%nat;
  tracks_closes :
    readyCloses st = if (countSeen names seen =? total)%nat then 1%nat else 0%nat;
}.

(** Whether the filter installed in [s] takes the event out. *)
Definition suppressed {F} `{PushFilter F} (s : PushSession F) (e : Event) : bool :=
  match filter s with
  | Some f => IsFilteredOut f (Identity e) (EventType e)
  | None => false
  end.

(** The call of the dispatcher that the handler of an operation makes. *)
Definition dispatch `{Dispatchers} (op : apiOperation) (request : Request) (finder push : bool)
  : dispatched :=
  match op with
  | RetrieveMany => dispatchRetrieveManyOperation request finder
  | Retrieve => dispatchRetrieveOperation request finder
  | Create => dispatchCreateOperation request finder push
  | Update => dispatchUpdateOperation request finder push
  | Delete => dispatchDeleteOperation request finder push
  | Info => dispatchInfoOperation request finder
  | Patch => dispatchPatchOperation request finder push
  end.

(** What a handler hands to the socket for what its dispatcher did:
    one frame, or nothing after [panic(nil)]. *)
Definition answers (request : Request) (d : dispatched) (up : bool) : list action :=
  let response := {| ResponseRequest := request |} in
  match d with
  | DispatchPanics (Some v) =>
      [ASend (ErrorFrame response
                (NewError "Internal Server Error" v "bahamut" StatusInternalServerError)) up]
  | DispatchPanics None => []
  | DispatchReturns _ (Some err) => [ASend (ErrorFrame response err) up]
  | DispatchReturns ctx None => [ASend (ResponseFrame response ctx) up]
  end.

(** The operations that the API control loop dispatches. *)
Definition knownOperations : list string :=
  [OperationRetrieveMany; OperationRetrieve; OperationCreate; OperationUpdate;
   OperationDelete; OperationInfo; OperationPatch].

(** What the deferred function of a control loop does, in order. *)
Definition shutdownActions : list action :=
  [ASignal ChanStopRead; ASignal ChanStopWrite; AUnregister; ASocketClose; AClearCallbacks].

(** The control loop runs: the callback is set and was not called, the
    socket is open, and [stopRead] and [stopWrite] hold no signal. *)
Record running {F} (s : PushSession F) : Prop := {
  running_control : control s = ControlRunning;
  running_callback : unregisterFunc s = true;
  running_log : unregistrations (log s) = 0%nat;
  running_stopRead : stopRead s = 0%nat;
  running_stopWrite : stopWrite s = 0%nat;
  running_socket : socketOpen s = true;
}.

(** The control loop has returned, and its deferred function ran. The
    signal it sent on [stopRead] is in the channel, unless the read
    loop took it and returned; and so for [stopWrite] and the write
    loop. *)
Record returned {F} (s : PushSession F) : Prop := {
  returned_control : control s = ControlReturned;
  returned_log : unregistrations (log s) = 1%nat;
  returned_actions : exists before after, log s = (before ++ shutdownActions ++ after)%list;
  returned_socket : socketOpen s = false;
  returned_finder : processorFinder s = false;
  returned_push : pushEventsFunc s = false;
  returned_callback : unregisterFunc s = false;
  returned_stopRead :
    stopRead s = 1%nat \/ (stopRead s = 0%nat /\ reader s = ReaderReturned);
  returned_stopWrite :
    stopWrite s = 1%nat \/ (stopWrite s = 0%nat /\ writer s = WriterReturned);
}.

(** In [s] the control loop takes a signal on [stopAll] and returns,
    which gives [s']: its deferred function has put one signal on
    [stopRead] and one on [stopWrite], called the callback, for the
    first time, closed the socket and cleared the callbacks, in that
    order. *)
Definition halts {F} `{PushFilter F} `{Dispatchers} (s s' : PushSession F) : Prop :=
  step ControlStopAll s = Some s' /\
  control s' = ControlReturned /\
  log s' = (log s ++ shutdownActions)%list /\
  unregistrations (log s) = 0%nat /\ unregistrations (log s') = 1%nat /\
  stopRead s' = S (stopRead s) /\ stopRead s' = 1%nat /\
  stopWrite s' = S (stopWrite s) /\ stopWrite s' = 1%nat /\
  socketOpen s' = false /\
  processorFinder s' = false /\ pushEventsFunc s' = false /\ unregisterFunc s' = false.

(** Whether the write loop, holding [e], finds it filtered out. *)
Definition filteredOut {F} `{PushFilter F} (s : PushSession F) (e : Event) : bool :=
  match currentFilter s with
  | Some f => IsFilteredOut f (Identity e) (EventType e)
  | None => false
  end.

(** The events that callers of [DirectPush] hand to the write loop in a
    run, and the events of the frames in a log, both in order. *)
Definition pushed {F} (moves : list (move F)) : list Event :=
  omap (fun m => match m with EventsSend e => Some e | _ => None end) moves.

Definition delivered (l : list action) : list Event :=
  omap (fun a => match a with ASend (EventFrame e) _ => Some e | _ => None end) l.

(** The events that other callers send on [s.events] in the turns. *)
Definition others {F} (turns : list (turn F)) : list Event :=
  omap (fun t => match t with SessionTurn (EventsSend e) => Some e | _ => None end) turns.

(** The event that the write loop holds, if any. *)
Definition held {F} (s : PushSession F) : list Event :=
  match writer s with
  | WriterHolds e => [e]
  | _ => []
  end.

End Vocabulary.

(** ** Instances to run the definitions on *)

Module Demo.

Import Push.

(** A randomizer that counts: the n-th draw is [n] modulo the bound. *)
#[export] Instance counting : Randomizer Z := {| Intn r n := (r mod n, r + 1) |}.

Lemma counting_range : RandomizerSpec Z.
Proof. constructor. intros r n Hn. simpl. apply Z.mod_pos_bound, Hn. Qed.
#[export] Existing Instance counting_range.

#[export] Instance first_two : Picker Z := {| pick r l := ((0%nat, 1%nat), r) |}.

(** The identity of a path is the path without its leading slash. *)
#[export] Instance plain_paths : PathHelpers :=
  {| getTargetIdentity path :=
       match path with
       | String "/" rest => rest
       | _ => path
       end |}.

Definition configuration (required : list string) (override : string)
  : upstreamConfig Z :=
  {| randomizer := 7; requiredServices := required; feedbackLoopSamples := 5;
     overrideEndpointAddress := override; exposePrivateAPIs := false;
     eventsAPIs := []; serviceTimeout := 20000000000 |}.

Definition window (x : float) : MovingAverage.t :=
  {| MovingAverage.capacity := 5; MovingAverage.samples := [x; x; x; x; x];
     MovingAverage.next := 0 |}.

Definition A : endpointInfo := {| address := "10.1.0.1:443"; lastLoad := 0.5 |}.
Definition B : endpointInfo := {| address := "10.1.0.2:443"; lastLoad := 0.25 |}.

(** Two endpoints serve [objects], with averages of 100 and 900
    microseconds; one endpoint serves [tasks]. *)
Definition gateway : Upstreamer Z :=
  {| apis := {[ "objects" := [A; B]; "tasks" := [B] ]};
     config := configuration [] "";
     feedbackLoop := {[ address A := window 100; address B := window 900 ]} |}.

(** Two endpoints serve [objects], each with a last load of 1e19 and
    no sample yet. *)
Definition overloaded : Upstreamer Z :=
  {| apis := {[ "objects" := [ {| address := "10.1.0.1:443"; lastLoad := 1e19 |};
                               {| address := "10.1.0.2:443"; lastLoad := 1e19 |} ] ]};
     config := configuration [] ""; feedbackLoop := ∅ |}.

(** A registry that keeps the pings it was given, latest first. *)
#[export] Instance journal : Registry (list ping) :=
  {| handleAddServicePing sv sp := (true, sp :: sv);
     handleRemoveServicePing sv sp := (false, sv);
     outdatedEndpoints sv since := [];
     resyncRoutes sv expose events := ∅ |}.

Definition hello (name endpoint : string) : ping :=
  {| Name := name; Endpoint := endpoint; Status := serviceStatusHello;
     Routes := []; PrivateRoutes := []; EventRoutes := []; Load := 0.5 |}.

(** An upstreamer that has seen no service, and one that waits for the
    required services given. *)
Definition idle : Upstreamer Z :=
  {| apis := ∅; config := configuration [] ""; feedbackLoop := ∅ |}.

Definition waiting (required : list string) : Upstreamer Z :=
  {| apis := ∅; config := configuration required ""; feedbackLoop := ∅ |}.

End Demo.

(** ** Sessions to run the definitions on *)

Module DemoSession.

Import Session.

(** A filter that takes out the identities it lists. *)
#[export] Instance listed : PushFilter (list string) :=
  {| IsFilteredOut f identity eventType := bool_decide (identity ∈ f);
     Duplicate f := f |}.

Lemma listed_spec : PushFilterSpec (list string).
Proof. constructor. reflexivity. Qed.
#[export] Existing Instance listed_spec.

Definition created : Context := {| StatusCode := 201; OutputData := "{}" |}.

(** Dispatchers that succeed, but for a creation whose data is [boom],
    which panics, and one whose data is [nil], which panics with nil. *)
#[export] Instance fragile : Dispatchers :=
  {| dispatchRetrieveManyOperation request finder := DispatchReturns created None;
     dispatchRetrieveOperation request finder := DispatchReturns created None;
     dispatchCreateOperation request finder push :=
       if String.eqb (Data request) "boom"
       then DispatchPanics (Some "runtime error: boom")
       else if String.eqb (Data request) "nil" then DispatchPanics None
            else DispatchReturns created None;
     dispatchUpdateOperation request finder push := DispatchReturns created None;
     dispatchDeleteOperation request finder push := DispatchReturns created None;
     dispatchInfoOperation request finder := DispatchReturns created None;
     dispatchPatchOperation request finder push := DispatchReturns created None |}.

Definition event (identity : string) (timestamp : Z) : Event :=
  {| Identity := identity; EventType := "create"; Timestamp := timestamp; Entity := "{}" |}.

Definition request (id operation data : string) : Request :=
  {| RequestID := id; Operation := operation; Username := ""; Password := "";
     Data := data |}.

(** An event session and an API session, started at instant 100. *)
Definition subscriber : PushSession (list string) := listen (newPushSession ∅ 100 true).
Definition client : PushSession (list string) := listen (newAPISession ∅ 100 true true true).

(** The state a run ends in; the initial state when a move was not
    possible. *)
Definition after (moves : list (move (list string))) (s : PushSession (list string))
  : PushSession (list string) :=
  default s (run moves s).

End DemoSession.

(** ** The health check ([RetrieveHealthStatus] in [config.go]) *)

Module Health.

Definition PingStatusOK : string := "ok".
Definition PingStatusTimeout : string := "timeout".
Definition PingStatusError : string := "error".

(** A [Pinger]: what its [Ping] returns for a timeout, nil being [None]
    and an error being its message. *)
Definition Pinger : Type := Z -> option string.

(** [stringifyStatus], lines 618-630. *)
Definition stringifyStatus (err : option string) : string :=
  match err with
  | None => PingStatusOK
  | Some errMsg =>
      if String.eqb errMsg PingStatusTimeout then PingStatusTimeout else PingStatusError
  end.

(** [RetrieveHealthStatus], lines 595-615. Every pinger has a goroutine,
    which stores its status in [results] under the mutex; [finished] are
    the entries of [pingers] in the order in which the goroutines take
    the mutex. [wg.Wait] returns after the last of them. *)
Definition RetrieveHealthStatus (timeout : Z) (finished : list (string * Pinger))
  : gmap string string :=
  fold_left
    (fun results '(name, pinger) => <[name := stringifyStatus (pinger timeout)]> results)
    finished ∅.

End Health.

(** ** The context of an operation and the HTTP responses ([context.go]) *)

Module Rest.

(** [strconv.Itoa]. *)
Definition Itoa (n : Z) : string := NilZero.string_of_int (Z.to_int n).

(** An [http.ResponseWriter]: its header map, and what [WriteHeader] and
    [Write] were called with, in order. [Header().Set] replaces the
    values of a key by one value; the keys below are in canonical
    form. *)
Inductive call : Type :=
| CallWriteHeader (code : Z)
| CallWrite (data : string).

Record ResponseWriter : Type := {
  Header : gmap string (list string);
  calls : list call;
}.

Definition HeaderSet (key value : string) (w : ResponseWriter) : ResponseWriter :=
  {| Header := <[key := [value]]> (Header w); calls := calls w |}.

Definition WriteHeader (code : Z) (w : ResponseWriter) : ResponseWriter :=
  {| Header := Header w; calls := calls w ++ [CallWriteHeader code] |}.

Definition Write (data : string) (w : ResponseWriter) : ResponseWriter :=
  {| Header := Header w; calls := calls w ++ [CallWrite data] |}.

(** [setCommonHeader], lines 22-34. *)
Definition setCommonHeader (w : ResponseWriter) (origin : string) : ResponseWriter :=
  let origin := if String.eqb origin "" then "*" else origin in
  let w := HeaderSet "Content-Type" "application/json; charset=UTF-8" w in
  let w := HeaderSet "Access-Control-Allow-Origin" origin w in
  let w := HeaderSet "Access-Control-Expose-Headers" "X-Requested-With, X-Count-Local, X-Count-Total, X-PageCurrent, X-Page-Size, X-Page-Prev, X-Page-Next, X-Page-First, X-Page-Last, X-Namespace" w in
  let w := HeaderSet "Access-Control-Allow-Methods" "GET, POST, PUT, DELETE, PATCH, HEAD, OPTIONS" w in
  let w := HeaderSet "Access-Control-Allow-Headers" "Authorization, Content-Type, Cache-Control, If-Modified-Since, X-Requested-With, X-Count-Local, X-Count-Total, X-PageCurrent, X-Page-Size, X-Page-Prev, X-Page-Next, X-Page-First, X-Page-Last, X-Namespace" w in
  HeaderSet "Access-Control-Allow-Credentials" "true" w.

(** A Go [error] as [WriteHTTPError] tells them apart: an
    [elemental.Error], an [elemental.Errors], or any other error with its
    message. *)
Inductive error : Type :=
| AnError (e : Session.Error)
| SomeErrors (es : list Session.Error)
| OtherError (msg : string).

(** [elemental.Errors.Code] and the JSON encoding of an
    [elemental.Errors], of a package that is not among the sources; an
    encoding is the data, or the message of the failure. *)
Class Elemental : Type := {
  ErrorsCode : list Session.Error -> Z;
  EncodeErrors : list Session.Error -> string + string;
}.

(** The code of the errors made of one error is the code of that
    error. *)
Class ElementalSpec `{Elemental} : Prop := {
  ErrorsCode_one : forall e : Session.Error, ErrorsCode [e] = Session.Code e;
}.

(** [WriteHTTPError], lines 39-62. A failure of the encoding is only
    logged, as is one of the write. *)
Definition WriteHTTPError `{Elemental} (w : ResponseWriter) (origin : string) (err : error)
  : ResponseWriter :=
  let outError :=
    match err with
    | AnError e => [e]
    | SomeErrors e => e
    | OtherError msg =>
        [Session.NewError "Internal Server Error" msg "bahamut"
           Session.StatusInternalServerError]
    end in
  let w := setCommonHeader w origin in
  let w := WriteHeader (ErrorsCode outError) w in
  match EncodeErrors outError with
  | inr data => Write data w
  | inl e => w
  end.

(** The fields of [Info], [Page] and [Count] that [WriteResponse]
    reads. *)
Module Info.
Record t : Type := {
  Headers : gmap string (list string);
  BaseRawURL : string;
  Parameters : gmap string (list string);
}.
End Info.

Module Page.
Record t : Type := {
  Current : Z;
  Size : Z;
  First : string;
  Last : string;
  Prev : string;
  Next : string;
}.
End Page.

Module Count.
Record t : Type := {
  Current : Z;
  Total : Z;
}.
End Count.

(** [Context], lines 70-101, without [InputData] and [UserInfo]; [D] is
    the type of the output data, and nil is [None]. *)
Record Context (D : Type) : Type := {
  Info : Info.t;
  Page : Page.t;
  Count : Count.t;
  OutputData : option D;
  StatusCode : Z;
  Operation : string;
  id : string;
  events : list Session.Event;
}.
Arguments Info {D} _.
Arguments Page {D} _.
Arguments Count {D} _.
Arguments OutputData {D} _.
Arguments StatusCode {D} _.
Arguments Operation {D} _.
Arguments id {D} _.
Arguments events {D} _.

Definition set_StatusCode {D} (v : Z) (c : Context D) : Context D :=
  {| Info := Info c; Page := Page c; Count := Count c; OutputData := OutputData c;
     StatusCode := v; Operation := Operation c; id := id c; events := events c |}.

Definition set_Page {D} (v : Page.t) (c : Context D) : Context D :=
  {| Info := Info c; Page := v; Count := Count c; OutputData := OutputData c;
     StatusCode := StatusCode c; Operation := Operation c; id := id c; events := events c |}.

Definition set_events {D} (v : list Session.Event) (c : Context D) : Context D :=
  {| Info := Info c; Page := Page c; Count := Count c; OutputData := OutputData c;
     StatusCode := StatusCode c; Operation := Operation c; id := id c; events := v |}.

(** [NewContext], lines 106-117, given what [newInfo], [newPage],
    [newCount] and the generator of identifiers return. *)
Definition NewContext {D} (info : Info.t) (page : Page.t) (count : Count.t) (uuid : string)
    (operation : string) : Context D :=
  {| Info := info; Page := page; Count := count; OutputData := None; StatusCode := 0;
     Operation := operation; id := uuid; events := [] |}.

(** [Identifier], [EnqueueEvents], [SetEvents], [HasEvents] and [Events],
    lines 129-163. *)
Definition Identifier {D} (c : Context D) : string := id c.

Definition EnqueueEvents {D} (evts : list Session.Event) (c : Context D) : Context D :=
  set_events (events c ++ evts) c.

Definition SetEvents {D} (evts : list Session.Event) (c : Context D) : Context D :=
  set_events evts c.

Definition HasEvents {D} (c : Context D) : bool := (0 <? length (events c))%nat.

Definition Events {D} (c : Context D) : list Session.Event := events c.

(** [Page.compute], of a file that is not among the sources, and the JSON
    encoding of the output data: the data, or the message of the
    failure. *)
Class Paging : Type := {
  compute : Page.t -> string -> gmap string (list string) -> Z -> Page.t;
}.

Class Encoder (D : Type) : Type := {
  Encode : D -> string + string;
}.

Definition StatusOK : Z := 200.
Definition StatusCreated : Z := 201.
Definition StatusNoContent : Z := 204.

(** [WriteResponse], lines 168-221: the error returned, then the context
    and the writer as the call leaves them. [failing] is what [Write]
    returns when it is called; [io.Copy] of an empty buffer does not
    call it. *)
Definition WriteResponse {D} `{Paging} `{Encoder D} (c : Context D) (w : ResponseWriter)
    (failing : option string) : option string * Context D * ResponseWriter :=
  let w := setCommonHeader w (Session.Get (Info.Headers (Info c)) "Origin") in
  let c :=
    if StatusCode c =? 0 then
      if String.eqb (Operation c) Session.OperationCreate then set_StatusCode StatusCreated c
      else if String.eqb (Operation c) Session.OperationInfo
           then set_StatusCode StatusNoContent c
           else set_StatusCode StatusOK c
    else c in
  let '(c, w) :=
    if String.eqb (Operation c) Session.OperationRetrieveMany
       || String.eqb (Operation c) Session.OperationInfo
    then
      let c :=
        set_Page (compute (Page c) (Info.BaseRawURL (Info c)) (Info.Parameters (Info c))
                    (Count.Total (Count c))) c in
      let w := HeaderSet "X-Page-Current" (Itoa (Page.Current (Page c))) w in
      let w := HeaderSet "X-Page-Size" (Itoa (Page.Size (Page c))) w in
      let w := HeaderSet "X-Page-First" (Page.First (Page c)) w in
      let w := HeaderSet "X-Page-Last" (Page.Last (Page c)) w in
      let w :=
        if String.eqb (Page.Prev (Page c)) "" then w
        else HeaderSet "X-Page-Prev" (Page.Prev (Page c)) w in
      let w :=
        if String.eqb (Page.Next (Page c)) "" then w
        else HeaderSet "X-Page-Next" (Page.Next (Page c)) w in
      let w := HeaderSet "X-Count-Local" (Itoa (Count.Current (Count c))) w in
      let w := HeaderSet "X-Count-Total" (Itoa (Count.Total (Count c))) w in
      (c, w)
    else (c, w) in
  let encoded :=
    match OutputData c with
    | Some data => Encode data
    | None => inr ""
    end in
  match encoded with
  | inl err => (Some err, c, w)
  | inr buffer =>
      let w := WriteHeader (StatusCode c) w in
      if String.eqb buffer "" then (None, c, w) else (failing, c, Write buffer w)
  end.

End Rest.

(** ** The Kafka publisher ([pubsub/kafka.go]) *)

Module Kafka.

Record Publication : Type := {
  Topic : string;
  data : string;
}.

(** What the producers were asked to do, in order. *)
Inductive action (P : Type) : Type :=
| Sent (producer : P) (topic : string) (value : string)
| Closed (producer : P).
Arguments Sent {P} producer topic value.
Arguments Closed {P} producer.

(** [kafkaPubSub], lines 12-16, with the actions of its producers; [P]
    is [sarama.SyncProducer], and a nil producer is [None]. *)
Record kafkaPubSub (P : Type) : Type := {
  services : list string;
  producer : option P;
  retryInterval : Z;
  log : list (action P);
}.
Arguments services {P} _.
Arguments producer {P} _.
Arguments retryInterval {P} _.
Arguments log {P} _.

Definition Second : Z := 1000000000.

(** [newKafkaPubSub], lines 19-25. *)
Definition newKafkaPubSub {P} (services : list string) : kafkaPubSub P :=
  {| services := services; producer := None; retryInterval := 5 * Second; log := [] |}.

(** [Publish], lines 28-44; [failing] is the error that [SendMessage]
    returns when it is called. *)
Definition Publish {P} (p : kafkaPubSub P) (publication : Publication)
    (failing : option string) : option string * kafkaPubSub P :=
  match producer p with
  | None => (Some "Not connected to kafka. Messages dropped.", p)
  | Some prod =>
      (failing,
       {| services := services p; producer := producer p;
          retryInterval := retryInterval p;
          log := log p ++ [Sent prod (Topic publication) (data publication)] |})
  end.

(** What an iteration of the loop of [Connect] meets: a producer, or an
    error followed by the timer or by the abort. *)
Inductive attempt (P : Type) : Type :=
| Created (prod : P)
| Failed (aborted : bool).
Arguments Created {P} prod.
Arguments Failed {P} aborted.

(** The goroutine of [Connect], lines 110-132: the receiver as the
    goroutine leaves it, with what it sends on [connected]; [None] when
    it is still retrying after the attempts given. *)
Fixpoint Connect {P} (p : kafkaPubSub P) (attempts : list (attempt P))
  : kafkaPubSub P * option bool :=
  match producer p with
  | Some _ => (p, Some true)
  | None =>
      match attempts with
      | [] => (p, None)
      | Created prod :: _ =>
          ({| services := services p; producer := Some prod;
              retryInterval := retryInterval p; log := log p |}, Some true)
      | Failed false :: rest => Connect p rest
      | Failed true :: _ => (p, Some false)
      end
  end.

(** [Disconnect], lines 142-148. *)
Definition Disconnect {P} (p : kafkaPubSub P) : kafkaPubSub P :=
  match producer p with
  | Some prod =>
      {| services := services p; producer := None; retryInterval := retryInterval p;
         log := log p ++ [Closed prod] |}
  | None => p
  end.

(** What the goroutine of [Subscribe] does on the channel [c]. *)
Inductive delivery : Type :=
| Forwarded (publication : Publication)
| ChannelClosed.

(** The second loop of the goroutine of [Subscribe], lines 88-97, over
    what its [select] receives in turn: a message with its value, or
    [None] for the unsubscription. A send on [c] waits for the
    subscriber; the deferred [close(c)] runs when the goroutine
    returns. *)
Fixpoint forward (topic : string) (received : list (option string)) : list delivery :=
  match received with
  | [] => []
  | Some value :: rest => Forwarded {| Topic := topic; data := value |} :: forward topic rest
  | None :: _ => [ChannelClosed]
  end.

(** The goroutine of [Subscribe], lines 51-98: the first loop meets a
    consumer with its partition, or an error followed by the timer or by
    the unsubscription. *)
Fixpoint Subscribe {C} (topic : string) (attempts : list (attempt C))
    (received : list (option string)) : list delivery :=
  match attempts with
  | [] => []
  | Created _ :: _ => forward topic received
  | Failed false :: rest => Subscribe topic rest received
  | Failed true :: _ => [ChannelClosed]
  end.

End Kafka.

(** ** The models of the tests ([List] and [Task] in [config.go]) *)

Module Models.

(** The validators of [elemental], a package that is not among the
    sources: the error, or [None] for nil. *)
Class Validators : Type := {
  ValidateRequiredString : string -> string -> option Session.Error;
  ValidateStringInList : string -> string -> list string -> bool -> option Session.Error;
}.

(** A required string is a string that is not empty; a string is in a
    list when it is one of its entries, or when it is empty and the
    attribute is autogenerated. *)
Class ValidatorsSpec `{Validators} : Prop := {
  ValidateRequiredString_nil :
    forall attribute value : string,
      ValidateRequiredString attribute value = None <-> value <> "";
  ValidateStringInList_nil :
    forall (attribute value : string) (enums : list string) (autogenerated : bool),
      ValidateStringInList attribute value enums autogenerated = None <->
      value ∈ enums \/ (autogenerated = true /\ value = "");
}.

Module List.
Record t : Type := {
  ID : string;
  CreationOnly : string;
  Description : string;
  Name : string;
  ParentID : string;
  ParentType : string;
  ReadOnly : string;
}.
End List.

(** [NewList], lines 670-673. *)
Definition NewList : List.t :=
  {| List.ID := ""; List.CreationOnly := ""; List.Description := ""; List.Name := "";
     List.ParentID := ""; List.ParentType := ""; List.ReadOnly := "" |}.

(** [errors = append(errors, err)] when [err] is not nil. *)
Definition appendError (errors : list Session.Error) (err : option Session.Error)
  : list Session.Error :=
  match err with
  | Some err => errors ++ [err]
  | None => errors
  end.

(** [len(errors) > 0], then the errors or nil. *)
Definition errorsOrNil (errors : list Session.Error) : option (list Session.Error) :=
  if (0 <? length errors)%nat then Some errors else None.

(** [List.Validate], lines 719-740. *)
Definition ValidateList `{Validators} (o : List.t) : option (list Session.Error) :=
  let errors := [] in
  let errors := appendError errors (ValidateRequiredString "creationOnly" (List.CreationOnly o)) in
  let errors := appendError errors (ValidateRequiredString "name" (List.Name o)) in
  let errors := appendError errors (ValidateRequiredString "readOnly" (List.ReadOnly o)) in
  errorsOrNil errors.

Module Task.
Record t : Type := {
  ID : string;
  Description : string;
  Name : string;
  ParentID : string;
  ParentType : string;
  Status : string;
}.
End Task.

Definition TaskStatusDone : string := "DONE".
Definition TaskStatusProgress : string := "PROGRESS".
Definition TaskStatusTodo : string := "TODO".

(** [NewTask], lines 887-892. *)
Definition NewTask : Task.t :=
  {| Task.ID := ""; Task.Description := ""; Task.Name := ""; Task.ParentID := "";
     Task.ParentType := ""; Task.Status := "TODO" |}.

(** [Task.Validate], lines 918-935. *)
Definition ValidateTask `{Validators} (o : Task.t) : option (list Session.Error) :=
  let errors := [] in
  let errors := appendError errors (ValidateRequiredString "name" (Task.Name o)) in
  let errors :=
    appendError errors
      (ValidateStringInList "status" (Task.Status o) ["DONE"; "PROGRESS"; "TODO"] false) in
  errorsOrNil errors.

End Models.

(** ** More vocabulary of the properties *)

Module Observations.

Import Push Session Vocabulary.

(** The ping that the tick makes of an outdated endpoint, and the body
    of its two loops, lines 169-172. *)
Definition outdatedPing (name ep : string) : ping :=
  {| Name := name; Endpoint := ep; Status := serviceStatusOther "";
     Routes := []; PrivateRoutes := []; EventRoutes := []; Load := 0%float |}.

Definition tickBody {Sv} `{Registry Sv}
  : bool * Sv * gmap string MovingAverage.t -> string * string ->
    bool * Sv * gmap string MovingAverage.t :=
  fun '(found, sv, fl) '(name, ep) =>
    let '(found, sv) :=
      if found : bool then (true, sv)
      else handleRemoveServicePing sv (outdatedPing name ep) in
    (found, sv, delete ep fl).

(** The loop has not panicked, and has closed [ready] once at most. *)
Definition sound {R Sv} (st : listener R Sv) : Prop :=
  status st <> Panicked /\ (readyCloses st <= 1)%nat.

(** The configuration is kept and the feedback loop only loses
    entries. *)
Definition forgetful {R} (c c' : Upstreamer R) : Prop :=
  config c' = config c /\ feedbackLoop c' ⊆ feedbackLoop c.

(** The requests that the peer sends in a run, and the requests of the
    response and error frames in a log, both in order. *)
Definition asked {F} (moves : list (move F)) : list Request :=
  omap (fun m => match m with SocketReceive (ReceivedRequest r) => Some r | _ => None end)
    moves.

Definition answered (l : list action) : list Request :=
  omap (fun a => match a with
                 | ASend (ResponseFrame response _) _ | ASend (ErrorFrame response _) _ =>
                     Some (ResponseRequest response)
                 | _ => None
                 end) l.

(** The request that a handler gets for the request [r] of a session
    whose token is [t]. *)
Definition backported (t : string) (r : Request) : Request :=
  if String.eqb t "" then r
  else {| RequestID := RequestID r; Operation := Operation r;
          Username := "Bearer"; Password := t; Data := Data r |}.

Definition dispatchable (r : Request) : bool :=
  bool_decide (Operation r ∈ knownOperations).

(** The request that the read loop holds, if any. *)
Definition heldRequest {F} (s : PushSession F) : list Request :=
  match reader s with
  | ReaderHoldsRequest r => [r]
  | _ => []
  end.

(** The requests of a session that are not answered yet, as their
    handlers get or will get them: those of the operations started, of
    the queue and of the read loop. *)
Definition pending {F} (s : PushSession F) : list Request :=
  let t := Get (Parameters s) "token" in
  (snd <$> operations s) ++ (backported t <$> List.filter dispatchable (requests s))
    ++ (backported t <$> List.filter dispatchable (heldRequest s)).

(** What follows the first closing of the socket in a log. *)
Fixpoint afterClose (l : list action) : list action :=
  match l with
  | [] => []
  | ASocketClose :: rest => rest
  | _ :: rest => afterClose rest
  end.

Definition closings (l : list action) : nat :=
  length (List.filter (fun a => match a with ASocketClose => true | _ => false end) l).

Definition undelivered (a : action) : Prop :=
  match a with
  | ASend _ true => False
  | _ => True
  end.

(** The log of a session whose socket is open records no closing, and
    nothing is delivered after a closing. *)
Definition sealed {F} (s : PushSession F) : Prop :=
  (socketOpen s = true -> closings (log s) = 0%nat) /\
  Forall undelivered (afterClose (log s)).

(** What an event session keeps: it holds no request, and its log has
    event frames only. *)
Definition pushing {F} (s : PushSession F) : Prop :=
  sType s = pushSessionTypeEvent /\ requests s = [] /\ operations s = [] /\
  heldRequest s = [] /\ frames (log s) = EventFrame <$> delivered (log s).

(** What an API session keeps: no filter reaches it. *)
Definition unfiltered {F} (s : PushSession F) : Prop :=
  sType s = pushSessionTypeAPI /\ filters s = [] /\ filter s = None /\
  forall f, reader s <> ReaderHoldsFilter f.

(** The status that [WriteResponse] writes for a context, the operations
    whose response carries the pagination, and the origin allowed. *)
Definition statusFor {D} (c : Rest.Context D) : Z :=
  if Rest.StatusCode c =? 0 then
    if String.eqb (Rest.Operation c) OperationCreate then 201
    else if String.eqb (Rest.Operation c) OperationInfo then 204
    else 200
  else Rest.StatusCode c.

Definition paged (operation : string) : bool :=
  String.eqb operation OperationRetrieveMany || String.eqb operation OperationInfo.

Definition allowedOrigin (origin : string) : string :=
  if String.eqb origin "" then "*" else origin.

End Observations.

(** ** More instances to run the definitions on *)

Module DemoMore.

Import Push.

(** A registry that lists its endpoints by service name and address, and
    holds every one of them outdated. *)
#[export] Instance roster : Registry (list (string * string)) :=
  {| handleAddServicePing sv sp :=
       if bool_decide ((Name sp, Endpoint sp) ∈ sv) then (false, sv)
       else (true, sv ++ [(Name sp, Endpoint sp)]);
     handleRemoveServicePing sv sp :=
       if bool_decide ((Name sp, Endpoint sp) ∈ sv)
       then (true, List.filter (fun e => negb (bool_decide (e = (Name sp, Endpoint sp)))) sv)
       else (false, sv);
     outdatedEndpoints sv since := sv;
     resyncRoutes sv expose events :=
       list_to_map
         ((fun e : string * string => (fst e, [ {| address := snd e; lastLoad := 0 |} ]))
            <$> sv) |}.

(** An API session whose peer gave a token. *)
Definition bearer : Session.PushSession (list string) :=
  Session.listen (Session.newAPISession {[ "token" := ["secret"] ]} 100 true true true).

(** Three pingers: one is well, one times out, one fails. *)
Definition pingers : gmap string Health.Pinger :=
  {[ "database" := (fun _ : Z => None);
     "cache" := (fun _ : Z => Some "timeout");
     "queue" := (fun _ : Z => Some "connection refused") ]}.

(** The errors of [elemental] have the code of their first error, and
    are encoded as their titles. *)
#[export] Instance titles : Rest.Elemental :=
  {| Rest.ErrorsCode es :=
       match es with
       | e :: _ => Session.Code e
       | [] => -1
       end;
     Rest.EncodeErrors es := inr (String.concat "," (Session.Title <$> es)) |}.

Lemma titles_spec : Rest.ElementalSpec.
Proof. constructor. reflexivity. Qed.
#[export] Existing Instance titles_spec.

(** A writer on which nothing was written. *)
Definition blank : Rest.ResponseWriter := {| Rest.Header := ∅; Rest.calls := [] |}.

(** Validators that report the attribute. *)
#[export] Instance strict : Models.Validators :=
  {| Models.ValidateRequiredString attribute value :=
       if String.eqb value ""
       then Some (Session.NewError "Validation Error" attribute "elemental" 422)
       else None;
     Models.ValidateStringInList attribute value enums autogenerated :=
       if bool_decide (value ∈ enums) || (autogenerated && String.eqb value "")
       then None
       else Some (Session.NewError "Validation Error" attribute "elemental" 422) |}.

Lemma strict_spec : Models.ValidatorsSpec.
Proof.
constructor.
- intros attribute value. simpl. destruct (String.eqb_spec value ""); split; congruence.
- intros attribute value enums autogenerated. simpl.
  destruct (decide (value ∈ enums)) as [Hin|Hnot].
  + rewrite bool_decide_eq_true_2 by assumption. simpl. tauto.
  + rewrite bool_decide_eq_false_2 by assumption. simpl.
    destruct autogenerated, (String.eqb_spec value ""); simpl; split;
      try tauto; try discriminate; intros [?|[? ?]]; congruence.
Qed.
#[export] Existing Instance strict_spec.

End DemoMore.

(** * Properties *)

Import Vocabulary.

Example to_int_truncates :
  Float64.to_int 2.75 = Some 2 /\ Float64.to_int (-2.75) = Some (-2) /\
  Float64.to_int 1e19 = None /\ Float64.to_int nan = None.
Proof. vm_compute. auto. Qed.

Example of_int_small :
  Float64.of_int 3 = 3%float /\ Float64.of_int (-7) = (-7)%float /\
  Float64.of_int (2 ^ 53 + 1) = 9007199254740992%float /\
  Float64.of_int Float64.min_int = (-9223372036854775808)%float.
Proof. vm_compute. auto. Qed.

(** ** Facts about binary64 comparison *)

Section FloatFacts.

Lemma SFcompare_antisym (x y : spec_float) :
  SFcompare y x = option_map CompOpp (SFcompare x y).
Proof.
  destruct x as [sx|sx| |sx mx ex], y as [sy|sy| |sy my ey]; simpl;
    try reflexivity;
    try (destruct sx; reflexivity); try (destruct sy; reflexivity);
    try (destruct sx, sy; reflexivity).
  destruct sx, sy; simpl; try reflexivity;
    rewrite (Z.compare_antisym ex ey);
    destruct (ex ?= ey)%Z eqn:E; simpl; try reflexivity;
    change (Pos.compare_cont Eq my mx) with (my ?= mx)%positive;
    change (Pos.compare_cont Eq mx my) with (mx ?= my)%positive;
    rewrite (Pos.compare_antisym mx my);
    destruct (mx ?= my)%positive; reflexivity.
Qed.

Lemma is_nan_false_compare (x y : float) :
  Float64.is_nan x = false -> Float64.is_nan y = false ->
  SFcompare (Prim2SF x) (Prim2SF y) <> None.
Proof.
  unfold Float64.is_nan. rewrite !FloatAxioms.eqb_spec. unfold SFeqb.
  destruct (Prim2SF x), (Prim2SF y); simpl; congruence.
Qed.

(** Go's [!(a > b)] gives [a <= b] once neither side is NaN. *)
Lemma not_gt_le (a b : float) :
  Float64.is_nan a = false -> Float64.is_nan b = false ->
  (b <? a)%float = false -> (a <=? b)%float = true.
Proof.
  intros Ha Hb. pose proof (is_nan_false_compare a b Ha Hb) as Hc.
  rewrite FloatAxioms.ltb_spec, FloatAxioms.leb_spec. unfold SFltb, SFleb.
  rewrite (SFcompare_antisym (Prim2SF a) (Prim2SF b)).
  destruct (SFcompare (Prim2SF a) (Prim2SF b)) as [[]|]; simpl; congruence.
Qed.

Lemma gt_le (a b : float) : (b <? a)%float = true -> (b <=? a)%float = true.
Proof.
  rewrite FloatAxioms.ltb_spec, FloatAxioms.leb_spec. unfold SFltb, SFleb.
  destruct (SFcompare (Prim2SF b) (Prim2SF a)) as [[]|]; congruence.
Qed.

(** On a number that is not negative, [int(x)] is the floor of its value. *)
Lemma to_int_floor (x : float) (z : Z) :
  Float64.to_int x = Some z -> 0 <= z ->
  (0 <=? x)%float = true ->
  exists q, Float64.value x = Some q /\ Qfloor q = z.
Proof.
  unfold Float64.to_int, Float64.trunc, Float64.value.
  rewrite FloatAxioms.leb_spec. unfold SFleb.
  change (Prim2SF 0) with (S754_zero false).
  destruct (Prim2SF x) as [s|s| |s m e]; simpl; try discriminate.
  - intros [= <-] _ _. exists (0 # 1)%Q. split; reflexivity.
  - destruct s; simpl; [discriminate|].
    intros H _ _.
    destruct ((Float64.min_int <=? _) && _); [|discriminate].
    injection H as <-.
    destruct e as [|p|p]; eexists; split; try reflexivity.
    + simpl. apply Z.div_1_r.
    + rewrite Qfloor_Z. reflexivity.
    + unfold Qfloor. rewrite Z.shiftr_div_pow2 by lia.
      rewrite Pos2Z.inj_pow. reflexivity.
Qed.

Lemma digits2_log2 (m : positive) : Zpos (digits2_pos m) = Z.log2 (Zpos m) + 1.
Proof.
  induction m as [m IH|m IH|]; simpl digits2_pos.
  - rewrite Pos2Z.inj_succ, IH. change (Zpos m~1) with (2 * Zpos m + 1).
    rewrite Z.log2_succ_double by lia. lia.
  - rewrite Pos2Z.inj_succ, IH. change (Zpos m~0) with (2 * Zpos m).
    rewrite Z.log2_double by lia. lia.
  - reflexivity.
Qed.

Lemma shr_1_m (mrs : shr_record) :
  0 <= shr_m mrs -> shr_m (shr_1 mrs) = Z.div2 (shr_m mrs).
Proof.
  destruct mrs as [m r s]. simpl. destruct m as [|[p|p|]|p]; simpl; try reflexivity; lia.
Qed.

Lemma iter_shr_1_m (p : positive) : forall mrs : shr_record,
  0 <= shr_m mrs -> shr_m (SpecFloat.iter_pos shr_1 p mrs) = Z.shiftr (shr_m mrs) (Zpos p).
Proof.
  assert (Hd : forall mrs, 0 <= shr_m mrs -> 0 <= shr_m (shr_1 mrs)).
  { intros mrs H. rewrite shr_1_m by assumption. rewrite Z.div2_div. apply Z.div_pos; lia. }
  induction p as [p IH|p IH|]; intros mrs Hm; simpl SpecFloat.iter_pos.
  - rewrite IH, IH, shr_1_m by (try rewrite IH; try apply Z.shiftr_nonneg; auto).
    rewrite Z.div2_spec, !Z.shiftr_shiftr by lia. f_equal. lia.
  - rewrite IH, IH by (try rewrite IH; try apply Z.shiftr_nonneg; auto).
    rewrite !Z.shiftr_shiftr by lia. f_equal. lia.
  - rewrite shr_1_m by assumption. apply Z.div2_spec.
Qed.

Lemma shr_fexp_pos (m e : Z) (l : location) :
  0 < m -> -1074 <= e ->
  0 < shr_m (fst (shr_fexp prec emax m e l)) /\ -1074 <= snd (shr_fexp prec emax m e l).
Proof.
  intros Hm He. unfold shr_fexp, shr, fexp, emin.
  destruct m as [|m|m]; try lia. simpl Zdigits2.
  assert (Hrec : shr_m (shr_record_of_loc (Zpos m) l) = Zpos m).
  { destruct l as [|[]]; reflexivity. }
  destruct (Z.max (Zpos (digits2_pos m) + e - prec) (3 - emax - prec) - e) as [|n|n] eqn:En;
    simpl fst; simpl snd; rewrite ?Hrec; try (split; lia).
  rewrite iter_shr_1_m by (rewrite Hrec; lia). rewrite Hrec.
  rewrite digits2_log2 in En. unfold prec, emax in En.
  split; [|lia].
  rewrite Z.shiftr_div_pow2 by lia.
  apply Z.div_str_pos. split; [apply Z.pow_pos_nonneg; lia|].
  transitivity (2 ^ Z.log2 (Zpos m)).
  - apply Z.pow_le_mono_r; lia.
  - apply Z.log2_spec. lia.
Qed.

Lemma round_nearest_even_pos (m : Z) (l : location) : 0 < m -> 0 < round_nearest_even m l.
Proof. destruct l as [|[]]; simpl; try destruct (Z.even m); lia. Qed.

Lemma binary_round_aux_nonzero (sx : bool) (m e : Z) (l : location) :
  0 < m -> -1074 <= e ->
  forall s, binary_round_aux prec emax sx m e l <> S754_zero s.
Proof.
  intros Hm He s. unfold binary_round_aux.
  pose proof (shr_fexp_pos m e l Hm He) as [H1 H2].
  destruct (shr_fexp prec emax m e l) as [mrs' e']. simpl in H1, H2.
  pose proof (shr_fexp_pos _ e' loc_Exact
                (round_nearest_even_pos _ (loc_of_shr_record mrs') H1) H2) as [H3 _].
  destruct (shr_fexp prec emax _ e' loc_Exact) as [mrs'' e'']. simpl in H3.
  destruct (shr_m mrs''); try lia.
  destruct (e'' <=? emax - prec); discriminate.
Qed.

Lemma binary_normalize_nonzero (p : positive) (s : bool) :
  binary_normalize prec emax (Zpos p) 0 false <> S754_zero s.
Proof.
  unfold binary_normalize, binary_round.
  destruct (shl_align p 0 _) as [mz ez] eqn:E.
  apply binary_round_aux_nonzero; [lia|].
  unfold shl_align, fexp, emin in E.
  destruct (Z.max (Zpos (digits2_pos p) + 0 - prec) (3 - emax - prec) - 0) as [|n|n] eqn:En;
    injection E as <- <-; try lia.
  unfold prec, emax in *. lia.
Qed.

Lemma of_uint63_nonzero (n : Z) :
  0 < n < 2 ^ 63 -> (of_uint63 (Uint63.of_Z n) =? 0)%float = false.
Proof.
  intros Hn. rewrite FloatAxioms.eqb_spec, FloatAxioms.of_uint63_spec, Uint63.of_Z_spec.
  rewrite Z.mod_small by (change wB with (2 ^ 63); lia).
  destruct n as [|p|p]; try lia.
  pose proof (binary_normalize_nonzero p) as H.
  change (Prim2SF 0) with (S754_zero false). unfold SFeqb.
  destruct (binary_normalize prec emax (Zpos p) 0 false) as [s|s| |s m e];
    try reflexivity; [exfalso; apply (H s); reflexivity|..]; destruct s; reflexivity.
Qed.

Lemma of_int_eq_zero (n : Z) :
  Float64.min_int < n <= Float64.max_int ->
  (Float64.of_int n =? 0)%float = (n =? 0).
Proof.
  unfold Float64.of_int, Float64.min_int, Float64.max_int. intros Hn.
  destruct (Z.eqb_spec n (- 2 ^ 63)) as [->|_]; [lia|].
  destruct (Z.ltb_spec n 0) as [Hneg|Hpos].
  - destruct (Z.eqb_spec n 0) as [->|_]; [lia|].
    rewrite FloatAxioms.eqb_spec, FloatAxioms.opp_spec.
    pose proof (of_uint63_nonzero (- n) ltac:(lia)) as H.
    rewrite FloatAxioms.eqb_spec in H.
    change (Prim2SF 0) with (S754_zero false) in *. unfold SFeqb in *.
    destruct (Prim2SF (of_uint63 (of_Z (- n)))) as [s|s| |s m e]; simpl in *;
      try congruence; destruct s; simpl in *; congruence.
  - destruct (Z.eqb_spec n 0) as [->|Hnz]; [reflexivity|].
    apply of_uint63_nonzero. lia.
Qed.

Lemma SFcompare_refl (x : spec_float) : x <> S754_nan -> SFcompare x x = Some Eq.
Proof.
  destruct x as [s|s| |s m e]; simpl; try congruence; intros _.
  - destruct s; reflexivity.
  - rewrite Z.compare_refl.
    change (Pos.compare_cont Eq m m) with (m ?= m)%positive.
    rewrite Pos.compare_refl. destruct s; reflexivity.
Qed.

(** A sum that compares with zero has no NaN term. *)
Lemma sum_not_nan (a b : float) :
  (0 <=? a + b)%float = true -> Float64.is_nan a = false /\ Float64.is_nan b = false.
Proof.
  rewrite FloatAxioms.leb_spec, FloatAxioms.add_spec. unfold Float64.is_nan.
  rewrite !FloatAxioms.eqb_spec. unfold SFleb, SFeqb. intros H.
  assert (Prim2SF a <> S754_nan /\ Prim2SF b <> S754_nan) as [Ha Hb].
  { destruct (Prim2SF a), (Prim2SF b); simpl in H; split; congruence. }
  rewrite (SFcompare_refl _ Ha), (SFcompare_refl _ Hb). split; reflexivity.
Qed.

Lemma digits2_bound (m : positive) : (Zpos (digits2_pos m) <= 53) -> Zpos m < 2 ^ 53.
Proof.
  rewrite digits2_log2. intros H. apply Z.log2_lt_pow2; lia.
Qed.

(** No binary64 number truncates to the greatest [int]: adding one to
    [int(x)] does not wrap around. *)
Lemma to_int_below_max (x : float) (z : Z) :
  Float64.to_int x = Some z -> z < Float64.max_int.
Proof.
  unfold Float64.to_int, Float64.trunc.
  pose proof (Prim2SF_valid x) as V.
  destruct (Prim2SF x) as [s|s| |s m e]; try discriminate.
  - intros [= <-]. reflexivity.
  - simpl in V. unfold bounded, canonical_mantissa, fexp, emin in V.
    apply andb_true_iff in V as [V1 V2].
    apply Z.eqb_eq in V1. unfold prec, emax in V1.
    destruct (_ && _) eqn:Hr; [|discriminate]. intros [= <-].
    apply andb_true_iff in Hr as [_ Hr]. apply Z.leb_le in Hr.
    unfold Float64.max_int in *.
    destruct s; [| destruct e as [|k|k]].
    + assert (0 <= match e with
                   | Z.neg k => Z.shiftr (Z.pos m) (Z.pos k)
                   | _ => Z.shiftl (Z.pos m) e
                   end); [|lia].
      destruct e; [apply Z.shiftl_nonneg| apply Z.shiftl_nonneg | apply Z.shiftr_nonneg]; lia.
    + rewrite Z.shiftl_0_r in *. pose proof (digits2_bound m). lia.
    + assert (Hne : Z.shiftl (Z.pos m) (Z.pos k) <> 2 ^ 63 - 1); [|lia].
      intros Heq. apply (f_equal Z.even) in Heq.
      rewrite Z.shiftl_mul_pow2, Z.even_mul in Heq by lia.
      rewrite (Z.even_pow 2 (Z.pos k)) in Heq by lia.
      rewrite orb_true_r in Heq. discriminate.
    + pose proof (digits2_bound m ltac:(lia)).
      rewrite Z.shiftr_div_pow2 by lia.
      assert (Hp : 0 < 2 ^ Z.pos k) by (apply Z.pow_pos_nonneg; lia).
      assert (Z.pos m / 2 ^ Z.pos k <= Z.pos m); [|lia].
      apply Z.div_le_upper_bound; [exact Hp | nia].
Qed.

End FloatFacts.

(** ** [Upstream] *)

Section UpstreamProperties.

Import Push.

Context {R : Type} {rand : Randomizer R} {rand_spec : RandomizerSpec R}
  {picker : Picker R} {paths : PathHelpers}.

(** C6. When the route identity of the path has no endpoint in the
    route table, [Upstream] returns [("", 0.0)]; when it has exactly
    one, [Upstream] returns the address and the last load of that
    endpoint. Neither case draws from the randomizer. *)
Theorem Upstream_few_endpoints (c : Upstreamer R) (path : string) :
  let eps := default [] (apis c !! getTargetIdentity path) in
  (length eps <= 1)%nat ->
  Upstream c path =
    (Returns match eps with
             | [] => ("", 0%float)
             | ep :: _ => (address ep, lastLoad ep)
             end,
     randomizer (config c)).
Proof.
  intros eps Hlen. unfold Upstream. fold eps.
  destruct eps as [|ep [|ep' eps']]; simpl in *; try reflexivity; lia.
Qed.


End UpstreamProperties.

Section UpstreamWitnesses.

Import Push Demo.

Lemma Upstream_few_endpoints_witness :
  Upstream gateway "/tasks" = (Returns ("10.1.0.2:443", 0.25%float), 7) /\
  Upstream gateway "/nothing" = (Returns ("", 0%float), 7).
Proof.
  split.
  - rewrite (Upstream_few_endpoints gateway "/tasks") by (vm_compute; lia).
    vm_compute. reflexivity.
  - rewrite (Upstream_few_endpoints gateway "/nothing") by (vm_compute; lia).
    vm_compute. reflexivity.
Defined.


(** With a sum of weights that is negative: last loads of -3 make the
    bound of the draw negative, and [Intn] panics. *)
Example Upstream_negative_sum_panics :
  fst (Upstream
         {| apis := {[ "objects" := [ {| address := "10.1.0.1:443"; lastLoad := -3 |};
                                      {| address := "10.1.0.2:443"; lastLoad := -3 |} ] ]};
            config := configuration [] ""; feedbackLoop := ∅ |} "/objects")
    = Panics "invalid argument to Intn".
Proof. vm_compute. reflexivity. Qed.


End UpstreamWitnesses.

(** ** [Collect] and [measure] *)

Section CollectProperties.

Import Push MovingAverage.

Context {R : Type}.

Lemma Microseconds_zero (d : Z) : Microseconds d = 0 <-> -1000 < d < 1000.
Proof.
unfold Microseconds. Z.to_euclidean_division_equations. lia.
Qed.

Lemma Microseconds_fits (d : Z) :
  Float64.min_int <= d <= Float64.max_int ->
  Float64.min_int < Microseconds d <= Float64.max_int.
Proof.
unfold Microseconds, Float64.min_int, Float64.max_int. intros Hd.
Z.to_euclidean_division_equations. lia.
Qed.

Lemma measure_fresh (c : Upstreamer R) (address : string) (fl : gmap string MovingAverage.t)
    (n : nat) :
  measure (set_feedbackLoop (<[address := NewMovingAverage n]> fl) c) address = 0%float.
Proof.
unfold measure, set_feedbackLoop. simpl. rewrite lookup_insert_eq. reflexivity.
Qed.

(** C2, as the code has it. A duration of less than one microsecond in
    either direction, which is a duration whose count of whole
    microseconds is zero, leaves the feedback loop as it is. Any other
    duration, for an address with no entry, stores an empty moving
    average (so that [measure] of the address is still zero), and for an
    address that has an entry adds the count of microseconds to its
    moving average. Other addresses keep their entries. *)
Theorem Collect_whole_microseconds (c : Upstreamer R) (address : string) (elapsed : Z) :
  Float64.min_int <= elapsed <= Float64.max_int ->
  (-1000 < elapsed < 1000 -> Collect c address elapsed = c) /\
  (~ -1000 < elapsed < 1000 ->
   match feedbackLoop c !! address with
   | None =>
       Collect c address elapsed =
         set_feedbackLoop
           (<[address := NewMovingAverage (feedbackLoopSamples (config c))]> (feedbackLoop c)) c /\
       measure (Collect c address elapsed) address = 0%float
   | Some values =>
       Collect c address elapsed =
         set_feedbackLoop
           (<[address := Add (Float64.of_int (Microseconds elapsed)) values]> (feedbackLoop c)) c
   end).
Proof.
intros Hfit. pose proof (Microseconds_fits elapsed Hfit) as Hus.
pose proof (of_int_eq_zero _ Hus) as Hz.
pose proof (Microseconds_zero elapsed) as Hm.
unfold Collect. rewrite Hz. split; intros Hd.
- apply Hm in Hd. rewrite Hd. reflexivity.
- destruct (Z.eqb_spec (Microseconds elapsed) 0) as [E|_]; [tauto|].
  destruct (feedbackLoop c !! address); [reflexivity|].
  split; [reflexivity|]. apply measure_fresh.
Qed.

End CollectProperties.

Section CollectWitnesses.

Import Push MovingAverage Demo.

(** The first sample of 1500ns stores an empty average; the second is
    added to it as one microsecond. *)
Lemma Collect_whole_microseconds_witness :
  feedbackLoop (Collect idle "10.1.0.1:443" 1500) = {[ "10.1.0.1:443" := NewMovingAverage 5 ]} /\
  measure (Collect idle "10.1.0.1:443" 1500) "10.1.0.1:443" = 0%float /\
  measure (Collect (Collect idle "10.1.0.1:443" 1500) "10.1.0.1:443" 1500) "10.1.0.1:443"
    = 1%float.
Proof.
destruct (Collect_whole_microseconds idle "10.1.0.1:443" 1500) as [_ T].
{ vm_compute. split; discriminate. }
specialize (T ltac:(lia)). simpl in T. destruct T as [T1 T2].
split; [rewrite T1; reflexivity|]. split; [exact T2|].
vm_compute. reflexivity.
Defined.

(** C2 as it is stated fails: half a microsecond is a duration that is
    not zero, and [Collect] stores nothing for it. *)
Lemma Collect_nonzero_elapsed_ignored :
  ~ (forall (c : Upstreamer Z) (address : string) (elapsed : Z),
       elapsed <> 0 ->
       feedbackLoop c !! address = None ->
       feedbackLoop (Collect c address elapsed) !! address
         = Some (NewMovingAverage (feedbackLoopSamples (config c)))).
Proof.
intros claim.
specialize (claim idle "10.1.0.1:443" 500 ltac:(lia) eq_refl).
vm_compute in claim. discriminate.
Qed.

End CollectWitnesses.

(** ** [listenService]: the endpoint override *)

Section OverrideProperties.

Import Push.

Context {R Sv : Type} {registry : Registry Sv}.

(** C9. With [overrideEndpointAddress] set, a ping whose endpoint splits
    into a host and a port is dispatched with the endpoint made of the
    override, a colon and that port; its other fields are kept, and
    [handlePing] receives the rewritten ping. *)
Theorem override_keeps_port (st : listener R Sv) (sp : ping) (host port : string) :
  overrideEndpointAddress (config (upstreamer st)) <> "" ->
  SplitHostPort (Endpoint sp) = inr (host, port) ->
  status st = Listening ->
  let sp' :=
    set_Endpoint (overrideEndpointAddress (config (upstreamer st)) ++ ":" ++ port)%string sp in
  overrideEndpoint (config (upstreamer st)) sp = sp' /\
  listenService_step (Publication (Some sp)) st = handlePing sp' st.
Proof.
intros Hov Hsplit Hst sp'.
assert (E : overrideEndpoint (config (upstreamer st)) sp = sp').
{ unfold overrideEndpoint. rewrite Hsplit.
  destruct (String.eqb_spec (overrideEndpointAddress (config (upstreamer st))) "");
    [contradiction|reflexivity]. }
split; [exact E|].
unfold listenService_step. rewrite Hst, E. reflexivity.
Qed.

(** A ping whose endpoint does not split into a host and a port is
    dispatched as it came (the test [err == nil] of line 193). *)
Lemma override_skips_unsplittable (cfg : upstreamConfig R) (sp : ping) (why : string) :
  SplitHostPort (Endpoint sp) = inl why -> overrideEndpoint cfg sp = sp.
Proof.
intros Hsplit. unfold overrideEndpoint. rewrite Hsplit.
destruct (String.eqb _ _); reflexivity.
Qed.

End OverrideProperties.

Section OverrideWitness.

Import Push Demo.

(** Under the override [10.0.0.1], the hello of [192.168.1.2:8443] is
    registered as [10.0.0.1:8443]. *)
Lemma override_keeps_port_witness :
  services
    (listenService_step (Publication (Some (hello "accounts" "192.168.1.2:8443")))
       (listenService_init
          {| apis := ∅; config := configuration [] "10.0.0.1"; feedbackLoop := ∅ |} []))
  = [hello "accounts" "10.0.0.1:8443"].
Proof.
unshelve epose proof
  (override_keeps_port
     (listenService_init
        {| apis := ∅; config := configuration [] "10.0.0.1"; feedbackLoop := ∅ |} [])
     (hello "accounts" "192.168.1.2:8443") "192.168.1.2" "8443" _ _ _) as [_ T];
  [discriminate | reflexivity | reflexivity |].
rewrite T. reflexivity.
Defined.

End OverrideWitness.

(** ** [listenService]: the required services *)

Section RequiredProperties.

Import Push.

Context {R Sv : Type} {registry : Registry Sv}.

Lemma countSeen_le (required seen : list string) :
  (countSeen required seen <= length required)%nat.
Proof.
unfold countSeen. induction required as [|n l IH]; simpl; [lia|].
destruct (bool_decide _); simpl; lia.
Qed.

Lemma countSeen_nil (required : list string) : countSeen required [] = 0%nat.
Proof.
unfold countSeen. induction required as [|k l IH]; cbn [List.filter]; [reflexivity|].
rewrite bool_decide_eq_false_2 by apply not_elem_of_nil. exact IH.
Qed.

Lemma countSeen_all (required seen : list string) :
  allSeen required seen = true <-> countSeen required seen = length required.
Proof.
unfold allSeen, countSeen. induction required as [|n l IH]; simpl; [tauto|].
pose proof (countSeen_le l seen) as Hle. unfold countSeen in Hle.
destruct (bool_decide (n ∈ seen)); simpl.
- rewrite IH. lia.
- split; [discriminate|lia].
Qed.

Lemma countSeen_known (required seen : list string) (n : string) :
  n ∈ seen \/ n ∉ required ->
  countSeen required (seen ++ [n])%list = countSeen required seen.
Proof.
unfold countSeen. intros Hn. induction required as [|k l IH]; simpl; [reflexivity|].
assert (Hl : n ∈ seen \/ n ∉ l).
{ destruct Hn as [Hn|Hn]; [left; exact Hn|right]. intros Hin. apply Hn. right. exact Hin. }
specialize (IH Hl).
assert (E : bool_decide (k ∈ (seen ++ [n])%list) = bool_decide (k ∈ seen)).
{ apply bool_decide_ext. rewrite elem_of_app, list_elem_of_singleton.
  split; [|tauto]. intros [Hk| ->]; [exact Hk|].
  destruct Hn as [Hn|Hn]; [exact Hn|]. exfalso. apply Hn. left. }
rewrite E. destruct (bool_decide (k ∈ seen)); simpl; rewrite IH; reflexivity.
Qed.

Lemma countSeen_new (required seen : list string) (n : string) :
  NoDup required -> n ∈ required -> n ∉ seen ->
  countSeen required (seen ++ [n])%list = S (countSeen required seen).
Proof.
unfold countSeen. intros Hnd. induction Hnd as [|k l Hk Hnd IH]; intros Hin Hnew.
- inversion Hin.
- simpl. destruct (decide (k = n)) as [->|Hne].
  + rewrite (bool_decide_eq_true_2 (n ∈ (seen ++ [n])%list))
      by (apply elem_of_app; right; apply list_elem_of_singleton; reflexivity).
    rewrite (bool_decide_eq_false_2 (n ∈ seen)) by exact Hnew.
    simpl. f_equal. apply (countSeen_known l seen n). right. exact Hk.
  + assert (Hl : n ∈ l).
    { apply elem_of_cons in Hin as [->|Hin]; [congruence|exact Hin]. }
    specialize (IH Hl Hnew).
    assert (E : bool_decide (k ∈ (seen ++ [n])%list) = bool_decide (k ∈ seen)).
    { apply bool_decide_ext. rewrite elem_of_app, list_elem_of_singleton. tauto. }
    rewrite E. destruct (bool_decide (k ∈ seen)); simpl; rewrite IH; reflexivity.
Qed.

Lemma countSeen_mono (required seen : list string) (n : string) :
  (countSeen required seen <= countSeen required (seen ++ [n])%list)%nat.
Proof.
unfold countSeen. induction required as [|k l IH]; cbn [List.filter]; [lia|].
destruct (bool_decide (k ∈ seen)) eqn:E.
- apply bool_decide_eq_true in E.
  rewrite bool_decide_eq_true_2 by (apply elem_of_app; left; exact E).
  simpl. lia.
- destruct (bool_decide (k ∈ (seen ++ [n])%list)); simpl; lia.
Qed.

Lemma fold_insert_false (required : list string) (m : gmap string bool) (n : string) :
  fold_left (fun m srv => <[srv := false]> m) required m !! n =
    if bool_decide (n ∈ required) then Some false else m !! n.
Proof.
revert m. induction required as [|k l IH]; intros m; simpl; [reflexivity|].
rewrite IH. destruct (decide (n = k)) as [->|Hne].
- rewrite (bool_decide_eq_true_2 (k ∈ k :: l)) by left.
  rewrite lookup_insert_eq. destruct (bool_decide (k ∈ l)); reflexivity.
- rewrite lookup_insert_ne by congruence.
  assert (E : bool_decide (n ∈ k :: l) = bool_decide (n ∈ l)).
  { apply bool_decide_ext. rewrite elem_of_cons. tauto. }
  rewrite E. reflexivity.
Qed.

Lemma tracks_init (c : Upstreamer R) (empty : Sv) :
  tracks (length (requiredServices (config c))) (remove_dups (requiredServices (config c)))
    [] (listenService_init c empty).
Proof.
unfold listenService_init.
generalize (requiredServices (config c)). intros required.
pose proof (countSeen_nil (remove_dups required)) as Hcnt.
destruct (Z.eqb_spec (Z.of_nat (length required)) 0) as [E|E].
- destruct required; [|simpl in E; lia].
  constructor; simpl; try reflexivity.
- destruct required as [|k l]; [simpl in E; lia|].
  constructor;
    cbn [requiredSeen status requiredCount requiredReady requiredNotifSent readyCloses];
    rewrite ?Hcnt; try reflexivity.
  intros n. rewrite (fold_insert_false (k :: l) ∅ n), lookup_empty.
  assert (Hd : bool_decide (n ∈ remove_dups (k :: l)) = bool_decide (n ∈ k :: l)).
  { apply bool_decide_ext, elem_of_remove_dups. }
  rewrite Hd. destruct (bool_decide (n ∈ k :: l)); [|reflexivity].
  rewrite bool_decide_eq_false_2; [reflexivity|]. apply not_elem_of_nil.
Qed.

Lemma tracks_hello (total : nat) (names seen : list string) (sp : ping)
    (st : listener R Sv) :
  NoDup names -> (length names <= total)%nat ->
  tracks total names seen st ->
  tracks total names (seen ++ [Name sp])%list (trackRequired sp st).
Proof.
intros Hnd Hlen [Hst Hcount Hmap Hready Hsent Hcloses].
pose proof (countSeen_le names seen) as Hle.
pose proof (countSeen_le names (seen ++ [Name sp])%list) as Hle'.
pose proof (countSeen_mono names seen (Name sp)) as Hmono.
unfold trackRequired. rewrite Hsent.
destruct (Nat.eqb_spec (countSeen names seen) total) as [Hdone|Hnot].
- rewrite andb_false_r.
  assert (Hdone' : (countSeen names (seen ++ [Name sp])%list =? total)%nat = true).
  { apply Nat.eqb_eq. lia. }
  constructor; rewrite ?Hdone'; try assumption; [|lia].
  assert (Hall : allSeen names seen = true) by (apply countSeen_all; lia).
  intros n. rewrite Hmap. destruct (bool_decide (n ∈ names)) eqn:Hn; [|reflexivity].
  f_equal. apply bool_decide_ext. rewrite elem_of_app, list_elem_of_singleton.
  split; [tauto|]. intros [Hs|_]; [exact Hs|].
  apply bool_decide_eq_true in Hn.
  unfold allSeen in Hall. rewrite forallb_forall in Hall.
  apply list_elem_of_In in Hn. apply Hall in Hn.
  apply bool_decide_eq_true in Hn. exact Hn.
- assert (Hf : (countSeen names seen =? total)%nat = false).
  { apply Nat.eqb_neq. exact Hnot. }
  assert (Hpos : (0 <? requiredCount st) = true).
  { apply Z.ltb_lt. rewrite Hcount. lia. }
  rewrite Hpos. simpl andb. rewrite Hmap.
  destruct (bool_decide (Name sp ∈ names)) eqn:Hin;
    [destruct (bool_decide (Name sp ∈ seen)) eqn:Hseen|].
  + (* a required service that was seen before *)
    apply bool_decide_eq_true in Hseen.
    pose proof (countSeen_known names seen (Name sp) (or_introl Hseen)) as Hc.
    rewrite Hready, Hcount.
    destruct (Z.eqb_spec (Z.of_nat (countSeen names seen)) (Z.of_nat total))
      as [Heq|Hneq]; [lia|].
    constructor; rewrite ?Hc, ?Hf; try assumption.
    intros k. rewrite Hmap. destruct (bool_decide (k ∈ names)); [|reflexivity].
    f_equal. apply bool_decide_ext. rewrite elem_of_app, list_elem_of_singleton.
    split; [tauto|]. intros [Hs| ->]; assumption.
  + (* a required service seen for the first time *)
    apply bool_decide_eq_true in Hin. apply bool_decide_eq_false in Hseen.
    pose proof (countSeen_new names seen (Name sp) Hnd Hin Hseen) as Hc.
    assert (Hmap' : forall k,
      <[Name sp := true]> (requiredSeen st) !! k =
        if bool_decide (k ∈ names)
        then Some (bool_decide (k ∈ (seen ++ [Name sp])%list)) else None).
    { intros k. destruct (decide (k = Name sp)) as [->|Hne].
      - rewrite lookup_insert_eq, (bool_decide_eq_true_2 _ Hin).
        rewrite bool_decide_eq_true_2; [reflexivity|].
        apply elem_of_app. right. apply list_elem_of_singleton. reflexivity.
      - rewrite lookup_insert_ne by congruence. rewrite Hmap.
        destruct (bool_decide (k ∈ names)); [|reflexivity].
        f_equal. apply bool_decide_ext. rewrite elem_of_app, list_elem_of_singleton. tauto. }
    cbn [requiredReady requiredCount]. rewrite Hready, Hcount.
    destruct (Z.eqb_spec (Z.of_nat (countSeen names seen) + 1) (Z.of_nat total))
      as [Heq|Hneq].
    * assert (Hdone' : (countSeen names (seen ++ [Name sp])%list =? total)%nat = true).
      { apply Nat.eqb_eq. lia. }
      pose proof Hcloses as Hzero.
      constructor; unfold closeReady;
        cbn [requiredSeen status requiredCount requiredReady requiredNotifSent readyCloses];
        rewrite ?Hdone', ?Hzero, ?Hst; try assumption; try reflexivity; lia.
    * assert (Hdone' : (countSeen names (seen ++ [Name sp])%list =? total)%nat = false).
      { apply Nat.eqb_neq. lia. }
      pose proof Hcloses as Hzero.
      constructor;
        cbn [requiredSeen status requiredCount requiredReady requiredNotifSent readyCloses];
        rewrite ?Hdone'; try assumption; try reflexivity; lia.
  + (* a service that is not required *)
    apply bool_decide_eq_false in Hin.
    pose proof (countSeen_known names seen (Name sp) (or_intror Hin)) as Hc.
    rewrite Hready, Hcount.
    destruct (Z.eqb_spec (Z.of_nat (countSeen names seen)) (Z.of_nat total))
      as [Heq|Hneq]; [lia|].
    constructor; rewrite ?Hc, ?Hf; try assumption.
    intros k. rewrite Hmap. destruct (bool_decide (k ∈ names)) eqn:Hk; [|reflexivity].
    f_equal. apply bool_decide_ext. rewrite elem_of_app, list_elem_of_singleton.
    split; [tauto|]. intros [Hs| ->]; [exact Hs|].
    apply bool_decide_eq_true in Hk. contradiction.
Qed.

Lemma tracks_with_registry (total : nat) (names seen : list string) (c : Upstreamer R)
    (sv : Sv) (st : listener R Sv) :
  tracks total names seen st -> tracks total names seen (with_registry c sv st).
Proof. intros [? ? ? ? ? ?]. constructor; assumption. Qed.

Lemma tracks_removeOutdated (total : nat) (names seen : list string) (since : Z)
    (st : listener R Sv) :
  tracks total names seen st -> tracks total names seen (removeOutdated since st).
Proof.
intros T. unfold removeOutdated.
destruct (fold_left _ _ _) as [[found sv] fl].
apply tracks_with_registry, T.
Qed.

Lemma stopped_run (turns : list selected) (st : listener R Sv) :
  status st <> Listening ->
  fold_left (fun st ev => listenService_step ev st) turns st = st.
Proof.
intros Hst. induction turns as [|ev turns IH]; [reflexivity|].
simpl. unfold listenService_step at 2.
destruct (status st); [contradiction|exact IH..].
Qed.

Lemma Name_overrideEndpoint (cfg : upstreamConfig R) (sp : ping) :
  Name (overrideEndpoint cfg sp) = Name sp /\
  Status (overrideEndpoint cfg sp) = Status sp.
Proof.
unfold overrideEndpoint. destruct (String.eqb _ _); [tauto|].
destruct (SplitHostPort _) as [|[]]; simpl; tauto.
Qed.

Lemma tracks_run (total : nat) (names : list string) (turns : list selected) :
  NoDup names -> (length names <= total)%nat ->
  forall (seen : list string) (st : listener R Sv),
    tracks total names seen st ->
    readyCloses (fold_left (fun st ev => listenService_step ev st) turns st) =
      if (countSeen names (seen ++ processedHellos turns)%list =? total)%nat
      then 1%nat else 0%nat.
Proof.
intros Hnd Hlen. induction turns as [|ev turns IH]; intros seen st T.
- simpl. rewrite app_nil_r. apply T.
- pose proof (tracks_status _ _ _ _ T) as Hst.
  cbn [fold_left]. unfold listenService_step at 2. rewrite Hst.
  destruct ev as [now|[sp|]|msg|].
  + cbn [processedHellos]. apply IH, tracks_removeOutdated, T.
  + pose proof (Name_overrideEndpoint (config (upstreamer st)) sp) as [Hn Hs].
    cbn [processedHellos]. unfold handlePing. rewrite Hs.
    destruct (Status sp).
    * destruct (handleAddServicePing _ _) as [changed sv].
      rewrite (IH (seen ++ [Name sp])%list).
      -- rewrite <- app_assoc. reflexivity.
      -- rewrite <- Hn. apply tracks_hello; [assumption..|].
         apply tracks_with_registry, T.
    * destruct (handleRemoveServicePing _ _) as [changed sv].
      apply IH, tracks_with_registry, T.
    * apply IH, T.
  + cbn [processedHellos]. apply IH, T.
  + cbn [processedHellos]. destruct (String.eqb msg _).
    * rewrite stopped_run by (simpl; discriminate).
      rewrite app_nil_r. apply T.
    * apply IH, T.
  + cbn [processedHellos]. rewrite stopped_run by (simpl; discriminate).
    rewrite app_nil_r. apply T.
Qed.

Lemma remove_dups_shorter (l : list string) : (length (remove_dups l) <= length l)%nat.
Proof.
induction l as [|x l IH]; simpl; [lia|].
destruct (decide_rel elem_of x l); simpl; lia.
Qed.

Lemma remove_dups_same_length (l : list string) :
  length (remove_dups l) = length l -> NoDup l.
Proof.
induction l as [|x l IH]; simpl; [constructor|].
pose proof (remove_dups_shorter l).
destruct (decide_rel elem_of x l); simpl; intros E; [lia|].
constructor; [assumption|]. apply IH. lia.
Qed.

Lemma remove_dups_NoDup (l : list string) : NoDup l -> remove_dups l = l.
Proof.
induction 1 as [|x l Hx Hl IH]; simpl; [reflexivity|].
destruct (decide_rel elem_of x l); [contradiction|]. rewrite IH. reflexivity.
Qed.

(** The ready signal in full: after any turns of the loop, [close(ready)]
    was executed once when the hellos handled cover as many distinct
    required names as the list of required services is long, and was not
    executed otherwise. *)
Lemma ready_closes (c : Upstreamer R) (empty : Sv) (turns : list selected) :
  readyCloses (listenService c empty turns) =
    if (countSeen (remove_dups (requiredServices (config c))) (processedHellos turns)
          =? length (requiredServices (config c)))%nat
    then 1%nat else 0%nat.
Proof.
unfold listenService.
rewrite (tracks_run (length (requiredServices (config c)))
           (remove_dups (requiredServices (config c))) turns
           (NoDup_remove_dups _) (remove_dups_shorter _) [] _ (tracks_init c empty)).
reflexivity.
Qed.

(** X1. When the list of required services names no service twice, the
    ready signal is closed once: at once when no service is required,
    and otherwise by the hello that completes the required names. It is
    not closed while a required name has had no hello, and no later turn
    closes it again. *)
Lemma ready_closed_when_required_seen (c : Upstreamer R) (empty : Sv)
    (turns : list selected) :
  NoDup (requiredServices (config c)) ->
  readyCloses (listenService c empty turns) =
    if allSeen (requiredServices (config c)) (processedHellos turns) then 1%nat else 0%nat.
Proof.
intros Hnd. rewrite ready_closes, (remove_dups_NoDup _ Hnd).
pose proof (countSeen_all (requiredServices (config c)) (processedHellos turns)) as Hall.
destruct (Nat.eqb_spec (countSeen (requiredServices (config c)) (processedHellos turns))
            (length (requiredServices (config c)))) as [E|E].
- rewrite (proj2 Hall E). reflexivity.
- destruct (allSeen _ _); [|reflexivity]. exfalso. apply E, Hall. reflexivity.
Qed.

(** C5 fails on a list of required services that names a service twice:
    [requiredCount] counts the entries of the list, [requiredReady] the
    distinct names seen, and the ready signal is never closed, whatever
    hellos are handled. *)
Theorem ready_never_closed_on_repeated_name (c : Upstreamer R) (empty : Sv)
    (turns : list selected) :
  ~ NoDup (requiredServices (config c)) ->
  readyCloses (listenService c empty turns) = 0%nat.
Proof.
intros Hdup. rewrite ready_closes.
pose proof (countSeen_le (remove_dups (requiredServices (config c))) (processedHellos turns)).
pose proof (remove_dups_shorter (requiredServices (config c))).
destruct (Nat.eqb_spec
            (countSeen (remove_dups (requiredServices (config c))) (processedHellos turns))
            (length (requiredServices (config c)))) as [E|E]; [|reflexivity].
exfalso. apply Hdup, remove_dups_same_length. lia.
Qed.

End RequiredProperties.

Section RequiredWitnesses.

Import Push Demo.

(** With [accounts] and [billing] required: the signal is open after the
    hello of [accounts], closed by the hello of [billing], and closed
    once after two more hellos. *)
Lemma ready_closed_when_required_seen_witness :
  readyCloses
    (listenService (waiting ["accounts"; "billing"]) []
       [Publication (Some (hello "accounts" "10.1.0.1:443"))]) = 0%nat /\
  readyCloses
    (listenService (waiting ["accounts"; "billing"]) []
       [Publication (Some (hello "accounts" "10.1.0.1:443"));
        Publication (Some (hello "billing" "10.1.0.2:443"))]) = 1%nat /\
  readyCloses
    (listenService (waiting ["accounts"; "billing"]) []
       [Publication (Some (hello "accounts" "10.1.0.1:443"));
        Publication (Some (hello "billing" "10.1.0.2:443"));
        Publication (Some (hello "accounts" "10.1.0.1:443"));
        Publication (Some (hello "billing" "10.1.0.3:443"))]) = 1%nat.
Proof.
assert (Hnd : NoDup (requiredServices (config (waiting ["accounts"; "billing"])))).
{ apply (bool_decide_unpack _). vm_compute. exact I. }
split; [|split];
  rewrite (ready_closed_when_required_seen (waiting ["accounts"; "billing"]) [] _ Hnd);
  vm_compute; reflexivity.
Defined.

(** With [accounts] required twice, the hello of [accounts] leaves the
    signal open. *)
Lemma ready_never_closed_on_repeated_name_witness :
  readyCloses
    (listenService (waiting ["accounts"; "accounts"]) []
       [Publication (Some (hello "accounts" "10.1.0.1:443"))]) = 0%nat /\
  allSeen ["accounts"; "accounts"]
    (processedHellos [Publication (Some (hello "accounts" "10.1.0.1:443"))]) = true.
Proof.
split; [|vm_compute; reflexivity].
apply (ready_never_closed_on_repeated_name (waiting ["accounts"; "accounts"]) []).
intros Hnd. apply NoDup_cons in Hnd as [Hnot _]. apply Hnot. left.
Defined.

End RequiredWitnesses.

(** ** [DirectPush] *)

Section DirectPushProperties.

Import Session.

Context {F : Type}.

Lemma DirectPush_filter (s : PushSession F) (events : list Event) :
  DirectPush s events = List.filter (fun e => startTime s <=? Timestamp e) events.
Proof.
induction events as [|e events IH]; simpl; [reflexivity|].
unfold Before. rewrite IH.
destruct (Z.ltb_spec (Timestamp e) (startTime s)), (Z.leb_spec (startTime s) (Timestamp e));
  (reflexivity || lia).
Qed.

Lemma DirectPush_elem (s : PushSession F) (events : list Event) (e : Event) :
  e ∈ DirectPush s events <-> e ∈ events /\ startTime s <= Timestamp e.
Proof.
rewrite DirectPush_filter, list_elem_of_In, filter_In, <- list_elem_of_In, Z.leb_le.
reflexivity.
Qed.

Lemma DirectPush_sublist (s : PushSession F) (events : list Event) :
  sublist (DirectPush s events) events.
Proof.
induction events as [|e events IH]; simpl; [constructor|].
destruct (Before _ _); [apply sublist_cons|apply sublist_skip]; exact IH.
Qed.

(** What a call of [DirectPush] that returns has sent: the events whose
    timestamp is not before the start of the session, in the order of
    the call. *)
Lemma DirectPush_since_start (s : PushSession F) (events : list Event) :
  DirectPush s events = List.filter (fun e => startTime s <=? Timestamp e) events /\
  (forall e, e ∈ DirectPush s events <-> e ∈ events /\ startTime s <= Timestamp e) /\
  sublist (DirectPush s events) events.
Proof.
split; [apply DirectPush_filter|]. split; [apply DirectPush_elem|apply DirectPush_sublist].
Qed.

End DirectPushProperties.

(** ** The write loop and the filter *)

Section WriterProperties.

Import Session.

Context {F : Type} {filtering : PushFilter F} {dispatchers : Dispatchers}.


(** The control loop installs the oldest filter received. *)
Lemma control_installs_filter (s : PushSession F) (f : option F) (rest : list (option F)) :
  control s = ControlRunning -> sType s = pushSessionTypeEvent -> filters s = f :: rest ->
  exists s', step ControlFilter s = Some s' /\ filter s' = f /\ filters s' = rest /\
             log s' = log s.
Proof.
intros Hc Ht Hf. unfold step. rewrite Hc, Ht, Hf. simpl. eexists.
split; [reflexivity|]. repeat split.
Qed.

End WriterProperties.

(** ** The operation handlers *)

Section HandlerProperties.

Import Session.

Context {F : Type} {filtering : PushFilter F} {dispatchers : Dispatchers}.

(** Every handler returns, having handed to the socket one frame, or
    nothing when its dispatcher panicked with nil. *)
Lemma handler_answers (op : apiOperation) (up finder push : bool) (request : Request)
    (l : list action) :
  handler op up finder push request l =
    (inl tt, (l ++ answers request (dispatch op request finder push) up)%list).
Proof.
destruct op; simpl;
  unfold handleRetrieveMany, handleRetrieve, handleCreate, handleUpdate, handleDelete,
    handleInfo, handlePatch, defer, bind, call, answers;
  match goal with |- context [match ?d with DispatchPanics _ => _ | _ => _ end] =>
    destruct d as [[v|]|ctx [err|]] end; rewrite ?app_nil_r; reflexivity.
Qed.

Lemma unregistrations_answers (request : Request) (d : dispatched) (up : bool) :
  unregistrations (answers request d up) = 0%nat.
Proof. destruct d as [[v|]|ctx [err|]]; reflexivity. Qed.

Lemma delivered_answers (request : Request) (d : dispatched) (up : bool) :
  delivered (answers request d up) = [].
Proof. destruct d as [[v|]|ctx [err|]]; reflexivity. Qed.

(** When the dispatcher of an operation panics with a value that is
    not nil, its handler returns all the same, and what it handed to the
    socket is one error frame of code 500, bound to the request. In the
    session, the goroutine of the operation changes the log by that
    frame and nothing else: the control loop, the read and write loops,
    the channels and the socket are as before, and the control loop
    takes the next request as it would have. *)
Lemma panic_answered_with_500 (s : PushSession F) (i : nat) (ok : bool)
    (op : apiOperation) (request : Request) (v : string) :
  operations s !! i = Some (op, request) ->
  dispatch op request (processorFinder s) (pushEventsFunc s) = DispatchPanics (Some v) ->
  let failure :=
    ErrorFrame {| ResponseRequest := request |}
      {| Title := "Internal Server Error"; Description := v; Subject := "bahamut";
         Code := 500 |} in
  handler op (ok && socketOpen s) (processorFinder s) (pushEventsFunc s) request (log s)
    = (inl tt, (log s ++ [ASend failure (ok && socketOpen s)])%list) /\
  exists s',
    step (RunOperation i ok) s = Some s' /\
    s' = set_log (log s ++ [ASend failure (ok && socketOpen s)])%list
           (set_operations (delete i (operations s)) s) /\
    frames (log s') = (frames (log s) ++ [failure])%list /\
    control s' = control s /\ stopAll s' = stopAll s /\ socketOpen s' = socketOpen s /\
    (forall (next : Request) (rest : list Request),
       control s = ControlRunning -> sType s = pushSessionTypeAPI ->
       requests s = next :: rest ->
       step ControlRequest s' = Some (serveRequest next (set_requests rest s'))).
Proof.
intros Hop Hpanic failure.
pose proof (handler_answers op (ok && socketOpen s) (processorFinder s) (pushEventsFunc s)
              request (log s)) as Hh.
rewrite Hpanic in Hh. split; [exact Hh|].
eexists. split; [|split; [reflexivity|]].
- unfold step. rewrite Hop, Hh. reflexivity.
- split; [|split; [reflexivity|split; [reflexivity|split; [reflexivity|]]]].
  + simpl. unfold frames. rewrite omap_app. reflexivity.
  + intros next rest Hc Ht Hr. unfold step. simpl. rewrite Hc, Ht, Hr. reflexivity.
Qed.

(** C4 fails on a dispatcher that panics with nil: [recover()] then
    returns nil, the test [r != nil] of [handleEventualPanic] fails, and
    the handler returns without having handed anything to the socket.
    The panic is stopped and the session goes on (the control loop, the
    channels and the socket are as before, and the next request is
    taken), but the request gets no response at all, of code 500 or
    other: its operation is over and the log is as it was. *)
Theorem nil_panic_unanswered (s : PushSession F) (i : nat) (ok : bool)
    (op : apiOperation) (request : Request) :
  operations s !! i = Some (op, request) ->
  dispatch op request (processorFinder s) (pushEventsFunc s) = DispatchPanics None ->
  handler op (ok && socketOpen s) (processorFinder s) (pushEventsFunc s) request (log s)
    = (inl tt, log s) /\
  exists s',
    step (RunOperation i ok) s = Some s' /\
    operations s' = delete i (operations s) /\
    log s' = log s /\ frames (log s') = frames (log s) /\
    requests s' = requests s /\
    control s' = control s /\ stopAll s' = stopAll s /\ socketOpen s' = socketOpen s /\
    (forall (next : Request) (rest : list Request),
       control s = ControlRunning -> sType s = pushSessionTypeAPI ->
       requests s = next :: rest ->
       step ControlRequest s' = Some (serveRequest next (set_requests rest s'))).
Proof.
intros Hop Hpanic.
pose proof (handler_answers op (ok && socketOpen s) (processorFinder s) (pushEventsFunc s)
              request (log s)) as Hh.
rewrite Hpanic in Hh. cbn [answers] in Hh. rewrite app_nil_r in Hh. split; [exact Hh|].
eexists. split; [unfold step; rewrite Hop, Hh; reflexivity|].
split; [reflexivity|]. split; [reflexivity|]. split; [reflexivity|]. split; [reflexivity|].
split; [reflexivity|]. split; [reflexivity|]. split; [reflexivity|].
intros next rest Hc Ht Hr. unfold step. simpl. rewrite Hc, Ht, Hr. reflexivity.
Qed.

End HandlerProperties.

(** ** The control loops *)

Section ControlProperties.

Import Session.

Context {F : Type} {filtering : PushFilter F} {dispatchers : Dispatchers}.

Lemma handlerFor_unknown (operation : string) :
  operation ∉ knownOperations -> handlerFor operation = None.
Proof.
intros Hnot. unfold handlerFor.
repeat match goal with
       | |- context [String.eqb operation ?k] =>
           destruct (String.eqb_spec operation k) as [->|_];
           [exfalso; apply Hnot; unfold knownOperations; set_solver|]
       end.
reflexivity.
Qed.

(** C10. The API control loop, taking a request whose operation is none
    of the seven, only consumes it: no handler is started, nothing is
    handed to the socket, no stop channel is signalled, the loop keeps
    running, and it takes the request that follows. *)
Theorem unknown_operation_discarded (s : PushSession F) (request : Request)
    (rest : list Request) :
  control s = ControlRunning ->
  sType s = pushSessionTypeAPI ->
  requests s = request :: rest ->
  Operation request ∉ knownOperations ->
  step ControlRequest s = Some (set_requests rest s) /\
  operations (set_requests rest s) = operations s /\
  log (set_requests rest s) = log s /\
  control (set_requests rest s) = ControlRunning /\
  stopAll (set_requests rest s) = stopAll s /\
  (forall (next : Request) (rest' : list Request),
     rest = next :: rest' ->
     step ControlRequest (set_requests rest s)
       = Some (serveRequest next (set_requests rest' s))).
Proof.
intros Hc Ht Hr Hop.
assert (Hserve : serveRequest request (set_requests rest s) = set_requests rest s).
{ unfold serveRequest.
  destruct (String.eqb _ ""); simpl; rewrite (handlerFor_unknown _ Hop); reflexivity. }
split; [|split; [reflexivity|split; [reflexivity|split; [exact Hc|split; [reflexivity|]]]]].
- unfold step. rewrite Hc, Ht, Hr. simpl. rewrite Hserve. reflexivity.
- intros next rest' ->. unfold step. simpl. rewrite Hc, Ht. reflexivity.
Qed.

Lemma unregistrations_app (l l' : list action) :
  unregistrations (l ++ l') = (unregistrations l + unregistrations l')%nat.
Proof. unfold unregistrations. rewrite List.filter_app, length_app. reflexivity. Qed.

Lemma delivered_app (l l' : list action) :
  delivered (l ++ l') = (delivered l ++ delivered l')%list.
Proof. apply omap_app. Qed.

(** A move adds to the events delivered or held at most the event that
    it pushes, at the end. *)
Lemma step_delivers (m : move F) (s s' : PushSession F) :
  step m s = Some s' ->
  sublist (delivered (log s') ++ held s') ((delivered (log s) ++ held s) ++ pushed [m]).
Proof.
intros Hstep.
assert (Hquiet : forall (t : PushSession F) (added : list action),
          log t = log s ++ added -> delivered added = [] -> held t = held s ->
          sublist (delivered (log t) ++ held t) ((delivered (log s) ++ held s) ++ [])).
{ intros t added Hl Hd Hh. rewrite Hl, Hh, delivered_app, Hd, !app_nil_r. reflexivity. }
assert (Hsame : forall t : PushSession F,
          log t = log s -> held t = held s ->
          sublist (delivered (log t) ++ held t) ((delivered (log s) ++ held s) ++ [])).
{ intros t Hl Hh. apply (Hquiet t []); [rewrite app_nil_r; exact Hl|reflexivity|exact Hh]. }
destruct m as [got| | |e|ok| |g| | | |i ok|]; unfold step in Hstep; cbn [pushed omap].
- destruct (reader s), got, (sType s), (socketOpen s); inversion Hstep; subst;
    apply Hsame; reflexivity.
- destruct (reader s); try discriminate;
    match type of Hstep with (if ?b then _ else _) = _ => destruct b end;
    inversion Hstep; subst; apply Hsame; reflexivity.
- destruct (reader s), (stopRead s); inversion Hstep; subst; apply Hsame; reflexivity.
- destruct (writer s) eqn:Hw; inversion Hstep; subst.
  unfold held. simpl. rewrite Hw, app_nil_r. reflexivity.
- destruct (writer s) as [| |e| |] eqn:Hw; inversion Hstep; subst.
  rewrite app_nil_r. unfold held at 2. rewrite Hw. unfold writeEvent.
  destruct (match currentFilter s with Some _ => _ | None => _ end).
  + unfold held. simpl. rewrite app_nil_r. apply sublist_inserts_r. reflexivity.
  + destruct (ok && socketOpen s); unfold held; simpl;
      rewrite delivered_app, app_nil_r; reflexivity.
- destruct (writer s) eqn:Hw, (stopWrite s); inversion Hstep; subst.
  apply Hsame; [reflexivity|]. unfold held. simpl. rewrite Hw. reflexivity.
- destruct (stopAll s <? stopCapacity)%nat; [|discriminate].
  destruct g, (reader s), (writer s) eqn:Hw; inversion Hstep; subst;
    (apply (Hquiet _ [ASignal ChanStopAll]);
     [reflexivity|reflexivity|unfold held; simpl; rewrite Hw; reflexivity]).
- destruct (is_running (control s)), (sType s), (filters s); inversion Hstep; subst;
    apply Hsame; reflexivity.
- destruct (is_running (control s)), (sType s), (requests s); inversion Hstep; subst.
  unfold serveRequest. destruct (handlerFor _); apply Hsame; reflexivity.
- destruct (is_running (control s)), (stopAll s); inversion Hstep; subst.
  unfold shutdown. simpl. destruct (unregisterFunc s).
  + apply (Hquiet _ shutdownActions); [|reflexivity|reflexivity].
    simpl. rewrite <- !app_assoc. reflexivity.
  + apply (Hquiet _ [ASignal ChanStopRead; ASignal ChanStopWrite]);
      [|reflexivity|reflexivity].
    simpl. rewrite <- !app_assoc. reflexivity.
- destruct (operations s !! i) as [[op request]|]; inversion Hstep; subst.
  rewrite handler_answers.
  eapply Hquiet; [reflexivity| |reflexivity]. apply delivered_answers.
- destruct (stopAll s <? stopCapacity)%nat; inversion Hstep; subst.
  apply (Hquiet _ [ASignal ChanStopAll]); reflexivity.
Qed.

(** The events delivered in a run are events pushed in it, in the order
    in which they were pushed: the write loop sends nothing else, and
    sends in the order in which it receives. *)
Lemma delivered_in_order (moves : list (move F)) :
  forall s s' : PushSession F,
    run moves s = Some s' ->
    sublist (delivered (log s') ++ held s') ((delivered (log s) ++ held s) ++ pushed moves).
Proof.
induction moves as [|m moves IH]; intros s s' Hrun; simpl in Hrun.
- injection Hrun as <-. rewrite app_nil_r. reflexivity.
- destruct (step m s) as [s1|] eqn:Hstep; [|discriminate].
  etransitivity; [apply (IH s1 s' Hrun)|].
  change (m :: moves) with ([m] ++ moves). unfold pushed. rewrite omap_app.
  fold (pushed [m]) (pushed moves). rewrite app_assoc.
  apply sublist_app; [|reflexivity]. apply step_delivers, Hstep.
Qed.

(** X9. When the events pushed to a new session are those that one
    call of [DirectPush] sends, every event delivered is an event of the
    call that does not predate the session, and the events delivered
    keep the order of the call. *)
Lemma delivered_since_start (role : pushSessionType)
    (parameters : gmap string (list string)) (now : Z) (callback finder push : bool)
    (events : list Event) (moves : list (move F)) (s : PushSession F) :
  let s0 := listen (newSession role parameters now callback finder push) in
  pushed moves = DirectPush s0 events ->
  run moves s0 = Some s ->
  sublist (delivered (log s)) events /\
  (forall e, e ∈ delivered (log s) -> now <= Timestamp e).
Proof.
intros s0 Hpushed Hrun.
pose proof (delivered_in_order moves s0 s Hrun) as Hsub.
simpl in Hsub. rewrite Hpushed in Hsub.
assert (Hd : sublist (delivered (log s)) (DirectPush s0 events)).
{ etransitivity; [|exact Hsub]. apply sublist_inserts_r. reflexivity. }
split.
- etransitivity; [exact Hd|apply DirectPush_sublist].
- intros e He. apply (sublist_submseteq _ _) in Hd.
  apply (elem_of_submseteq _ _ _ He) in Hd. apply DirectPush_elem in Hd. apply Hd.
Qed.

(** The three causes of termination end in a send on [stopAll]. *)
Lemma causes_signal_stopAll (s : PushSession F) :
  (stopAll s < stopCapacity)%nat ->
  (exists s', step Close s = Some s' /\ stopAll s' = S (stopAll s)) /\
  (reader s = ReaderReceiving ->
   exists s', run [SocketReceive ReceiveError; SignalStopAll TheReader] s = Some s' /\
              stopAll s' = S (stopAll s)) /\
  (forall e, writer s = WriterHolds e -> filter s = None ->
   exists s', run [WriterSend false; SignalStopAll TheWriter] s = Some s' /\
              stopAll s' = S (stopAll s)).
Proof.
intros Hroom. apply Nat.ltb_lt in Hroom. repeat split.
- unfold step. rewrite Hroom. eexists. split; reflexivity.
- intros Hr. unfold run, step. rewrite Hr. simpl. rewrite Hroom.
  eexists. split; reflexivity.
- intros e Hw Hf. unfold run, step. rewrite Hw. unfold writeEvent, currentFilter.
  rewrite Hf. simpl. rewrite Hroom. destruct (reader s); eexists; split; reflexivity.
Qed.

End ControlProperties.

Section SessionWitnesses.

Import Session DemoSession.

(** S3: of the events stamped 99, 100 and 101 pushed to a session started
    at 100, the last two are sent, in order. *)
Example DirectPush_S3 :
  DirectPush subscriber [event "I" 99; event "I" 100; event "J" 101]
    = [event "I" 100; event "J" 101].
Proof. reflexivity. Qed.


(** S4: the creation that panics is answered by one frame of code 500,
    and the request that follows is answered too. *)
Lemma panic_answered_with_500_witness :
  let serving :=
    after [SocketReceive (ReceivedRequest (request "1" "create" "boom")); ReaderEnqueue;
           ControlRequest] client in
  frames (log (after [RunOperation 0 true] serving))
    = [ErrorFrame {| ResponseRequest := request "1" "create" "boom" |}
         (NewError "Internal Server Error" "runtime error: boom" "bahamut" 500)] /\
  control (after [RunOperation 0 true] serving) = ControlRunning /\
  frames (log (after [RunOperation 0 true;
                      SocketReceive (ReceivedRequest (request "2" "retrieve" ""));
                      ReaderEnqueue; ControlRequest; RunOperation 0 true] serving))
    = [ErrorFrame {| ResponseRequest := request "1" "create" "boom" |}
         (NewError "Internal Server Error" "runtime error: boom" "bahamut" 500);
       ResponseFrame {| ResponseRequest := request "2" "retrieve" "" |} created].
Proof.
intros serving.
unshelve epose proof
  (panic_answered_with_500 serving 0 true Create (request "1" "create" "boom")
     "runtime error: boom" _ _) as T; [vm_compute; reflexivity ..|].
destruct T as (_ & s' & Hstep & _ & Hframes & Hcontrol & _).
assert (E : after [RunOperation 0 true] serving = s').
{ unfold after, run. rewrite Hstep. reflexivity. }
rewrite E, Hframes, Hcontrol. split; [|split]; vm_compute; reflexivity.
Defined.

(** The creation that panics with nil gets no frame at all; the session
    goes on and answers the request that follows. *)
Lemma nil_panic_unanswered_witness :
  let serving :=
    after [SocketReceive (ReceivedRequest (request "1" "create" "nil")); ReaderEnqueue;
           ControlRequest] client in
  operations serving = [(Create, request "1" "create" "nil")] /\
  frames (log (after [RunOperation 0 true] serving)) = [] /\
  operations (after [RunOperation 0 true] serving) = [] /\
  control (after [RunOperation 0 true] serving) = ControlRunning /\
  frames (log (after [RunOperation 0 true;
                      SocketReceive (ReceivedRequest (request "2" "retrieve" ""));
                      ReaderEnqueue; ControlRequest; RunOperation 0 true] serving))
    = [ResponseFrame {| ResponseRequest := request "2" "retrieve" "" |} created].
Proof.
intros serving.
unshelve epose proof
  (nil_panic_unanswered serving 0 true Create (request "1" "create" "nil") _ _) as T;
  [vm_compute; reflexivity ..|].
destruct T as (_ & s' & Hstep & Hoperations & _ & Hframes & _ & Hcontrol & _).
assert (E : after [RunOperation 0 true] serving = s').
{ unfold after, run. rewrite Hstep. reflexivity. }
rewrite E, Hframes, Hcontrol, Hoperations.
split; [|split; [|split; [|split]]]; vm_compute; reflexivity.
Defined.

(** A request to [archive] leaves the session as it was. *)
Lemma unknown_operation_discarded_witness :
  let queued :=
    after [SocketReceive (ReceivedRequest (request "1" "archive" "")); ReaderEnqueue]
      client in
  step ControlRequest queued = Some (set_requests [] queued) /\
  operations (set_requests [] queued) = [] /\
  log (set_requests [] queued) = [].
Proof.
intros queued.
destruct (unknown_operation_discarded queued (request "1" "archive" "") []
            eq_refl eq_refl eq_refl) as (Hstep & Hops & Hlog & _).
{ unfold knownOperations. intros Hin.
  repeat (apply elem_of_cons in Hin as [Hin|Hin]; [discriminate|]).
  inversion Hin. }
split; [exact Hstep|]. split; [rewrite Hops|rewrite Hlog]; reflexivity.
Defined.

End SessionWitnesses.

(** * Further properties of the code *)

Import Observations.

(** ** [Upstream]: the endpoint returned *)

Section UpstreamSoundness.

Import Push.

Context {R : Type} {rand : Randomizer R} {picker : Picker R} {paths : PathHelpers}.

(** X8. Whatever the weights and the draw, when the route table has
    an endpoint for the identity of the path, an address that
    [Upstream] returns is the address of one of these endpoints and
    comes with the last load of that endpoint; when the route table has
    none, what [Upstream] returns is the empty address with a load of
    zero, and it has made no draw. *)
Theorem Upstream_returns_endpoint_of_route (c : Upstreamer R) (path : string)
    (a : string) (l : float) (rnd : R) :
  Upstream c path = (Returns (a, l), rnd) ->
  match apis c !! getTargetIdentity path with
  | None | Some [] => a = "" /\ l = 0%float /\ rnd = randomizer (config c)
  | Some eps => exists ep, ep ∈ eps /\ a = address ep /\ l = lastLoad ep
  end.
Proof.
unfold Upstream. destruct (apis c !! getTargetIdentity path) as [eps|]; simpl.
2:{ intros E. injection E as <- <- <-. repeat split. }
destruct eps as [|ep0 [|ep1 eps]]; simpl.
- intros E. injection E as <- <- <-. repeat split.
- intros E. injection E as <- <- <-. exists ep0. split; [left|split; reflexivity].
- set (all := ep0 :: ep1 :: eps).
  destruct (if (length eps =? 0)%nat then _ else _) as [[n1 n2] r1].
  change (match n1 with 0%nat => Some ep0 | S i => (ep1 :: eps) !! i end) with (all !! n1).
  change (match n2 with 0%nat => Some ep0 | S i => (ep1 :: eps) !! i end) with (all !! n2).
  destruct (all !! n1) as [epi1|] eqn:H1; [|discriminate].
  destruct (all !! n2) as [epi2|] eqn:H2; [|discriminate].
  apply list_elem_of_lookup_2 in H1, H2.
  unfold choose, swap. simpl fst. simpl snd.
  destruct (if (_ || _) then _ else _) as [wa wb]. simpl fst. simpl snd.
  destruct (wb <? wa)%float; simpl fst; simpl snd;
    (destruct (Float64.to_int _) as [i|]; [|discriminate]);
    (destruct (_ <=? 0); [discriminate|]);
    destruct (Intn r1 _) as [d r2];
    (destruct (_ <=? _)%float); intros E; injection E as <- <- <-;
    first [exists epi1; split; [assumption|split; reflexivity]
          |exists epi2; split; [assumption|split; reflexivity]].
Qed.

End UpstreamSoundness.

(** ** [listenService]: the tick *)

Section TickProperties.

Import Push.

Context {R Sv : Type} {registry : Registry Sv}.

Lemma removeOutdated_fold (since : Z) (st : listener R Sv) :
  removeOutdated since st =
    let '(found, sv, fl) :=
      fold_left tickBody (outdatedEndpoints (services st) since)
        (false, services st, feedbackLoop (upstreamer st)) in
    let c := set_feedbackLoop fl (upstreamer st) in
    with_registry (if found then resync c sv else c) sv st.
Proof. reflexivity. Qed.

(** Once a removal has changed the registry, the tick removes no other
    endpoint from it. *)
Lemma tick_found (l : list (string * string)) (sv : Sv) (fl : gmap string MovingAverage.t) :
  fold_left tickBody l (true, sv, fl) =
    (true, sv, fold_left (fun fl ep => delete ep fl) (snd <$> l) fl).
Proof.
revert fl. induction l as [|[name ep] l IH]; intros fl; [reflexivity|].
simpl. apply IH.
Qed.

Lemma tick_feedback (l : list (string * string)) (found : bool) (sv : Sv)
    (fl : gmap string MovingAverage.t) :
  snd (fold_left tickBody l (found, sv, fl)) =
    fold_left (fun fl ep => delete ep fl) (snd <$> l) fl.
Proof.
revert found sv fl. induction l as [|[name ep] l IH]; intros found sv fl; [reflexivity|].
simpl. destruct found; [apply IH|].
destruct (handleRemoveServicePing sv _) as [found' sv']. apply IH.
Qed.

Lemma lookup_fold_delete (l : list string) (fl : gmap string MovingAverage.t) (a : string) :
  fold_left (fun fl ep => delete ep fl) l fl !! a =
    if bool_decide (a ∈ l) then None else fl !! a.
Proof.
revert fl. induction l as [|ep l IH]; intros fl; [reflexivity|].
simpl. rewrite IH.
destruct (decide (a = ep)) as [->|Hne].
- rewrite lookup_delete_eq, (bool_decide_eq_true_2 (ep ∈ ep :: l)) by left.
  destruct (bool_decide _); reflexivity.
- rewrite lookup_delete_ne by congruence.
  destruct (decide (a ∈ l)) as [Hin|Hnot].
  + rewrite !bool_decide_eq_true_2; [reflexivity|right; assumption|assumption].
  + rewrite !bool_decide_eq_false_2; [reflexivity| |assumption].
    intros [?|?]%elem_of_cons; contradiction.
Qed.

(** X5. A tick deletes the samples of every endpoint that
    [outdatedEndpoints] lists, whether or not the registry gave the
    endpoint up, so that its measure is zero again; it keeps the samples
    of every other address, the configuration, and the state of the
    ready signal, and the loop goes on. *)
Theorem tick_forgets_outdated_samples (now : Z) (st : listener R Sv) (a : string) :
  status st = Listening ->
  let since := now - serviceTimeout (config (upstreamer st)) in
  let st' := listenService_step (Tick now) st in
  feedbackLoop (upstreamer st') !! a =
    (if bool_decide (a ∈ snd <$> outdatedEndpoints (services st) since) then None
     else feedbackLoop (upstreamer st) !! a) /\
  (a ∈ snd <$> outdatedEndpoints (services st) since -> measure (upstreamer st') a = 0%float) /\
  config (upstreamer st') = config (upstreamer st) /\
  readyCloses st' = readyCloses st /\ status st' = Listening.
Proof.
intros Hst since st'.
assert (Hfl : feedbackLoop (upstreamer st') =
              fold_left (fun fl ep => delete ep fl)
                (snd <$> outdatedEndpoints (services st) since) (feedbackLoop (upstreamer st))).
{ subst st'. unfold listenService_step. rewrite Hst, removeOutdated_fold. fold since.
  rewrite <- (tick_feedback _ false (services st)).
  destruct (fold_left tickBody _ _) as [[found sv] fl]. destruct found; reflexivity. }
assert (Hlook : feedbackLoop (upstreamer st') !! a =
                if bool_decide (a ∈ snd <$> outdatedEndpoints (services st) since) then None
                else feedbackLoop (upstreamer st) !! a).
{ rewrite Hfl. apply lookup_fold_delete. }
split; [exact Hlook|]. split.
- intros Hin. unfold measure. rewrite Hlook, bool_decide_eq_true_2 by exact Hin. reflexivity.
- subst st'. unfold listenService_step. rewrite Hst, removeOutdated_fold. fold since.
  destruct (fold_left tickBody _ _) as [[found sv] fl]. destruct found; repeat split; assumption.
Qed.

(** X6. When the removal of the first outdated endpoint changes the
    registry, the tick calls [handleRemoveServicePing] for no other
    endpoint ([foundOutdated || ...] does not evaluate its right side
    once [foundOutdated] is set): the registry after the tick is the
    registry after that one removal, whatever other endpoints are
    outdated, and the routes are rebuilt from it. *)
Theorem tick_evicts_first_only (now : Z) (st : listener R Sv) (name ep : string)
    (rest : list (string * string)) (sv : Sv) :
  status st = Listening ->
  let cfg := config (upstreamer st) in
  outdatedEndpoints (services st) (now - serviceTimeout cfg) = (name, ep) :: rest ->
  handleRemoveServicePing (services st) (outdatedPing name ep) = (true, sv) ->
  let st' := listenService_step (Tick now) st in
  services st' = sv /\
  apis (upstreamer st') = resyncRoutes sv (exposePrivateAPIs cfg) (eventsAPIs cfg).
Proof.
intros Hst cfg Hout Hremove st'. subst st'.
unfold listenService_step. rewrite Hst, removeOutdated_fold. fold cfg. rewrite Hout.
cbn [fold_left tickBody]. rewrite Hremove, tick_found. split; reflexivity.
Qed.

End TickProperties.

(** ** [listenService]: the life of the loop *)

Section LifecycleProperties.

Import Push.

Context {R Sv : Type} {registry : Registry Sv}.

Lemma tracks_sound (total : nat) (names seen : list string) (st : listener R Sv) :
  tracks total names seen st -> sound st.
Proof.
intros [Hst _ _ _ _ Hcloses]. split; [rewrite Hst; discriminate|].
rewrite Hcloses. destruct (_ =? _)%nat; lia.
Qed.

Lemma sound_run (total : nat) (names : list string) (turns : list selected) :
  NoDup names -> (length names <= total)%nat ->
  forall (seen : list string) (st : listener R Sv),
    tracks total names seen st ->
    sound (fold_left (fun st ev => listenService_step ev st) turns st).
Proof.
intros Hnd Hlen. induction turns as [|ev turns IH]; intros seen st T.
- apply (tracks_sound _ _ _ _ T).
- pose proof (tracks_status _ _ _ _ T) as Hst.
  pose proof (tracks_sound _ _ _ _ T) as [_ Hc].
  cbn [fold_left]. unfold listenService_step at 2. rewrite Hst.
  destruct ev as [now|[sp|]|msg|].
  + apply (IH seen), tracks_removeOutdated, T.
  + pose proof (Name_overrideEndpoint (config (upstreamer st)) sp) as [Hn Hs].
    unfold handlePing. rewrite Hs. destruct (Status sp).
    * destruct (handleAddServicePing _ _) as [changed sv].
      apply (IH (seen ++ [Name (overrideEndpoint (config (upstreamer st)) sp)])).
      apply tracks_hello; [assumption..|]. apply tracks_with_registry, T.
    * destruct (handleRemoveServicePing _ _) as [changed sv].
      apply (IH seen), tracks_with_registry, T.
    * apply (IH seen), T.
  + apply (IH seen), T.
  + destruct (String.eqb msg _).
    * rewrite stopped_run by (simpl; discriminate). split; [discriminate|exact Hc].
    * apply (IH seen), T.
  + rewrite stopped_run by (simpl; discriminate). split; [discriminate|exact Hc].
Qed.

(** X2. Whatever the list of required services and whatever the loop
    receives, [close(ready)] is executed once at most, so that the loop
    never panics on closing a closed channel. *)
Theorem ready_closed_at_most_once (c : Upstreamer R) (empty : Sv) (turns : list selected) :
  (readyCloses (listenService c empty turns) <= 1)%nat /\
  status (listenService c empty turns) <> Panicked.
Proof.
destruct (sound_run (length (requiredServices (config c)))
            (remove_dups (requiredServices (config c))) turns
            (NoDup_remove_dups _) (remove_dups_shorter _) [] _ (tracks_init c empty))
  as [Hs Hc].
split; assumption.
Qed.

Lemma listenService_app (c : Upstreamer R) (empty : Sv) (turns later : list selected) :
  listenService c empty (turns ++ later) =
    fold_left (fun st ev => listenService_step ev st) later (listenService c empty turns).
Proof. unfold listenService. apply fold_left_app. Qed.

(** X3. Once the loop has received the end of its context it has
    returned: whatever is published or ticks afterwards changes neither
    the routes, nor the feedback loop, nor the registry, nor the ready
    signal. *)
Theorem nothing_after_context_done (c : Upstreamer R) (empty : Sv)
    (turns later : list selected) :
  let st := listenService c empty turns in
  let st' := listenService c empty (turns ++ ContextDone :: later) in
  upstreamer st' = upstreamer st /\ services st' = services st /\
  readyCloses st' = readyCloses st /\
  status st' = match status st with Listening => Returned | ended => ended end.
Proof.
intros st st'. subst st'. rewrite listenService_app. fold st. cbn [fold_left].
assert (Hstop : status (listenService_step ContextDone st) <> Listening).
{ unfold listenService_step. destruct (status st) eqn:E; simpl; congruence. }
rewrite (stopped_run later _ Hstop).
unfold listenService_step. destruct (status st) eqn:E; cbn [status with_status];
  rewrite ?E; repeat split.
Qed.

Lemma forgetful_refl (c : Upstreamer R) : forgetful c c.
Proof. split; reflexivity. Qed.

Lemma forgetful_trans (c c' c'' : Upstreamer R) :
  forgetful c c' -> forgetful c' c'' -> forgetful c c''.
Proof. intros [H1 H2] [H3 H4]. split; [congruence|]. etransitivity; eassumption. Qed.

Lemma fold_delete_subseteq (l : list string) (fl : gmap string MovingAverage.t) :
  fold_left (fun fl ep => delete ep fl) l fl ⊆ fl.
Proof.
revert fl. induction l as [|ep l IH]; intros fl; [reflexivity|].
simpl. etransitivity; [apply IH|apply delete_subseteq].
Qed.

Lemma upstreamer_trackRequired (sp : ping) (st : listener R Sv) :
  upstreamer (trackRequired sp st) = upstreamer st.
Proof.
unfold trackRequired. destruct (_ && _); [|reflexivity].
destruct (requiredSeen st !! Name sp) as [[|]|]; cbn [requiredReady requiredCount];
  destruct (_ =? _); reflexivity.
Qed.

Lemma forgetful_step (ev : selected) (st : listener R Sv) :
  forgetful (upstreamer st) (upstreamer (listenService_step ev st)).
Proof.
unfold listenService_step. destruct (status st); try apply forgetful_refl.
destruct ev as [now|[sp|]|msg|]; try apply forgetful_refl.
- rewrite removeOutdated_fold.
  pose proof (tick_feedback
                (outdatedEndpoints (services st)
                   (now - serviceTimeout (config (upstreamer st))))
                false (services st) (feedbackLoop (upstreamer st))) as Hfl.
  destruct (fold_left tickBody _ _) as [[found sv] fl]. simpl in Hfl. subst fl.
  destruct found; (split; [reflexivity|apply fold_delete_subseteq]).
- unfold handlePing. destruct (Status (overrideEndpoint _ sp)).
  + destruct (handleAddServicePing _ _) as [changed sv].
    rewrite upstreamer_trackRequired. destruct changed; split; reflexivity.
  + destruct (handleRemoveServicePing _ _) as [[|] sv]; [|apply forgetful_refl].
    split; [reflexivity|apply delete_subseteq].
  + apply forgetful_refl.
- destruct (String.eqb msg _); apply forgetful_refl.
Qed.

(** X4. The loop never changes the configuration of the upstreamer, and
    never adds a sample to the feedback loop nor changes one: an entry
    that the feedback loop has after any turns is an entry it had when
    the loop started. *)
Theorem listener_only_forgets (c : Upstreamer R) (empty : Sv) (turns : list selected) :
  let c' := upstreamer (listenService c empty turns) in
  config c' = config c /\
  forall (a : string) (ma : MovingAverage.t),
    feedbackLoop c' !! a = Some ma -> feedbackLoop c !! a = Some ma.
Proof.
intros c'. subst c'.
assert (H : forgetful c (upstreamer (listenService c empty turns))).
{ unfold listenService.
  assert (Hinit : forgetful c (upstreamer (listenService_init c empty : listener R Sv))).
  { unfold listenService_init. destruct (_ =? 0); apply forgetful_refl. }
  revert Hinit. generalize (listenService_init c empty : listener R Sv).
  induction turns as [|ev turns IH]; intros st Hst; [exact Hst|].
  cbn [fold_left]. apply IH. eapply forgetful_trans; [exact Hst|apply forgetful_step]. }
destruct H as [Hc Hf]. split; [exact Hc|]. intros a ma Ha.
apply (lookup_weaken _ _ _ _ Ha Hf).
Qed.

End LifecycleProperties.

(** ** [listenService]: the override, twice *)

Section OverrideStability.

Import Push.

Context {R : Type}.

Lemma from_0 (s : string) : from 0 s = s.
Proof.
unfold from. rewrite Nat.sub_0_r. induction s as [|a s IH]; [reflexivity|].
simpl. rewrite IH. reflexivity.
Qed.

Lemma from_S (i : nat) (a : ascii) (s : string) : from (S i) (String a s) = from i s.
Proof. reflexivity. Qed.

Lemma lastIndexByte_None (c : ascii) (s : string) :
  lastIndexByte c s = None <-> indexByte c s = None.
Proof.
induction s as [|a s IH]; [tauto|]. simpl.
destruct (lastIndexByte c s) as [i|], (indexByte c s) as [j|], (Ascii.eqb a c); simpl;
  split; intros E; try discriminate; try reflexivity;
  try (apply IH in E; discriminate); destruct IH as [IH1 IH2];
  try (specialize (IH1 eq_refl); discriminate); try (specialize (IH2 eq_refl); discriminate).
Qed.

Lemma lastIndexByte_from (c : ascii) (s : string) :
  forall i : nat, lastIndexByte c s = Some i -> indexByte c (from (i + 1) s) = None.
Proof.
induction s as [|a s IH]; intros i Hi; [discriminate|].
simpl in Hi. destruct (lastIndexByte c s) as [j|] eqn:Hl.
- injection Hi as <-. change (S j + 1)%nat with (S (j + 1)). rewrite from_S. apply IH. reflexivity.
- destruct (Ascii.eqb a c); [|discriminate]. injection Hi as <-.
  change (0 + 1)%nat with 1%nat. rewrite from_S, from_0. apply lastIndexByte_None, Hl.
Qed.

Lemma lastIndexByte_app (c : ascii) (o p : string) :
  indexByte c p = None -> lastIndexByte c (o ++ String c p)%string = Some (String.length o).
Proof.
intros Hp. apply lastIndexByte_None in Hp. induction o as [|a o IH]; simpl.
- rewrite Hp, Ascii.eqb_refl. reflexivity.
- rewrite IH. reflexivity.
Qed.

Lemma from_app (c : ascii) (o p : string) :
  from (String.length o + 1) (o ++ String c p)%string = p.
Proof.
induction o as [|a o IH].
- apply (from_0 p).
- exact IH.
Qed.

(** The port that [SplitHostPort] returns is what follows the last
    colon. *)
Lemma SplitHostPort_port (s host port : string) :
  SplitHostPort s = inr (host, port) ->
  exists i, lastIndexByte ":" s = Some i /\ port = from (i + 1) s.
Proof.
unfold SplitHostPort. destruct (lastIndexByte ":" s) as [i|]; [|discriminate].
intros E. exists i. split; [reflexivity|].
repeat match type of E with
       | context [match ?x with _ => _ end] => destruct x
       end; try discriminate; injection E as _ <-; reflexivity.
Qed.

(** X7. Overriding the endpoint of a ping that was overridden already
    changes nothing, whatever the override and the endpoint are: a ping
    that comes back through the loop keeps the endpoint it was given the
    first time. *)
Theorem overrideEndpoint_idempotent (cfg : upstreamConfig R) (sp : ping) :
  overrideEndpoint cfg (overrideEndpoint cfg sp) = overrideEndpoint cfg sp.
Proof.
unfold overrideEndpoint at 2 3.
destruct (String.eqb (overrideEndpointAddress cfg) "") eqn:Ho.
- unfold overrideEndpoint. rewrite Ho. reflexivity.
- destruct (SplitHostPort (Endpoint sp)) as [why|[host port]] eqn:E1.
  + unfold overrideEndpoint. rewrite Ho, E1. reflexivity.
  + unfold overrideEndpoint. rewrite Ho. cbn [Endpoint set_Endpoint].
    destruct (SplitHostPort (overrideEndpointAddress cfg ++ ":" ++ port)%string)
      as [why|[host' port']] eqn:E2; [reflexivity|].
    destruct (SplitHostPort_port _ _ _ E1) as (i & Hi & ->).
    destruct (SplitHostPort_port _ _ _ E2) as (i' & Hi' & ->).
    change (overrideEndpointAddress cfg ++ ":" ++ from (i + 1) (Endpoint sp))%string
      with (overrideEndpointAddress cfg ++ String ":" (from (i + 1) (Endpoint sp)))%string
      in *.
    rewrite lastIndexByte_app in Hi' by apply lastIndexByte_from, Hi.
    injection Hi' as <-. rewrite from_app. reflexivity.
Qed.

End OverrideStability.

Section ListenerWitnesses.

Import Push Demo DemoMore.

(** The route [objects] of the gateway has two endpoints, and the
    address returned is the second one's. *)
Lemma Upstream_returns_endpoint_of_route_witness :
  match apis gateway !! getTargetIdentity "/objects" with
  | None | Some [] =>
      "10.1.0.2:443" = "" /\ 0.25%float = 0%float /\ 8 = randomizer (config gateway)
  | Some eps => exists ep, ep ∈ eps /\ "10.1.0.2:443" = address ep /\ 0.25%float = lastLoad ep
  end.
Proof.
apply (Upstream_returns_endpoint_of_route gateway "/objects" "10.1.0.2:443" 0.25%float 8).
vm_compute. reflexivity.
Defined.

(** The registry holds the two endpoints of the gateway, both outdated:
    the tick deletes the samples of both. *)
Lemma tick_forgets_outdated_samples_witness :
  let st :=
    listenService (Sv := list (string * string)) gateway []
      [Publication (Some (hello "accounts" "10.1.0.1:443"));
       Publication (Some (hello "billing" "10.1.0.2:443"))] in
  feedbackLoop (upstreamer st) !! "10.1.0.2:443" = Some (window 900) /\
  feedbackLoop (upstreamer (listenService_step (Tick 0) st)) !! "10.1.0.2:443" = None /\
  measure (upstreamer (listenService_step (Tick 0) st)) "10.1.0.2:443" = 0%float.
Proof.
intros st.
unshelve epose proof (tick_forgets_outdated_samples 0 st "10.1.0.2:443" _) as T;
  [vm_compute; reflexivity|].
destruct T as (Hlook & Hmeasure & _).
split; [vm_compute; reflexivity|]. split.
- rewrite Hlook. vm_compute. reflexivity.
- apply Hmeasure. vm_compute. right. left.
Defined.

(** The same tick removes the first endpoint from the registry, and
    leaves the second in it. *)
Lemma tick_evicts_first_only_witness :
  let st :=
    listenService (Sv := list (string * string)) gateway []
      [Publication (Some (hello "accounts" "10.1.0.1:443"));
       Publication (Some (hello "billing" "10.1.0.2:443"))] in
  services st = [("accounts", "10.1.0.1:443"); ("billing", "10.1.0.2:443")] /\
  services (listenService_step (Tick 0) st) = [("billing", "10.1.0.2:443")].
Proof.
intros st.
unshelve epose proof
  (tick_evicts_first_only 0 st "accounts" "10.1.0.1:443" [("billing", "10.1.0.2:443")]
     [("billing", "10.1.0.2:443")] _ _ _) as T; [vm_compute; reflexivity ..|].
destruct T as [Hservices _].
split; [vm_compute; reflexivity|exact Hservices].
Defined.

End ListenerWitnesses.

(** ** The session: what every run keeps *)

Section SessionInvariants.

Import Session.

Context {F : Type} {filtering : PushFilter F} {dispatchers : Dispatchers}.

(** What holds at the start and is kept by every move holds after a run. *)
Lemma run_invariant (P : PushSession F -> Prop) :
  (forall m s s', P s -> step m s = Some s' -> P s') ->
  forall moves s s', P s -> run moves s = Some s' -> P s'.
Proof.
intros Hkeep moves. induction moves as [|m moves IH]; intros s s' Hs Hrun; simpl in Hrun.
- injection Hrun as <-. exact Hs.
- destruct (step m s) as [s1|] eqn:Hstep; [|discriminate].
  apply (IH s1 s'); [|exact Hrun]. apply (Hkeep m s s1 Hs Hstep).
Qed.

Lemma is_running_true (c : control_state) : is_running c = true -> c = ControlRunning.
Proof. destruct c; (reflexivity || discriminate). Qed.

(** The states that a move can lead to, one goal for each. *)
Local Ltac moves_of Hstep :=
  unfold step in Hstep;
  repeat match type of Hstep with
         | context [handler ?op ?up ?finder ?push ?request ?l] =>
             rewrite (handler_answers op up finder push request l) in Hstep
         | context [match ?x with _ => _ end] => destruct x eqn:?
         end;
  try discriminate; injection Hstep as <-;
  repeat match goal with
         | E : is_running _ = true |- _ => apply is_running_true in E
         end.

Local Ltac fields :=
  cbn [Parameters processorFinder pushEventsFunc requests filters socketOpen startTime
       stopAll stopRead stopWrite sType unregisterFunc filter control reader writer
       operations log set_requests set_filters set_stopAll set_stopRead set_stopWrite
       set_filter set_control set_reader set_writer set_operations set_log record
       setCurrentFilter] in *.

Local Ltac branches :=
  unfold writeEvent, serveRequest, shutdown, answers;
  repeat match goal with |- context [match ?x with _ => _ end] => destruct x eqn:? end;
  rewrite ?app_nil_r;
  fields.

Lemma channels_step (m : move F) (s s' : PushSession F) :
  ((length (requests s) <= inboxCapacity)%nat /\ (length (filters s) <= inboxCapacity)%nat /\
   (stopAll s <= stopCapacity)%nat /\ (stopRead s <= 1)%nat /\ (stopWrite s <= 1)%nat /\
   (control s = ControlRunning -> stopRead s = 0%nat /\ stopWrite s = 0%nat)) ->
  step m s = Some s' ->
  ((length (requests s') <= inboxCapacity)%nat /\ (length (filters s') <= inboxCapacity)%nat /\
   (stopAll s' <= stopCapacity)%nat /\ (stopRead s' <= 1)%nat /\ (stopWrite s' <= 1)%nat /\
   (control s' = ControlRunning -> stopRead s' = 0%nat /\ stopWrite s' = 0%nat)).
Proof.
intros (Hq & Hf & Ha & Hr & Hw & Hrun) Hstep.
destruct m; moves_of Hstep; branches;
  rewrite ?length_app in *; cbn [length] in *;
  repeat match goal with
         | E : (_ <? _)%nat = true |- _ => apply Nat.ltb_lt in E
         | E : control s = ControlRunning |- _ => destruct (Hrun E) as [? ?]; clear Hrun
         end;
  repeat split; try lia; try discriminate;
  try (match goal with E : control s = ControlRunning |- _ => destruct (Hrun E) end; lia).
Qed.

(** X10. In a session of either role, after any moves, no channel holds
    more than its capacity: [requests] and [filters] at most 8 values,
    [stopAll] at most 2. [stopRead] and [stopWrite], of capacity 2, hold
    one signal at most, and none while the control loop runs: the two
    sends of its deferred function never block. *)
Theorem channels_never_overflow (role : pushSessionType)
    (parameters : gmap string (list string)) (now : Z) (callback finder push : bool)
    (moves : list (move F)) (s : PushSession F) :
  run moves (listen (newSession role parameters now callback finder push)) = Some s ->
  (length (requests s) <= inboxCapacity)%nat /\ (length (filters s) <= inboxCapacity)%nat /\
  (stopAll s <= stopCapacity)%nat /\ (stopRead s <= 1)%nat /\ (stopWrite s <= 1)%nat /\
  (control s = ControlRunning -> stopRead s = 0%nat /\ stopWrite s = 0%nat).
Proof.
apply (run_invariant _ channels_step). simpl. unfold inboxCapacity, stopCapacity.
repeat split; lia.
Qed.

Lemma closings_app (l l' : list action) :
  closings (l ++ l') = (closings l + closings l')%nat.
Proof. unfold closings. rewrite List.filter_app, length_app. reflexivity. Qed.

Lemma afterClose_app (l added : list action) :
  afterClose (l ++ added) =
    if (closings l =? 0)%nat then afterClose added else afterClose l ++ added.
Proof.
induction l as [|a l IH]; [reflexivity|].
destruct a; simpl; try exact IH. reflexivity.
Qed.

Lemma afterClose_split (before after : list action) :
  exists between, afterClose (before ++ ASocketClose :: after) = between ++ after.
Proof.
induction before as [|a before [between IH]].
- exists []. reflexivity.
- destruct a; simpl; try (exists between; exact IH).
  exists (before ++ [ASocketClose]). rewrite <- app_assoc. reflexivity.
Qed.

Lemma sealed_step (m : move F) (s s' : PushSession F) :
  sealed s -> step m s = Some s' -> sealed s'.
Proof.
intros Hs Hstep.
destruct m; moves_of Hstep; branches; destruct Hs as [Hopen Hafter]; unfold sealed; fields;
  rewrite <- ?app_assoc; cbn [app];
  rewrite ?afterClose_app, ?closings_app;
  try (split; assumption);
  (split; [try discriminate; intros Hs; rewrite Hopen by (assumption || reflexivity);
           reflexivity|]);
  destruct (closings (log s)) eqn:Hn; cbn [Nat.eqb afterClose];
  try (repeat constructor; fail);
  (apply Forall_app; split; [exact Hafter|]);
  assert (Hclosed : socketOpen s = false)
    by (destruct (socketOpen s); [specialize (Hopen eq_refl); discriminate|reflexivity]);
  rewrite Hclosed, ?andb_false_r in *; try discriminate; repeat constructor.
Qed.

(** X11. Once the deferred function of the control loop has closed the
    socket, the socket stays closed, and every frame that the write loop
    or a handler hands to it afterwards is lost: no event, response or
    error is delivered after the closing. *)
Theorem nothing_delivered_after_close (role : pushSessionType)
    (parameters : gmap string (list string)) (now : Z) (callback finder push : bool)
    (moves : list (move F)) (s : PushSession F) (before after : list action) :
  run moves (listen (newSession role parameters now callback finder push)) = Some s ->
  log s = before ++ ASocketClose :: after ->
  socketOpen s = false /\
  forall (f : frame) (d : bool), ASend f d ∈ after -> d = false.
Proof.
intros Hrun Hlog.
assert (Hs : sealed s).
{ revert Hrun. apply (run_invariant _ sealed_step). split; [reflexivity|constructor]. }
destruct Hs as [Hopen Hafter]. split.
- destruct (socketOpen s); [|reflexivity]. specialize (Hopen eq_refl).
  rewrite Hlog, closings_app in Hopen. unfold closings in Hopen. simpl in Hopen. lia.
- intros f d Hin. rewrite Hlog in Hafter.
  destruct (afterClose_split before after) as [between Hb]. rewrite Hb in Hafter.
  apply Forall_app in Hafter as [_ Hafter]. rewrite Forall_forall in Hafter.
  specialize (Hafter _ Hin). destruct d; [contradiction|reflexivity].
Qed.

Lemma frames_app (l l' : list action) : frames (l ++ l') = frames l ++ frames l'.
Proof. apply omap_app. Qed.

Lemma answered_app (l l' : list action) : answered (l ++ l') = answered l ++ answered l'.
Proof. apply omap_app. Qed.

Lemma pushing_step (m : move F) (s s' : PushSession F) :
  pushing s -> step m s = Some s' -> pushing s'.
Proof.
intros Hs Hstep.
destruct m; moves_of Hstep; branches; destruct Hs as (Ht & Hq & Ho & Hh & Hf);
  unfold pushing, heldRequest in *; fields;
  try congruence;
  try (rewrite Ho in *; discriminate);
  try (match goal with E : reader s = _ |- _ => rewrite E in Hh; discriminate end);
  rewrite <- ?app_assoc; cbn [app];
  rewrite ?frames_app, ?delivered_app, ?fmap_app, ?Hf;
  repeat split; try assumption; try reflexivity; try congruence.
Qed.

(** X12. An event session takes no request from its peer and starts no
    handler: whatever the moves, its queue of requests and its
    operations are empty, and every frame it hands to the socket is an
    event. *)
Theorem event_session_only_pushes (parameters : gmap string (list string)) (now : Z)
    (callback : bool) (moves : list (move F)) (s : PushSession F) :
  run moves (listen (newPushSession parameters now callback)) = Some s ->
  asked moves = [] /\ requests s = [] /\ operations s = [] /\
  frames (log s) = EventFrame <$> delivered (log s).
Proof.
intros Hrun.
assert (Hs : pushing s).
{ revert Hrun. apply (run_invariant _ pushing_step). repeat split. }
destruct Hs as (_ & Hq & Ho & _ & Hf). repeat split; try assumption.
assert (Hevent : forall (moves : list (move F)) (s0 : PushSession F),
          sType s0 = pushSessionTypeEvent -> is_Some (run moves s0) -> asked moves = []).
{ clear. intros moves. induction moves as [|m moves IH]; intros s0 Ht [s1 Hrun]; [reflexivity|].
  simpl in Hrun. destruct (step m s0) as [s2|] eqn:Hstep; [|discriminate].
  assert (Ht2 : sType s2 = pushSessionTypeEvent).
  { revert Hstep. clear -Ht. intros Hstep.
    destruct m; moves_of Hstep; branches; assumption. }
  change (m :: moves) with ([m] ++ moves). unfold asked. rewrite omap_app.
  fold (asked moves). rewrite (IH s2 Ht2 (ex_intro _ s1 Hrun)), app_nil_r.
  destruct m as [[| |r]| | | | | | | | | | |]; try reflexivity.
  unfold step in Hstep. rewrite Ht in Hstep. destruct (reader s0); discriminate. }
apply (Hevent moves (listen (newPushSession parameters now callback)) eq_refl).
exists s. exact Hrun.
Qed.

Lemma unfiltered_step (m : move F) (s s' : PushSession F) :
  unfiltered s -> step m s = Some s' -> unfiltered s'.
Proof.
intros Hs Hstep.
destruct m; moves_of Hstep; branches; destruct Hs as (Ht & Hq & Hf & Hh);
  unfold unfiltered; fields;
  try congruence;
  try (match goal with E : reader s = _ |- _ => exfalso; apply (Hh _ E) end);
  repeat split; try assumption; try discriminate.
Qed.

(** X13. An API session never installs a filter: its read loop reads
    requests and its control loop does not receive on [filters]. So the
    filter of the session stays nil, no event is filtered out, and the
    write loop hands to the socket every event that it takes. *)
Theorem api_session_never_filters (parameters : gmap string (list string)) (now : Z)
    (callback finder push : bool) (moves : list (move F)) (s : PushSession F) :
  run moves (listen (newAPISession parameters now callback finder push)) = Some s ->
  filter s = None /\ filters s = [] /\
  forall (e : Event) (ok : bool),
    suppressed s e = false /\
    (writer s = WriterHolds e ->
     exists s', step (WriterSend ok) s = Some s' /\
                log s' = log s ++ [ASend (EventFrame e) (ok && socketOpen s)]).
Proof.
intros Hrun.
assert (Hs : unfiltered s).
{ revert Hrun. apply (run_invariant _ unfiltered_step). repeat split. discriminate. }
destruct Hs as (_ & Hq & Hf & _). repeat split; try assumption.
- unfold suppressed. rewrite Hf. reflexivity.
- intros Hw. unfold step, writeEvent, currentFilter. rewrite Hw, Hf.
  destruct (ok && socketOpen s); eexists; split; reflexivity.
Qed.

Lemma handlerFor_known (operation : string) (op : apiOperation) :
  handlerFor operation = Some op -> operation ∈ knownOperations.
Proof.
unfold handlerFor, knownOperations.
repeat match goal with
       | |- context [String.eqb operation ?k] =>
           destruct (String.eqb_spec operation k) as [->|_]; [intros _; set_solver|]
       end.
discriminate.
Qed.

Lemma answered_answers (request : Request) (d : dispatched) (up : bool) :
  answered (answers request d up) =
    match d with
    | DispatchPanics None => []
    | _ => [request]
    end.
Proof. destruct d as [[v|]|ctx [err|]]; reflexivity. Qed.

Lemma serveRequest_backported (r : Request) (s : PushSession F) :
  serveRequest r s =
    match handlerFor (Operation r) with
    | Some op =>
        set_operations
          (operations s ++ [(op, backported (Get (Parameters s) "token") r)]) s
    | None => s
    end.
Proof. unfold serveRequest, backported. destruct (String.eqb _ ""); reflexivity. Qed.

(** A move adds to the requests answered or pending at most the request
    that the peer sends in it, and only if its operation is known. *)
Lemma pending_step (m : move F) (s s' : PushSession F) :
  step m s = Some s' ->
  Parameters s' = Parameters s /\
  answered (log s') ++ pending s' ⊆+
    (answered (log s) ++ pending s)
      ++ (backported (Get (Parameters s) "token") <$> List.filter dispatchable (asked [m])).
Proof.
intros Hstep.
destruct m; moves_of Hstep; rewrite ?serveRequest_backported; branches;
  (split; [reflexivity|]);
  unfold pending, heldRequest; fields;
  repeat match goal with
         | E : reader s = _ |- _ => rewrite E; clear E
         | E : requests s = _ |- _ => rewrite E; clear E
         end;
  cbn [asked omap mbind option_bind List.filter fmap list_fmap app Operation];
  rewrite <- ?app_assoc; cbn [app];
  rewrite ?answered_app, ?List.filter_app, ?fmap_app;
  cbn [answered omap List.filter fmap list_fmap app ResponseRequest];
  rewrite ?app_nil_r;
  try reflexivity;
  try match goal with
      | E : handlerFor (Operation ?r) = Some _ |- _ =>
          let Hd := fresh in
          assert (Hd : dispatchable r = true)
            by apply bool_decide_eq_true_2, (handlerFor_known _ _ E);
          rewrite Hd
      end;
  try match goal with
      | E : operations s !! ?i = Some _ |- _ =>
          let Hp := fresh in
          pose proof (fmap_Permutation snd _ _ (delete_Permutation _ _ _ E)) as Hp;
          rewrite fmap_cons in Hp; cbn [snd] in Hp;
          generalize dependent (snd <$> delete i (operations s));
          intros rest Hp; rewrite Hp
      end;
  repeat match goal with
         | |- context [if dispatchable ?r then _ else _] => destruct (dispatchable r)
         end;
  cbn [fmap list_fmap snd]; solve_submseteq.
Qed.

(** The requests answered or pending after a run are requests that the
    peer sent in it, each at most once. *)
Lemma pending_within_asked (moves : list (move F)) :
  forall s s' : PushSession F,
    run moves s = Some s' ->
    Parameters s' = Parameters s /\
    answered (log s') ++ pending s' ⊆+
      (answered (log s) ++ pending s)
        ++ (backported (Get (Parameters s) "token") <$> List.filter dispatchable (asked moves)).
Proof.
induction moves as [|m moves IH]; intros s s' Hrun; simpl in Hrun.
- injection Hrun as <-. rewrite app_nil_r. split; reflexivity.
- destruct (step m s) as [s1|] eqn:Hstep; [|discriminate].
  destruct (pending_step m s s1 Hstep) as [Hp1 H1].
  destruct (IH s1 s' Hrun) as [Hp2 H2]. split; [congruence|].
  etransitivity; [exact H2|]. rewrite Hp1.
  change (m :: moves) with ([m] ++ moves). unfold asked. rewrite omap_app.
  fold (asked [m]) (asked moves). rewrite List.filter_app, fmap_app, app_assoc.
  apply submseteq_app; [exact H1|reflexivity].
Qed.

(** X14. In an API session, the requests answered (by a response or
    by an error) and the requests that wait for their answer are,
    counted with their repetitions, among the requests that the peer
    sent with one of the seven operations, each with the token of the
    session put in: no answer is invented, and no request is answered
    twice. *)
Theorem answers_are_to_requests (parameters : gmap string (list string)) (now : Z)
    (callback finder push : bool) (moves : list (move F)) (s : PushSession F) :
  run moves (listen (newAPISession parameters now callback finder push)) = Some s ->
  answered (log s) ++ pending s ⊆+
    backported (Get parameters "token") <$> List.filter dispatchable (asked moves).
Proof.
intros Hrun. destruct (pending_within_asked moves _ s Hrun) as [_ H]. exact H.
Qed.

(** X15. When the peer opened the API session with a token, every
    request that a handler is started with or has answered carries
    [Bearer] as its user name and the token as its password, in place of
    what the peer sent; its identifier, operation and data are those of
    a request that the peer sent. *)
Theorem token_replaces_credentials (parameters : gmap string (list string)) (now : Z)
    (callback finder push : bool) (moves : list (move F)) (s : PushSession F)
    (request : Request) :
  Get parameters "token" <> "" ->
  run moves (listen (newAPISession parameters now callback finder push)) = Some s ->
  request ∈ answered (log s) ++ (snd <$> operations s) ->
  Username request = "Bearer" /\ Password request = Get parameters "token" /\
  exists sent, sent ∈ asked moves /\
    RequestID request = RequestID sent /\ Operation request = Operation sent /\
    Data request = Data sent.
Proof.
intros Ht Hrun Hin. destruct (pending_within_asked moves _ s Hrun) as [_ H].
simpl in H.
assert (Hin' : request ∈ answered (log s) ++ pending s).
{ unfold pending. rewrite !elem_of_app in *. tauto. }
apply (elem_of_submseteq _ _ _ Hin') in H.
apply list_elem_of_fmap in H as (sent & -> & Hsent).
apply list_elem_of_In, filter_In in Hsent as [Hsent _]. apply list_elem_of_In in Hsent.
unfold backported. destruct (String.eqb_spec (Get parameters "token") ""); [contradiction|].
repeat split. exists sent. repeat split. exact Hsent.
Qed.

(** X16. A handler that was started can always run, in any state of
    the session, and it returns having handed at most one frame to the
    socket, bound to its request: the response when the dispatcher
    returned without error, the error it returned, an error of code 500
    that carries the value of its panic when that value is not nil, and
    no frame at all when the dispatcher panicked with nil. Its request
    is answered at most once. *)
Theorem operation_always_answers (s : PushSession F) (i : nat) (ok : bool)
    (op : apiOperation) (request : Request) :
  operations s !! i = Some (op, request) ->
  exists (s' : PushSession F) (handed : list frame),
    step (RunOperation i ok) s = Some s' /\
    log s' = log s ++ ((fun f => ASend f (ok && socketOpen s)) <$> handed) /\
    frames (log s') = frames (log s) ++ handed /\
    operations s' = delete i (operations s) /\
    answered (log s') = answered (log s) ++ ((fun _ => request) <$> handed) /\
    handed =
      match dispatch op request (processorFinder s) (pushEventsFunc s) with
      | DispatchReturns ctx None => [ResponseFrame {| ResponseRequest := request |} ctx]
      | DispatchReturns _ (Some err) => [ErrorFrame {| ResponseRequest := request |} err]
      | DispatchPanics (Some v) =>
          [ErrorFrame {| ResponseRequest := request |}
             (NewError "Internal Server Error" v "bahamut" 500)]
      | DispatchPanics None => []
      end.
Proof.
intros Hop. unfold step. rewrite Hop, handler_answers. eexists.
exists (frames (answers request
                  (dispatch op request (processorFinder s) (pushEventsFunc s))
                  (ok && socketOpen s))).
split; [reflexivity|]. simpl.
rewrite frames_app, answered_app, answered_answers.
destruct (dispatch _ _ _ _) as [[v|]|ctx [err|]];
  (split; [|split; [|split; [|split]]]); reflexivity.
Qed.

(** A move keeps a session whose control loop runs or has returned in
    one of these two states. *)
Lemma living_step (m : move F) (s s' : PushSession F) :
  running s \/ returned s -> step m s = Some s' -> running s' \/ returned s'.
Proof.
intros Hs Hstep.
destruct m; moves_of Hstep; branches;
  destruct Hs as [[Hc Hu Hl Hr Hw Hso]|[Hc Hl [before [after Ha]] Hso Hf Hp Hu Hr Hw]];
  try congruence;
  first
    [ solve [left; constructor; fields;
             rewrite <- ?app_assoc, ?unregistrations_app, ?Hl;
             first [reflexivity|assumption|congruence]]
    | solve [right; constructor; fields;
             rewrite <- ?app_assoc, ?unregistrations_app, ?Hl;
             first
               [ reflexivity
               | assumption
               | congruence
               | exists before; eexists;
                 first [exact Ha|rewrite Ha, <- ?app_assoc; reflexivity]
               | exists (log s), []; reflexivity
               | match goal with
                 | |- _ \/ _ =>
                     first
                       [ left; congruence
                       | right; split; congruence
                       | destruct Hr as [Hr|[Hr Hr']];
                         first [left; congruence|right; split; congruence|congruence]
                       | destruct Hw as [Hw|[Hw Hw']];
                         first [left; congruence|right; split; congruence|congruence] ]
                 end ]] ].
Qed.

Lemma running_halts (s : PushSession F) (n : nat) :
  running s -> stopAll s = S n -> halts s (shutdown (set_stopAll n s)).
Proof.
intros [Hc Hu Hl Hr Hw Hso] Hn. unfold halts, step, shutdown. rewrite Hc, Hn. simpl.
rewrite Hu. simpl. rewrite Hr, Hw, <- !app_assoc, unregistrations_app, Hl.
repeat split.
Qed.

(** C8. Take a session of either role, created with its unregister
    callback, after any moves of its goroutines, of its peer and of its
    callers. Either the control loop still runs: the callback was not
    called, the socket is open and [stopRead] and [stopWrite] are empty.
    Then a signal on [stopAll] makes the control loop return, its
    deferred function putting one signal on [stopRead] and one on
    [stopWrite], calling the callback, for the first time, closing the
    socket and clearing the callbacks, in that order; and each cause
    of termination, when [stopAll] has room, puts such a signal: a call
    of [close], a receive that fails (an error, or the peer having
    closed the socket) and a send that fails. Or the control loop has
    returned: the callback was called exactly once, the socket is
    closed and the callbacks are cleared, the signals on [stopRead] and
    [stopWrite] are there for the loops that have not returned on
    them, and the control loop takes no further signal. *)
Theorem unregistered_exactly_once (role : pushSessionType)
    (parameters : gmap string (list string)) (now : Z) (finder push : bool)
    (moves : list (move F)) (s : PushSession F) :
  run moves (listen (newSession role parameters now true finder push)) = Some s ->
  (control s = ControlRunning /\ unregistrations (log s) = 0%nat /\
   stopRead s = 0%nat /\ stopWrite s = 0%nat /\ socketOpen s = true /\
   (stopAll s <> 0%nat -> exists s', halts s s') /\
   ((stopAll s < stopCapacity)%nat ->
    (exists s1 s', step Close s = Some s1 /\ halts s1 s') /\
    (reader s = ReaderReceiving ->
     exists s1 s',
       run [SocketReceive ReceiveError; SignalStopAll TheReader] s = Some s1 /\
       halts s1 s') /\
    (forall e, writer s = WriterHolds e -> filteredOut s e = false ->
     exists s1 s',
       run [WriterSend false; SignalStopAll TheWriter] s = Some s1 /\ halts s1 s'))) \/
  (control s = ControlReturned /\ unregistrations (log s) = 1%nat /\
   (exists before after, log s = (before ++ shutdownActions ++ after)%list) /\
   socketOpen s = false /\ processorFinder s = false /\ pushEventsFunc s = false /\
   unregisterFunc s = false /\
   (stopRead s = 1%nat \/ (stopRead s = 0%nat /\ reader s = ReaderReturned)) /\
   (stopWrite s = 1%nat \/ (stopWrite s = 0%nat /\ writer s = WriterReturned)) /\
   step ControlStopAll s = None).
Proof.
intros Hrun.
assert (Hs : running s \/ returned s).
{ revert Hrun. apply (run_invariant _ living_step). left. constructor; reflexivity. }
destruct Hs as [Hr|Hr]; [left|right].
- assert (Hhalts : forall s1 : PushSession F,
            running s1 -> stopAll s1 <> 0%nat -> exists s', halts s1 s').
  { intros s1 H1 Hn. destruct (stopAll s1) as [|n] eqn:E; [contradiction|].
    eexists. apply (running_halts s1 n H1 E). }
  pose proof Hr as [Hc Hu Hl Hsr Hsw Hso].
  split; [exact Hc|]. split; [exact Hl|]. split; [exact Hsr|]. split; [exact Hsw|].
  split; [exact Hso|]. split; [apply Hhalts, Hr|].
  intros Hroom. apply Nat.ltb_lt in Hroom. split; [|split].
  + eexists. 
    assert (H1 : step Close s =
                   Some (set_stopAll (S (stopAll s)) (record [ASignal ChanStopAll] s)))
      by (unfold step; rewrite Hroom; reflexivity).
    destruct (Hhalts (set_stopAll (S (stopAll s)) (record [ASignal ChanStopAll] s)))
      as [s' Hs']; [|discriminate|exists s'; split; [exact H1|exact Hs']].
    constructor; simpl; try assumption.
    rewrite unregistrations_app, Hl. reflexivity.
  + intros Hreader. eexists.
    assert (H1 : run [SocketReceive ReceiveError; SignalStopAll TheReader] s =
                   Some (set_reader ReaderReturned
                           (set_stopAll (S (stopAll s))
                              (record [ASignal ChanStopAll] (set_reader ReaderFailed s)))))
      by (unfold run, step; rewrite Hreader; simpl; rewrite Hroom; reflexivity).
    destruct (Hhalts (set_reader ReaderReturned
                        (set_stopAll (S (stopAll s))
                           (record [ASignal ChanStopAll] (set_reader ReaderFailed s)))))
      as [s' Hs']; [|discriminate|exists s'; split; [exact H1|exact Hs']].
    constructor; simpl; try assumption.
    rewrite unregistrations_app, Hl. reflexivity.
  + intros e Hwriter Hout. eexists.
    assert (H1 : run [WriterSend false; SignalStopAll TheWriter] s =
                   Some (set_writer WriterReturned
                           (set_stopAll (S (stopAll s))
                              (record [ASignal ChanStopAll]
                                 (set_writer WriterFailed
                                    (record [ASend (EventFrame e) false] s)))))).
    { unfold run, step. rewrite Hwriter. unfold writeEvent. fold (filteredOut s e).
      rewrite Hout. simpl. rewrite Hroom. destruct (reader s); reflexivity. }
    destruct (Hhalts (set_writer WriterReturned
                        (set_stopAll (S (stopAll s))
                           (record [ASignal ChanStopAll]
                              (set_writer WriterFailed
                                 (record [ASend (EventFrame e) false] s))))))
      as [s' Hs']; [|discriminate|exists s'; split; [exact H1|exact Hs']].
    constructor; simpl; try assumption.
    rewrite !unregistrations_app, Hl. reflexivity.
- destruct Hr as [Hc Hl Ha Hso Hf Hp Hu Hsr Hsw]. repeat split; try assumption.
  unfold step. rewrite Hc. reflexivity.
Qed.

(** *** A call of [DirectPush] and the session *)

Lemma startTime_step (m : move F) (s s' : PushSession F) :
  step m s = Some s' -> startTime s' = startTime s.
Proof. intros Hstep. destruct m; moves_of Hstep; branches; reflexivity. Qed.

(** The write loop that has returned stays so. *)
Lemma writer_returned_step (m : move F) (s s' : PushSession F) :
  writer s = WriterReturned -> step m s = Some s' -> writer s' = WriterReturned.
Proof.
intros Hw Hstep. destruct m; moves_of Hstep; branches; first [assumption|congruence].
Qed.

Lemma DirectPush_startTime (s s' : PushSession F) (events : list Event) :
  startTime s' = startTime s -> DirectPush s' events = DirectPush s events.
Proof.
intros E. induction events as [|e events IH]; simpl; [reflexivity|].
rewrite E, IH. reflexivity.
Qed.

Lemma DirectPush_app (s : PushSession F) (l l' : list Event) :
  DirectPush s (l ++ l') = DirectPush s l ++ DirectPush s l'.
Proof. rewrite !DirectPush_filter. apply List.filter_app. Qed.

Lemma others_app (l l' : list (turn F)) : others (l ++ l') = others l ++ others l'.
Proof. apply omap_app. Qed.

(** What one turn adds to the events sent by the call, and to the
    events delivered or held by the write loop. *)
Lemma turn_step_sends (t : turn F) (s s' : PushSession F) (c c' : pushCall) :
  turn_step t (s, c) = Some (s', c') ->
  startTime s' = startTime s /\
  exists looked,
    remaining c = looked ++ remaining c' /\
    sent c' = sent c ++ DirectPush s looked /\
    sublist (delivered (log s') ++ held s')
      ((delivered (log s) ++ held s) ++ DirectPush s looked ++ others [t]).
Proof.
destruct t as [|m]; unfold turn_step; cbn [fst snd].
- unfold DirectPush_step. destruct (remaining c) as [|e events] eqn:Hr; [discriminate|].
  destruct (Before (Timestamp e) (startTime s)) eqn:Hb.
  + intros E. injection E as <- <-. split; [reflexivity|]. exists [e].
    cbn [DirectPush remaining sent app]. rewrite Hb, !app_nil_r.
    split; [reflexivity|]. split; reflexivity.
  + destruct (step (EventsSend e) s) as [s1|] eqn:Hstep; [|discriminate].
    intros E. injection E as <- <-. split; [apply (startTime_step _ _ _ Hstep)|].
    exists [e]. cbn [DirectPush remaining sent app]. rewrite Hb.
    split; [reflexivity|]. split; [reflexivity|].
    rewrite app_nil_r. apply (step_delivers _ _ _ Hstep).
- destruct (step m s) as [s1|] eqn:Hstep; [|discriminate].
  intros E. injection E as <- <-. split; [apply (startTime_step _ _ _ Hstep)|].
  exists []. cbn [DirectPush app]. rewrite app_nil_r.
  split; [reflexivity|]. split; [reflexivity|]. apply (step_delivers _ _ _ Hstep).
Qed.

(** What the turns add: the call sends the events that it goes through
    and that do not predate the session, in their order; what the
    write loop delivers or holds comes, in order, from these events and
    from those of the other callers. *)
Lemma run_turns_sends (turns : list (turn F)) :
  forall (s s' : PushSession F) (c c' : pushCall),
    run_turns turns (s, c) = Some (s', c') ->
    startTime s' = startTime s /\
    exists looked merged,
      remaining c = looked ++ remaining c' /\
      sent c' = sent c ++ DirectPush s looked /\
      sublist (delivered (log s') ++ held s') ((delivered (log s) ++ held s) ++ merged) /\
      (others turns = [] -> merged = DirectPush s looked) /\
      (forall e, e ∈ merged -> e ∈ DirectPush s looked \/ e ∈ others turns).
Proof.
induction turns as [|t turns IH]; intros s s' c c' Hrun; simpl in Hrun.
- injection Hrun as <- <-. split; [reflexivity|]. exists [], [].
  cbn [DirectPush]. rewrite !app_nil_r.
  split; [reflexivity|]. split; [reflexivity|]. split; [reflexivity|].
  split; [reflexivity|]. intros e He. left. exact He.
- destruct (turn_step t (s, c)) as [[s1 c1]|] eqn:Hstep; [|discriminate].
  destruct (turn_step_sends t s s1 c c1 Hstep) as (Hstart1 & looked1 & Hr1 & Hs1 & Hd1).
  destruct (IH s1 s' c1 c' Hrun) as (Hstart2 & looked2 & merged2 & Hr2 & Hs2 & Hd2 & Hm2 & He2).
  split; [congruence|].
  exists (looked1 ++ looked2), ((DirectPush s looked1 ++ others [t]) ++ merged2).
  rewrite DirectPush_app, <- (DirectPush_startTime s s1 looked2 Hstart1).
  split; [rewrite Hr1, Hr2, app_assoc; reflexivity|].
  split; [rewrite Hs2, Hs1, app_assoc; reflexivity|].
  split; [|split].
  + etransitivity; [exact Hd2|]. rewrite (app_assoc _ _ merged2).
    apply sublist_app; [exact Hd1|reflexivity].
  + change (t :: turns) with ([t] ++ turns). rewrite others_app.
    intros Hnone. apply app_eq_nil in Hnone as [Hn1 Hn2].
    rewrite Hn1, app_nil_r, (Hm2 Hn2). reflexivity.
  + change (t :: turns) with ([t] ++ turns). rewrite others_app.
    intros e. rewrite !elem_of_app. intros [[He|He]|He]; [tauto|tauto|].
    destruct (He2 e He); tauto.
Qed.

(** While the write loop is in its [select] and the socket is open, the
    call can go to its end: the write loop taking each event in turn,
    every event left that does not predate the session is sent. *)
Lemma DirectPush_completes (events : list Event) :
  forall (s : PushSession F) (sofar : list Event),
    writer s = WriterSelecting -> socketOpen s = true ->
    exists turns s' c',
      run_turns turns (s, {| remaining := events; sent := sofar |}) = Some (s', c') /\
      remaining c' = [] /\ sent c' = sofar ++ DirectPush s events /\ others turns = [].
Proof.
induction events as [|e events IH]; intros s sofar Hw Hso.
- exists [], s, {| remaining := []; sent := sofar |}. cbn [DirectPush]. rewrite app_nil_r.
  repeat split.
- cbn [DirectPush]. destruct (Before (Timestamp e) (startTime s)) eqn:Hb.
  + destruct (IH s sofar Hw Hso) as (turns & s' & c' & Hrun & Hr & Hs & Ho).
    exists (CallerTurn :: turns), s', c'. split; [|repeat split; assumption].
    cbn [run_turns turn_step fst snd]. unfold DirectPush_step. cbn [remaining sent].
    rewrite Hb. exact Hrun.
  + set (s1 := writeEvent true e (set_writer (WriterHolds e) s)).
    assert (H1 : writer s1 = WriterSelecting /\ socketOpen s1 = true /\
                 startTime s1 = startTime s).
    { unfold s1, writeEvent.
      destruct (match currentFilter _ with Some _ => _ | None => _ end);
        cbn [set_writer socketOpen writer startTime record set_log log];
        rewrite ?Hso; cbn [andb]; repeat split; try reflexivity; exact Hso. }
    destruct H1 as (Hw1 & Hso1 & Hst1).
    destruct (IH s1 (sofar ++ [e]) Hw1 Hso1) as (turns & s' & c' & Hrun & Hr & Hs & Ho).
    exists (CallerTurn :: SessionTurn (WriterSend true) :: turns), s', c'.
    split; [|split; [exact Hr|split; [|exact Ho]]].
    * cbn [run_turns turn_step fst snd]. unfold DirectPush_step. cbn [remaining sent].
      rewrite Hb. unfold step at 1. rewrite Hw. cbn [fst snd].
      unfold step at 1. cbn [writer set_writer]. exact Hrun.
    * rewrite Hs, (DirectPush_startTime s s1 events Hst1), <- app_assoc. reflexivity.
Qed.

(** Once the write loop has returned, no turn makes the call send. *)
Lemma writer_returned_blocks (turns : list (turn F)) :
  forall (s s' : PushSession F) (c c' : pushCall),
    writer s = WriterReturned ->
    run_turns turns (s, c) = Some (s', c') ->
    writer s' = WriterReturned /\ sent c' = sent c.
Proof.
induction turns as [|t turns IH]; intros s s' c c' Hw Hrun; simpl in Hrun.
- injection Hrun as <- <-. split; [exact Hw|reflexivity].
- destruct t as [|m]; unfold turn_step in Hrun; cbn [fst snd] in Hrun.
  + unfold DirectPush_step in Hrun. destruct (remaining c) as [|e events]; [discriminate|].
    destruct (Before (Timestamp e) (startTime s)).
    * apply (IH _ _ _ _ Hw) in Hrun. exact Hrun.
    * unfold step in Hrun. rewrite Hw in Hrun. discriminate.
  + destruct (step m s) as [s1|] eqn:Hstep; [|discriminate].
    apply (IH _ _ _ _ (writer_returned_step m s s1 Hw Hstep)) in Hrun. exact Hrun.
Qed.


End SessionInvariants.

(** ** The health check *)

Section HealthProperties.

Import Health.

Lemma health_lookup (timeout : Z) (finished : list (string * Pinger)) :
  NoDup (finished.*1) ->
  forall (results : gmap string string) (name : string),
    fold_left
      (fun results '(name, pinger) => <[name := stringifyStatus (pinger timeout)]> results)
      finished results !! name =
    match (list_to_map finished : gmap string Pinger) !! name with
    | Some pinger => Some (stringifyStatus (pinger timeout))
    | None => results !! name
    end.
Proof.
induction finished as [|[n p] finished IH]; intros Hnd results name; [reflexivity|].
rewrite fmap_cons in Hnd. apply NoDup_cons in Hnd as [Hn Hnd].
cbn [fold_left]. rewrite (IH Hnd), list_to_map_cons.
destruct (decide (name = n)) as [->|Hne].
- rewrite (not_elem_of_list_to_map_1 finished n Hn), !lookup_insert_eq. reflexivity.
- rewrite (lookup_insert_ne (list_to_map finished)) by congruence.
  destruct (list_to_map finished !! name); [reflexivity|].
  apply lookup_insert_ne. congruence.
Qed.

(** X17. In whatever order the goroutines finish, the map returned
    has exactly the names of the pingers, each with the status of its
    own pinger: [ok] when the ping returned no error, [timeout] when the
    message of its error is [timeout], [error] otherwise. *)
Theorem health_of_every_pinger (timeout : Z) (pingers : gmap string Pinger)
    (finished : list (string * Pinger)) :
  finished ≡ₚ map_to_list pingers ->
  RetrieveHealthStatus timeout finished =
    (fun pinger : Pinger => stringifyStatus (pinger timeout)) <$> pingers /\
  forall name status,
    RetrieveHealthStatus timeout finished !! name = Some status ->
    is_Some (pingers !! name) /\
    (status = PingStatusOK \/ status = PingStatusTimeout \/ status = PingStatusError).
Proof.
intros Hperm.
assert (Hnd : NoDup (finished.*1)).
{ rewrite Hperm. apply NoDup_fst_map_to_list. }
assert (Hmap : (list_to_map finished : gmap string Pinger) = pingers).
{ rewrite <- (list_to_map_to_list pingers). apply list_to_map_proper; assumption. }
assert (Heq : RetrieveHealthStatus timeout finished =
              (fun pinger : Pinger => stringifyStatus (pinger timeout)) <$> pingers).
{ apply map_eq. intros name. unfold RetrieveHealthStatus.
  rewrite (health_lookup timeout finished Hnd), Hmap, lookup_fmap, lookup_empty.
  destruct (pingers !! name); reflexivity. }
split; [exact Heq|]. intros name status. rewrite Heq, lookup_fmap.
destruct (pingers !! name) as [pinger|]; [|discriminate].
intros E. injection E as <-. split; [eexists; reflexivity|].
unfold stringifyStatus. destruct (pinger timeout) as [msg|]; [|tauto].
destruct (String.eqb msg PingStatusTimeout); tauto.
Qed.

End HealthProperties.

(** ** The context and the HTTP responses *)

Section RestProperties.

Import Rest.

Context {D : Type} {paging : Paging} {encoder : Encoder D} {elemental : Elemental}
  {elemental_spec : ElementalSpec}.

Lemma statusFor_nonzero (c : Context D) : statusFor c <> 0.
Proof.
unfold statusFor. destruct (Z.eqb_spec (StatusCode c) 0); [|assumption].
destruct (String.eqb _ _); [discriminate|]. destruct (String.eqb _ _); discriminate.
Qed.

Lemma lookup_HeaderSet (key value key' : string) (w : ResponseWriter) :
  Header (HeaderSet key value w) !! key' =
    if String.eqb key' key then Some [value] else Header w !! key'.
Proof.
unfold HeaderSet. cbn [Header]. destruct (String.eqb_spec key' key) as [->|Hne].
- apply lookup_insert_eq.
- apply lookup_insert_ne. congruence.
Qed.

Lemma setCommonHeader_origin (w : ResponseWriter) (origin : string) :
  Header (setCommonHeader w origin) !! "Access-Control-Allow-Origin"
    = Some [allowedOrigin origin].
Proof. unfold setCommonHeader. rewrite !lookup_HeaderSet. reflexivity. Qed.

Lemma setCommonHeader_X (w : ResponseWriter) (origin : string) (rest : string) :
  Header (setCommonHeader w origin) !! String "X" rest = Header w !! String "X" rest.
Proof. unfold setCommonHeader. rewrite !lookup_HeaderSet. reflexivity. Qed.

Lemma calls_setCommonHeader (w : ResponseWriter) (origin : string) :
  calls (setCommonHeader w origin) = calls w.
Proof. reflexivity. Qed.

(** X18. [WriteResponse] either fails to encode the output and then
    returns the error of the encoder without having written a status
    line or a byte, or writes exactly one status line, followed by the
    encoded output when there is one, and returns what the write
    returned. The status written is the status code of the context, or
    when that is zero 201 for a creation, 204 for an info and 200 for
    any other operation; it is never zero, and the context keeps it. *)
Theorem WriteResponse_all_or_nothing (c : Context D) (w : ResponseWriter)
    (failing : option string) :
  let '(err, c', w') := WriteResponse c w failing in
  StatusCode c' = statusFor c /\ statusFor c <> 0 /\
  ((exists data e,
      OutputData c = Some data /\ Encode data = inl e /\
      err = Some e /\ calls w' = calls w) \/
   (match OutputData c with
    | Some data => Encode data = inr ""
    | None => True
    end /\
    err = None /\ calls w' = calls w ++ [CallWriteHeader (statusFor c)]) \/
   (exists data buffer,
      OutputData c = Some data /\ Encode data = inr buffer /\ buffer <> "" /\
      err = failing /\
      calls w' = calls w ++ [CallWriteHeader (statusFor c); CallWrite buffer])).
Proof.
pose proof (statusFor_nonzero c) as Hnz.
unfold WriteResponse.
set (w1 := setCommonHeader w _).
set (c1 := if StatusCode c =? 0 then _ else c).
assert (Hc1 : StatusCode c1 = statusFor c /\ OutputData c1 = OutputData c).
{ subst c1. unfold statusFor. destruct (StatusCode c =? 0); [|split; reflexivity].
  destruct (String.eqb _ _); [split; reflexivity|].
  destruct (String.eqb _ _); split; reflexivity. }
destruct Hc1 as [Hcode Hout].
destruct (if _ || _ then _ else (c1, w1)) as [c2 w2] eqn:E2.
assert (H2 : StatusCode c2 = statusFor c /\ OutputData c2 = OutputData c /\
             calls w2 = calls w).
{ destruct (_ || _); injection E2 as <- <-.
  - repeat split; try assumption.
    destruct (String.eqb _ ""), (String.eqb _ ""); reflexivity.
  - repeat split; assumption. }
destruct H2 as (Hcode2 & Hout2 & Hcalls2). rewrite Hout2. clear E2 Hout Hcode.
destruct (OutputData c) as [data|].
- destruct (Encode data) as [e|buffer] eqn:Hdata.
  + split; [exact Hcode2|]. split; [exact Hnz|]. left. exists data, e. repeat split; assumption.
  + destruct (String.eqb_spec buffer "") as [->|Hne];
      (split; [exact Hcode2|]); (split; [exact Hnz|]).
    * right. left. split; [reflexivity|]. split; [reflexivity|].
      simpl. rewrite Hcalls2, Hcode2. reflexivity.
    * right. right. exists data, buffer. repeat split; try assumption.
      simpl. rewrite Hcalls2, Hcode2, <- app_assoc. reflexivity.
- simpl. split; [exact Hcode2|]. split; [exact Hnz|].
  right. left. repeat split. rewrite Hcalls2, Hcode2. reflexivity.
Qed.

(** X19. [WriteResponse] always allows the origin of the request, or
    any origin when the request names none. For the operations
    [retrieve-many] and [info] it computes the page and sets the page
    and count headers from it; the links to the previous and next pages
    are set only when they are not empty, so that a link the writer had
    already stays. For every other operation the page is left as it was
    and no header but the common ones is set. *)
Theorem WriteResponse_pagination (c : Context D) (w : ResponseWriter)
    (failing : option string) :
  let '(_, c', w') := WriteResponse c w failing in
  let origin := Session.Get (Info.Headers (Info c)) "Origin" in
  Header w' !! "Access-Control-Allow-Origin" = Some [allowedOrigin origin] /\
  if paged (Operation c) then
    let page :=
      compute (Page c) (Info.BaseRawURL (Info c)) (Info.Parameters (Info c))
        (Count.Total (Count c)) in
    Page c' = page /\
    Header w' !! "X-Page-Current" = Some [Itoa (Page.Current page)] /\
    Header w' !! "X-Page-Size" = Some [Itoa (Page.Size page)] /\
    Header w' !! "X-Page-First" = Some [Page.First page] /\
    Header w' !! "X-Page-Last" = Some [Page.Last page] /\
    Header w' !! "X-Page-Prev" =
      (if String.eqb (Page.Prev page) "" then Header w !! "X-Page-Prev"
       else Some [Page.Prev page]) /\
    Header w' !! "X-Page-Next" =
      (if String.eqb (Page.Next page) "" then Header w !! "X-Page-Next"
       else Some [Page.Next page]) /\
    Header w' !! "X-Count-Local" = Some [Itoa (Count.Current (Count c))] /\
    Header w' !! "X-Count-Total" = Some [Itoa (Count.Total (Count c))]
  else
    Page c' = Page c /\ Header w' = Header (setCommonHeader w origin).
Proof.
unfold WriteResponse.
set (w1 := setCommonHeader w _).
set (c1 := if StatusCode c =? 0 then _ else c).
assert (Hc1 : Operation c1 = Operation c /\ Page c1 = Page c /\ Info c1 = Info c /\
              Count c1 = Count c).
{ subst c1. destruct (StatusCode c =? 0); [|repeat split].
  destruct (String.eqb _ _); [repeat split|].
  destruct (String.eqb _ _); repeat split. }
destruct Hc1 as (Hop & Hpage & Hinfo & Hcount). rewrite Hop, Hpage, Hinfo, Hcount.
fold (paged (Operation c)).
set (page := compute _ _ _ _).
assert (Hfinish : forall (c2 : Context D) (w2 : ResponseWriter) (P : Context D -> ResponseWriter -> Prop),
          (forall w3, Header w3 = Header w2 -> P c2 w3) ->
          let '(_, c', w') :=
            match match OutputData c2 with Some data => Encode data | None => inr "" end with
            | inl err => (Some err, c2, w2)
            | inr buffer =>
                if String.eqb buffer ""
                then (None, c2, WriteHeader (StatusCode c2) w2)
                else (failing, c2, Write buffer (WriteHeader (StatusCode c2) w2))
            end in P c' w').
{ intros c2 w2 P HP.
  destruct (match OutputData c2 with Some _ => _ | None => _ end) as [e|buffer];
    [|destruct (String.eqb buffer "")]; apply HP; reflexivity. }
destruct (paged (Operation c)).
- apply (Hfinish _ _ (fun c' w' => _ /\ _)). intros w3 ->.
  cbn [Page set_Page Count]. rewrite Hcount.
  destruct (String.eqb (Page.Next page) ""), (String.eqb (Page.Prev page) "");
    repeat split; rewrite !lookup_HeaderSet;
    cbv beta iota fix delta [String.eqb Ascii.eqb Bool.eqb];
    first [reflexivity | apply setCommonHeader_origin | apply setCommonHeader_X].
- apply (Hfinish _ _ (fun c' w' => _ /\ _)). intros w3 ->.
  repeat split; try assumption. apply setCommonHeader_origin.
Qed.

(** X20. [WriteHTTPError] sets the common headers, allowing the origin
    given or any origin when none is given, writes one status line, then
    at most one body: the status is the code of the error for an
    [elemental.Error], the code of the errors for an [elemental.Errors],
    and 500 for any other error. *)
Theorem WriteHTTPError_status (w : ResponseWriter) (origin : string) (err : error) :
  let w' := WriteHTTPError w origin err in
  let code :=
    match err with
    | AnError e => Session.Code e
    | SomeErrors es => ErrorsCode es
    | OtherError _ => 500
    end in
  Header w' = Header (setCommonHeader w origin) /\
  Header w' !! "Access-Control-Allow-Origin" = Some [allowedOrigin origin] /\
  exists body, calls w' = calls w ++ CallWriteHeader code :: body /\
    (body = [] \/ exists data, body = [CallWrite data]).
Proof.
intros w' code. subst w'. unfold WriteHTTPError.
set (outError := match err with AnError e => _ | SomeErrors e => e | OtherError msg => _ end).
assert (Hcode : ErrorsCode outError = code).
{ subst outError code. destruct err as [e|es|msg]; [apply ErrorsCode_one|reflexivity|].
  rewrite ErrorsCode_one. reflexivity. }
rewrite Hcode.
destruct (EncodeErrors outError) as [e|data]; cbn [Header calls Write WriteHeader];
  (split; [reflexivity|]);
  (split; [apply setCommonHeader_origin|]).
- exists []. split; [reflexivity|left; reflexivity].
- exists [CallWrite data]. rewrite <- app_assoc. split; [reflexivity|right; eexists; reflexivity].
Qed.

(** X21. After any calls of [EnqueueEvents], the events of a context
    are the events it had followed by the events enqueued, in the order
    of the calls; [HasEvents] tells whether there is one; [SetEvents]
    replaces them all; and the status code, the output and the
    identifier of the context are untouched. *)
Theorem events_in_enqueueing_order (c : Context D) (batches : list (list Session.Event)) :
  let c' := fold_left (fun c evts => EnqueueEvents evts c) batches c in
  Events c' = Events c ++ concat batches /\
  (HasEvents c' = true <-> Events c ++ concat batches <> []) /\
  (forall evts, Events (SetEvents evts c') = evts) /\
  StatusCode c' = StatusCode c /\ OutputData c' = OutputData c /\
  Identifier c' = Identifier c.
Proof.
intros c'. subst c'.
assert (H : Events (fold_left (fun c evts => EnqueueEvents evts c) batches c)
            = Events c ++ concat batches /\
            StatusCode (fold_left (fun c evts => EnqueueEvents evts c) batches c) = StatusCode c /\
            OutputData (fold_left (fun c evts => EnqueueEvents evts c) batches c) = OutputData c /\
            Identifier (fold_left (fun c evts => EnqueueEvents evts c) batches c) = Identifier c).
{ revert c. induction batches as [|evts batches IH]; intros c.
  - simpl. rewrite app_nil_r. repeat split.
  - cbn [fold_left concat]. destruct (IH (EnqueueEvents evts c)) as (E & S & O & I).
    rewrite E, S, O, I. unfold Events, EnqueueEvents. simpl. rewrite <- app_assoc.
    repeat split. }
destruct H as (E & S & O & I). repeat split; try assumption.
- unfold HasEvents. fold (Events (fold_left (fun c evts => EnqueueEvents evts c) batches c)).
  rewrite E. intros Hlt Hnil. rewrite Hnil in Hlt. discriminate.
- unfold HasEvents. fold (Events (fold_left (fun c evts => EnqueueEvents evts c) batches c)).
  rewrite E. destruct (Events c ++ concat batches); [contradiction|reflexivity].
Qed.

End RestProperties.

(** ** The Kafka publisher and the models *)

Section KafkaProperties.

Import Kafka.

Context {P : Type}.

(** X22. After [Disconnect] the publisher has no producer: [Publish]
    returns the error [Not connected to kafka. Messages dropped.] and
    sends nothing, and a second [Disconnect] does nothing. The producer
    is closed once, if there was one. A publisher that was never
    connected publishes nothing either. *)
Theorem disconnected_publishes_nothing (p : kafkaPubSub P) (publication : Publication)
    (failing : option string) :
  let q := Disconnect p in
  producer q = None /\
  Publish q publication failing = (Some "Not connected to kafka. Messages dropped.", q) /\
  Disconnect q = q /\
  log q = log p ++ match producer p with Some prod => [Closed prod] | None => [] end /\
  Publish (newKafkaPubSub (P := P) (services p)) publication failing =
    (Some "Not connected to kafka. Messages dropped.", newKafkaPubSub (services p)).
Proof.
intros q. subst q. unfold Disconnect, Publish.
destruct (producer p) as [prod|] eqn:Hp; simpl; rewrite ?Hp, ?app_nil_r; repeat split.
Qed.

(** X23. When the goroutine of [Connect] reports on [connected], it
    has sent nothing and closed nothing. It reports [true] exactly when
    the publisher has a producer afterwards, and [Publish] then sends:
    this producer is the one the publisher had, the publisher being
    left as it was, or else the one of the first attempt that
    succeeded, every attempt before it having failed and been
    retried. It reports [false] only at the
    first attempt that failed and was followed by the abort, the
    attempts before it having failed and been retried, the publisher
    being as before, without a producer. While it reports nothing,
    every attempt has failed. *)
Theorem Connect_reports (p q : kafkaPubSub P) (attempts : list (attempt P))
    (report : option bool) :
  Connect p attempts = (q, report) ->
  log q = log p /\ services q = services p /\ retryInterval q = retryInterval p /\
  match report with
  | Some true =>
      (exists prod, producer q = Some prod /\
         ((producer p = Some prod /\ q = p) \/
          (producer p = None /\
           exists retried rest,
             attempts = retried ++ Created prod :: rest /\
             Forall (fun a => a = Failed false) retried))) /\
      forall publication failing,
        exists prod,
          producer q = Some prod /\
          Publish q publication failing =
            (failing,
             {| services := services q; producer := producer q;
                retryInterval := retryInterval q;
                log := log q ++ [Sent prod (Topic publication) (data publication)] |})
  | Some false =>
      q = p /\ producer p = None /\
      exists retried rest,
        attempts = retried ++ Failed true :: rest /\
        Forall (fun a => a = Failed false) retried
  | None => q = p /\ producer p = None /\ Forall (fun a => a = Failed false) attempts
  end.
Proof.
assert (Hconnected : forall (p : kafkaPubSub P) (prod : P),
          producer p = Some prod ->
          forall publication failing,
            exists prod,
              producer p = Some prod /\
              Publish p publication failing =
                (failing,
                 {| services := services p; producer := producer p;
                    retryInterval := retryInterval p;
                    log := log p ++ [Sent prod (Topic publication) (data publication)] |})).
{ intros p0 prod Hp publication failing. exists prod. unfold Publish. rewrite Hp.
  split; reflexivity. }
assert (Hhad : forall (p : kafkaPubSub P) (prod : P),
          producer p = Some prod ->
          forall attempts, Connect p attempts = (p, Some true)).
{ intros p0 prod Hp [|a l]; simpl; rewrite Hp; reflexivity. }
destruct (producer p) as [prod|] eqn:Hp.
- rewrite (Hhad p prod Hp). intros E. injection E as <- <-.
  split; [reflexivity|]. split; [reflexivity|]. split; [reflexivity|].
  split; [|apply (Hconnected p prod Hp)].
  exists prod. split; [exact Hp|left; split; reflexivity].
- revert q report. induction attempts as [|a attempts IH]; intros q report; simpl; rewrite Hp.
  + intros E. injection E as <- <-.
    split; [reflexivity|]. split; [reflexivity|]. split; [reflexivity|].
    split; [reflexivity|]. split; [reflexivity|constructor].
  + destruct a as [prod|[|]].
    * intros E. injection E as <- <-.
      split; [reflexivity|]. split; [reflexivity|]. split; [reflexivity|].
      split; [|apply (Hconnected _ prod); reflexivity].
      exists prod. split; [reflexivity|]. right. split; [reflexivity|].
      exists [], attempts. split; [reflexivity|constructor].
    * intros E. injection E as <- <-.
      split; [reflexivity|]. split; [reflexivity|]. split; [reflexivity|].
      split; [reflexivity|]. split; [reflexivity|].
      exists [], attempts. split; [reflexivity|constructor].
    * intros E. destruct (IH q report E) as (Hl & Hs & Hi & Hr).
      split; [exact Hl|]. split; [exact Hs|]. split; [exact Hi|].
      destruct report as [[|]|].
      -- destruct Hr as [(prod & Hq & Hfrom) Hpub]. split; [|exact Hpub].
         exists prod. split; [exact Hq|]. right. split; [reflexivity|].
         destruct Hfrom as [[Hfrom _]|(_ & retried & rest & Hsplit & Hall)];
           [discriminate|].
         exists (Failed false :: retried), rest. split; [rewrite Hsplit; reflexivity|].
         constructor; [reflexivity|exact Hall].
      -- destruct Hr as (Hq & _ & retried & rest & Hsplit & Hall).
         split; [exact Hq|]. split; [reflexivity|].
         exists (Failed false :: retried), rest. split; [rewrite Hsplit; reflexivity|].
         constructor; [reflexivity|exact Hall].
      -- destruct Hr as (Hq & _ & Hall). split; [exact Hq|]. split; [reflexivity|].
         constructor; [reflexivity|exact Hall].
Qed.

Lemma forward_in_order (topic : string) (received : list (option string)) :
  exists (values : list string) (closed : bool),
    forward topic received =
      (Forwarded <$> ((fun value => {| Topic := topic; data := value |}) <$> values))
        ++ (if closed then [ChannelClosed] else []) /\
    values `prefix_of` omap id received /\
    (closed = true -> None ∈ received).
Proof.
induction received as [|[value|] received IH].
- exists [], false. split; [reflexivity|]. split; [reflexivity|discriminate].
- destruct IH as (values & closed & Hf & Hp & Hc).
  exists (value :: values), closed. cbn [forward]. rewrite Hf. split; [reflexivity|].
  split; [apply prefix_cons, Hp|]. intros E. right. apply Hc, E.
- exists [], true. split; [reflexivity|]. split; [apply prefix_nil|]. intros _. left.
Qed.

(** X26. What the goroutine of [Subscribe] sends on the channel of the
    subscriber are publications of the topic subscribed, whose values
    are the first messages of the partition, in their order. It closes
    the channel once at most, after its last send, and only when it
    received the unsubscription. *)
Theorem Subscribe_forwards_in_order {C : Type} (topic : string)
    (attempts : list (attempt C)) (received : list (option string)) :
  exists (values : list string) (closed : bool),
    Subscribe topic attempts received =
      (Forwarded <$> ((fun value => {| Topic := topic; data := value |}) <$> values))
        ++ (if closed then [ChannelClosed] else []) /\
    values `prefix_of` omap id received /\
    (closed = true -> Failed true ∈ attempts \/ None ∈ received).
Proof.
induction attempts as [|[consumer|[|]] attempts IH].
- exists [], false. split; [reflexivity|]. split; [apply prefix_nil|discriminate].
- destruct (forward_in_order topic received) as (values & closed & Hf & Hp & Hc).
  exists values, closed. split; [exact Hf|]. split; [exact Hp|].
  intros E. right. apply Hc, E.
- exists [], true. split; [reflexivity|]. split; [apply prefix_nil|]. intros _. left. left.
- destruct IH as (values & closed & Hs & Hp & Hc).
  exists values, closed. split; [exact Hs|]. split; [exact Hp|].
  intros E. destruct (Hc E) as [Hin|Hin]; [left; right; exact Hin|right; exact Hin].
Qed.

End KafkaProperties.

Section ModelProperties.

Import Models.

Context {validators : Validators} {validators_spec : ValidatorsSpec}.

Lemma errorsOrNil_nil (errors : list Session.Error) :
  errorsOrNil errors = None <-> errors = [].
Proof. unfold errorsOrNil. destruct errors; simpl; split; congruence. Qed.

Lemma appendError_nil (errors : list Session.Error) (err : option Session.Error) :
  appendError errors err = [] <-> errors = [] /\ err = None.
Proof.
unfold appendError. destruct err as [e|].
- split; [intros E; apply app_eq_nil in E as [_ E]; discriminate|intros [_ E]; discriminate].
- tauto.
Qed.

Lemma length_appendError (errors : list Session.Error) (err : option Session.Error) :
  length (appendError errors err) =
    (length errors + match err with Some _ => 1 | None => 0 end)%nat.
Proof. unfold appendError. destruct err; rewrite ?length_app; simpl; lia. Qed.

(** X24. With validators that reject exactly the empty required
    string: a [List] validates exactly when its [creationOnly], [name]
    and [readOnly] are not empty, whatever its other fields hold; when
    it does not, [Validate] returns one error for each of the three that
    is empty; and the list that [NewList] returns does not validate. *)
Theorem List_valid_when_required_set (o : List.t) :
  (ValidateList o = None <->
   List.CreationOnly o <> "" /\ List.Name o <> "" /\ List.ReadOnly o <> "") /\
  (forall errors, ValidateList o = Some errors ->
     length errors =
       ((if String.eqb (List.CreationOnly o) "" then 1 else 0)
        + (if String.eqb (List.Name o) "" then 1 else 0)
        + (if String.eqb (List.ReadOnly o) "" then 1 else 0))%nat) /\
  ValidateList NewList <> None.
Proof.
assert (Hnil : ValidateList o = None <->
               List.CreationOnly o <> "" /\ List.Name o <> "" /\ List.ReadOnly o <> "").
{ unfold ValidateList. rewrite errorsOrNil_nil, !appendError_nil, !ValidateRequiredString_nil.
  tauto. }
assert (Hreq : forall a v,
          match ValidateRequiredString a v with Some _ => 1 | None => 0 end%nat =
          (if String.eqb v "" then 1 else 0)%nat).
{ intros a v. pose proof (ValidateRequiredString_nil a v) as [Hv1 Hv2].
  destruct (ValidateRequiredString a v), (String.eqb_spec v ""); try reflexivity.
  - specialize (Hv2 ltac:(assumption)). discriminate.
  - exfalso. apply Hv1; [reflexivity|assumption]. }
split; [exact Hnil|]. split.
- unfold ValidateList, errorsOrNil. intros errors.
  destruct (0 <? _)%nat; [|discriminate]. intros E. injection E as <-.
  rewrite !length_appendError, !Hreq. reflexivity.
- intros E. unfold ValidateList in E. rewrite errorsOrNil_nil, !appendError_nil in E.
  destruct E as [[_ E] _]. apply ValidateRequiredString_nil in E. apply E. reflexivity.
Qed.

(** X25. With validators that reject exactly an empty required
    string and a value that is not in the list: a [Task] validates
    exactly when it has a name and its status is [DONE], [PROGRESS] or
    [TODO]; so the task that [NewTask] returns validates as soon as it
    is given a name. *)
Theorem Task_valid_when_named (o : Task.t) :
  (ValidateTask o = None <->
   Task.Name o <> "" /\
   (Task.Status o = TaskStatusDone \/ Task.Status o = TaskStatusProgress \/
    Task.Status o = TaskStatusTodo)) /\
  (forall name, name <> "" ->
     ValidateTask {| Task.ID := Task.ID NewTask; Task.Description := Task.Description NewTask;
                     Task.Name := name; Task.ParentID := Task.ParentID NewTask;
                     Task.ParentType := Task.ParentType NewTask;
                     Task.Status := Task.Status NewTask |} = None).
Proof.
assert (Hnil : forall t, ValidateTask t = None <->
               Task.Name t <> "" /\
               (Task.Status t = TaskStatusDone \/ Task.Status t = TaskStatusProgress \/
                Task.Status t = TaskStatusTodo)).
{ intros t. unfold ValidateTask.
  rewrite errorsOrNil_nil, !appendError_nil, ValidateRequiredString_nil,
    ValidateStringInList_nil.
  rewrite !elem_of_cons, elem_of_nil. unfold TaskStatusDone, TaskStatusProgress, TaskStatusTodo.
  intuition discriminate. }
split; [apply Hnil|]. intros name Hname. apply Hnil. simpl. split; [exact Hname|].
right. right. reflexivity.
Qed.

End ModelProperties.

(** ** The properties on runs of the sessions of the examples *)

Section SessionRunWitnesses.

Import Session DemoSession DemoMore.

(** A failed receive ends an event session: the callback is called once,
    the socket is closed, and the read and write loops are signalled. *)
Lemma unregistered_exactly_once_witness :
  let ended :=
    after [SocketReceive ReceiveError; SignalStopAll TheReader; ControlStopAll] subscriber in
  control ended = ControlReturned /\ unregistrations (log ended) = 1%nat /\
  log ended = (ASignal ChanStopAll :: shutdownActions) /\ socketOpen ended = false /\
  stopRead ended = 1%nat /\ stopWrite ended = 1%nat.
Proof.
intros ended.
unshelve epose proof
  (unregistered_exactly_once pushSessionTypeEvent ∅ 100 false false
     [SocketReceive ReceiveError; SignalStopAll TheReader; ControlStopAll] ended _) as T;
  [vm_compute; reflexivity|].
destruct T as [(Hc & _)|(Hc & Hu & _ & Hs & _)]; [vm_compute in Hc; discriminate|].
split; [exact Hc|]. split; [exact Hu|]. split; [vm_compute; reflexivity|].
split; [exact Hs|]. split; vm_compute; reflexivity.
Defined.



(** A failed receive and a call of [close] put two signals on [stopAll];
    the control loop takes one and returns. *)
Lemma channels_never_overflow_witness :
  let ended :=
    after [SocketReceive ReceiveError; SignalStopAll TheReader; Close; ControlStopAll]
      subscriber in
  (length (requests ended) <= inboxCapacity)%nat /\
  (length (filters ended) <= inboxCapacity)%nat /\
  (stopAll ended <= stopCapacity)%nat /\ (stopRead ended <= 1)%nat /\
  (stopWrite ended <= 1)%nat /\
  (control ended = ControlRunning -> stopRead ended = 0%nat /\ stopWrite ended = 0%nat).
Proof.
intros ended.
apply (channels_never_overflow pushSessionTypeEvent ∅ 100 true false false
         [SocketReceive ReceiveError; SignalStopAll TheReader; Close; ControlStopAll]).
vm_compute. reflexivity.
Defined.

(** The handler of a request that runs after the session was closed
    hands its response to a closed socket. *)
Lemma nothing_delivered_after_close_witness :
  let closed :=
    after [SocketReceive (ReceivedRequest (request "1" "retrieve" "")); ReaderEnqueue;
           ControlRequest; Close; ControlStopAll; RunOperation 0 true] client in
  let lost :=
    ASend (ResponseFrame {| ResponseRequest := request "1" "retrieve" "" |} created) false in
  log closed = [ASignal ChanStopAll; ASignal ChanStopRead; ASignal ChanStopWrite;
                AUnregister; ASocketClose; AClearCallbacks; lost] /\
  socketOpen closed = false /\
  forall (f : frame) (d : bool), ASend f d ∈ [AClearCallbacks; lost] -> d = false.
Proof.
intros closed lost. split; [vm_compute; reflexivity|].
apply (nothing_delivered_after_close pushSessionTypeAPI ∅ 100 true true true
         [SocketReceive (ReceivedRequest (request "1" "retrieve" "")); ReaderEnqueue;
          ControlRequest; Close; ControlStopAll; RunOperation 0 true] closed
         [ASignal ChanStopAll; ASignal ChanStopRead; ASignal ChanStopWrite; AUnregister]);
  vm_compute; reflexivity.
Defined.

(** An event session that installs a filter and pushes an event. *)
Lemma event_session_only_pushes_witness :
  let moves :=
    [SocketReceive (ReceivedFilter (Some ["J"])); ReaderEnqueue; ControlFilter;
     EventsSend (event "I" 100); WriterSend true] in
  asked moves = [] /\ requests (after moves subscriber) = [] /\
  operations (after moves subscriber) = [] /\
  frames (log (after moves subscriber)) = EventFrame <$> delivered (log (after moves subscriber)).
Proof.
intros moves.
apply (event_session_only_pushes ∅ 100 true moves (after moves subscriber)).
vm_compute. reflexivity.
Defined.

(** An event pushed to an API session is handed to the socket. *)
Lemma api_session_never_filters_witness :
  let holding := after [EventsSend (event "I" 100)] client in
  filter holding = None /\
  exists s', step (WriterSend true) holding = Some s' /\
             log s' = [ASend (EventFrame (event "I" 100)) true].
Proof.
intros holding.
unshelve epose proof
  (api_session_never_filters ∅ 100 true true true [EventsSend (event "I" 100)] holding _)
  as T; [vm_compute; reflexivity|].
destruct T as (Hfilter & _ & Hwrite).
destruct (Hwrite (event "I" 100) true) as [_ Hsend].
destruct (Hsend eq_refl) as (s' & Hstep & Hlog).
split; [exact Hfilter|]. exists s'. split; [exact Hstep|].
rewrite Hlog. vm_compute. reflexivity.
Defined.

(** Of a request to [archive] and a request to [retrieve], the second is
    answered and the first is not. *)
Lemma answers_are_to_requests_witness :
  let moves :=
    [SocketReceive (ReceivedRequest (request "1" "archive" "")); ReaderEnqueue;
     ControlRequest;
     SocketReceive (ReceivedRequest (request "2" "retrieve" "")); ReaderEnqueue;
     ControlRequest; RunOperation 0 true] in
  answered (log (after moves client)) = [request "2" "retrieve" ""] /\
  answered (log (after moves client)) ++ pending (after moves client) ⊆+
    backported (Get ∅ "token") <$> List.filter dispatchable (asked moves).
Proof.
intros moves. split; [vm_compute; reflexivity|].
apply (answers_are_to_requests ∅ 100 true true true moves (after moves client)).
vm_compute. reflexivity.
Defined.

(** In the session opened with the token [secret], the request answered
    carries the token. *)
Lemma token_replaces_credentials_witness :
  let moves :=
    [SocketReceive (ReceivedRequest (request "1" "retrieve" "")); ReaderEnqueue;
     ControlRequest; RunOperation 0 true] in
  let served :=
    {| RequestID := "1"; Operation := "retrieve"; Username := "Bearer";
       Password := "secret"; Data := "" |} in
  answered (log (after moves bearer)) = [served] /\
  Username served = "Bearer" /\ Password served = Get {[ "token" := ["secret"] ]} "token" /\
  exists sent, sent ∈ asked moves /\
    RequestID served = RequestID sent /\ Operation served = Operation sent /\
    Data served = Data sent.
Proof.
intros moves served. split; [vm_compute; reflexivity|].
apply (token_replaces_credentials {[ "token" := ["secret"] ]} 100 true true true moves
         (after moves bearer) served).
- vm_compute. discriminate.
- vm_compute. reflexivity.
- vm_compute. constructor.
Defined.

(** The handler of a retrieval answers its request. *)
Lemma operation_always_answers_witness :
  let serving :=
    after [SocketReceive (ReceivedRequest (request "1" "retrieve" "")); ReaderEnqueue;
           ControlRequest] client in
  exists (s' : PushSession (list string)) (handed : list frame),
    step (RunOperation 0 true) serving = Some s' /\
    handed = [ResponseFrame {| ResponseRequest := request "1" "retrieve" "" |} created] /\
    frames (log s') = handed /\
    answered (log s') = [request "1" "retrieve" ""].
Proof.
intros serving.
unshelve epose proof
  (operation_always_answers serving 0 true Retrieve (request "1" "retrieve" "") _) as T;
  [vm_compute; reflexivity|].
destruct T as (s' & handed & Hstep & _ & Hframes & _ & Hanswered & Hhanded).
exists s', handed. split; [exact Hstep|]. split; [exact Hhanded|].
rewrite Hanswered, Hframes, Hhanded. split; vm_compute; reflexivity.
Defined.

(** Of the events stamped 99, 100 and 101 that one call pushes to a
    session started at 100, the last two are delivered, in order. *)
Lemma delivered_since_start_witness :
  let events := [event "I" 99; event "I" 100; event "J" 101] in
  let moves :=
    [EventsSend (event "I" 100); WriterSend true; EventsSend (event "J" 101);
     WriterSend true] in
  delivered (log (after moves subscriber)) = [event "I" 100; event "J" 101] /\
  sublist (delivered (log (after moves subscriber))) events /\
  forall e, e ∈ delivered (log (after moves subscriber)) -> 100 <= Timestamp e.
Proof.
intros events moves. split; [vm_compute; reflexivity|].
unshelve epose proof
  (delivered_since_start pushSessionTypeEvent ∅ 100 true false false events moves
     (after moves subscriber) _ _) as T; [vm_compute; reflexivity ..|].
exact T.
Defined.

End SessionRunWitnesses.

(** ** The other properties on the examples *)

Section ServiceWitnesses.

Import DemoMore.

(** The three pingers, finishing in the reverse order of the map. *)
Lemma health_of_every_pinger_witness :
  Health.RetrieveHealthStatus 1000 (reverse (map_to_list pingers)) =
    {[ "database" := "ok"; "cache" := "timeout"; "queue" := "error" ]}.
Proof.
destruct (health_of_every_pinger 1000 pingers (reverse (map_to_list pingers))
            (reverse_Permutation _)) as [T _].
rewrite T. vm_compute. reflexivity.
Defined.

(** An error that is not one of [elemental] is written as a 500, for
    any origin. *)
Lemma WriteHTTPError_status_witness :
  Rest.calls (Rest.WriteHTTPError blank "" (Rest.OtherError "boom")) =
    [Rest.CallWriteHeader 500; Rest.CallWrite "Internal Server Error"] /\
  Rest.Header (Rest.WriteHTTPError blank "" (Rest.OtherError "boom"))
    !! "Access-Control-Allow-Origin" = Some ["*"].
Proof.
destruct (WriteHTTPError_status blank "" (Rest.OtherError "boom"))
  as (_ & Horigin & _).
split; [vm_compute; reflexivity|exact Horigin].
Defined.

(** Of two producers that further attempts would give, the publisher
    gets the one of the first attempt that succeeds, the second attempt
    here, and it publishes with it. *)
Lemma Connect_reports_witness :
  let p := Kafka.newKafkaPubSub (P := string) ["broker:9092"] in
  let attempts := [Kafka.Failed false; Kafka.Created "first"; Kafka.Created "second"] in
  let q := fst (Kafka.Connect p attempts) in
  Kafka.producer q = Some "first" /\ Kafka.log q = [] /\
  Kafka.Publish q {| Kafka.Topic := "events"; Kafka.data := "{}" |} None =
    (None,
     {| Kafka.services := ["broker:9092"]; Kafka.producer := Some "first";
        Kafka.retryInterval := 5 * Kafka.Second;
        Kafka.log := [Kafka.Sent "first" "events" "{}"] |}).
Proof.
intros p attempts q.
unshelve epose proof (Connect_reports p q attempts (Some true) _) as T;
  [vm_compute; reflexivity|].
destruct T as (Hlog & Hservices & Hinterval & (prod & Hq & Hfrom) & Hpublish).
assert (Hfirst : prod = "first").
{ destruct Hfrom as [[Hhad _]|(_ & retried & rest & Hsplit & Hall)]; [discriminate|].
  destruct retried as [|a retried]; [discriminate|].
  injection Hsplit as <- Hsplit.
  destruct retried as [|b retried]; [injection Hsplit as <- _; reflexivity|].
  injection Hsplit as <- _.
  apply Forall_cons in Hall as [_ Hall]. apply Forall_cons in Hall as [Hb _].
  discriminate. }
subst prod.
split; [exact Hq|]. split; [rewrite Hlog; reflexivity|].
destruct (Hpublish {| Kafka.Topic := "events"; Kafka.data := "{}" |} None)
  as (prod & Hq' & Hsent).
rewrite Hq in Hq'. injection Hq' as <-.
rewrite Hsent, Hq, Hlog, Hservices, Hinterval. reflexivity.
Defined.

(** A list with its three required strings validates; the new list does
    not. *)
Lemma List_valid_when_required_set_witness :
  Models.ValidateList
    {| Models.List.ID := ""; Models.List.CreationOnly := "once";
       Models.List.Description := ""; Models.List.Name := "shopping";
       Models.List.ParentID := ""; Models.List.ParentType := "";
       Models.List.ReadOnly := "fixed" |} = None /\
  Models.ValidateList Models.NewList <> None.
Proof.
destruct (List_valid_when_required_set
            {| Models.List.ID := ""; Models.List.CreationOnly := "once";
               Models.List.Description := ""; Models.List.Name := "shopping";
               Models.List.ParentID := ""; Models.List.ParentType := "";
               Models.List.ReadOnly := "fixed" |}) as (Hvalid & _ & Hnew).
split; [|exact Hnew]. apply Hvalid. repeat split; discriminate.
Defined.

(** The new task, once named, validates. *)
Lemma Task_valid_when_named_witness :
  Models.ValidateTask
    {| Models.Task.ID := ""; Models.Task.Description := ""; Models.Task.Name := "write";
       Models.Task.ParentID := ""; Models.Task.ParentType := "";
       Models.Task.Status := "TODO" |} = None.
Proof.
destruct (Task_valid_when_named Models.NewTask) as [_ Hnamed].
apply (Hnamed "write"). discriminate.
Defined.

End ServiceWitnesses.
